(** * script-loader: the loading pipeline of [src/index.js]

    The browser code is embedded as follows.
    - JavaScript values the pipeline touches are [jsval]; a request field
      that is absent is [JUndef]; the native constructors [Array] and
      [String] (the defaults of [ScriptObject]) are [JFun].
    - A promise-returning computation is a [fut]: it settles, performs a
      synchronous side effect, reads the clock ([Date.now()]), waits for the
      [onload]/[onerror] handler of a script element it appended, waits for
      two computations ([Promise.all]), or starts a chain whose result nobody
      observes.
    - The event loop is [machine]: the environment picks which pending script
      element fires next and with which outcome ([outcome]); everything a
      handler triggers (its promise reactions) runs in that same turn.
    - Every side effect is an [event] of the trace, tagged with the [lane]
      (position in the tree of concurrent computations) that produced it. *)

From Stdlib Require Import String Ascii List ZArith QArith Bool Lia.
Import ListNotations.
#[local] Set Warnings "-register-all".
Local Open Scope nat_scope.
Local Open Scope string_scope.
Local Open Scope list_scope.

(* ------------------------------------------------------------------ *)
(** ** JavaScript values *)

Inductive jsval : Type :=
| JUndef
| JBool (b : bool)
| JNum (q : Q)
| JStr (s : string)
| JArr (items : list jsval)
| JObj (fields : list (string * jsval))
| JFun (name : string).

(** Truthiness, as [if (v)] and [&&] use it. *)
Definition js_truthy (v : jsval) : bool :=
  match v with
  | JUndef => false
  | JBool b => b
  | JNum q => negb (Qeq_bool q 0)
  | JStr s => negb (String.eqb s EmptyString)
  | JArr _ | JObj _ | JFun _ => true
  end.

(** [v.length] for the values a request field can hold: arrays, strings and
    the native constructors ([Array.length] and [String.length] are 1). *)
Definition js_length (v : jsval) : nat :=
  match v with
  | JArr l => List.length l
  | JStr s => String.length s
  | JFun _ => 1
  | _ => 0
  end.

(** [v[i]]: out of range (and on a function) it is [undefined]. *)
Definition js_index (v : jsval) (i : nat) : jsval :=
  match v with
  | JArr l => nth i l JUndef
  | JStr s =>
      match String.get i s with
      | Some c => JStr (String c EmptyString)
      | None => JUndef
      end
  | _ => JUndef
  end.

Fixpoint uint_to_string (d : Decimal.uint) : string :=
  match d with
  | Decimal.Nil => EmptyString
  | Decimal.D0 d => String "0" (uint_to_string d)
  | Decimal.D1 d => String "1" (uint_to_string d)
  | Decimal.D2 d => String "2" (uint_to_string d)
  | Decimal.D3 d => String "3" (uint_to_string d)
  | Decimal.D4 d => String "4" (uint_to_string d)
  | Decimal.D5 d => String "5" (uint_to_string d)
  | Decimal.D6 d => String "6" (uint_to_string d)
  | Decimal.D7 d => String "7" (uint_to_string d)
  | Decimal.D8 d => String "8" (uint_to_string d)
  | Decimal.D9 d => String "9" (uint_to_string d)
  end.

Definition digit (n : Z) : string := uint_to_string (N.to_uint (Z.to_N n)).

(** [String(x)] of a number: exact for every number this program forms
    (integers and millisecond differences divided by 1000). *)
Definition js_number_to_string (q : Q) : string :=
  let z := Z.div (Z.mul (Qnum q) 1000) (Zpos (Qden q)) in
  let a := Z.abs z in
  let r := Z.modulo a 1000 in
  let frac :=
    if Z.eqb r 0 then EmptyString
    else if Z.eqb (Z.modulo r 100) 0 then String.append "." (digit (Z.div r 100))
    else if Z.eqb (Z.modulo r 10) 0 then
      String.append "." (String.append (digit (Z.div r 100))
                                       (digit (Z.modulo (Z.div r 10) 10)))
    else String.append "." (String.append (digit (Z.div r 100))
           (String.append (digit (Z.modulo (Z.div r 10) 10)) (digit (Z.modulo r 10)))) in
  String.append (if Z.ltb z 0 then "-" else EmptyString)
                (String.append (digit (Z.div a 1000)) frac).

(** [String(v)], as string concatenation uses it. *)
Fixpoint js_to_string (v : jsval) : string :=
  match v with
  | JUndef => "undefined"
  | JBool true => "true"
  | JBool false => "false"
  | JNum q => js_number_to_string q
  | JStr s => s
  | JArr l =>
      (fix join (l : list jsval) : string :=
         match l with
         | [] => EmptyString
         | [x] => js_to_string x
         | x :: l' => js_to_string x ++ "," ++ join l'
         end) l
  | JObj _ => "[object Object]"
  | JFun n => "function " ++ n ++ "() { [native code] }"
  end%string.

Definition js_nat (n : nat) : jsval := JNum (inject_Z (Z.of_nat n)).

(** [(endTime - startTime) / 1000]. *)
Definition seconds_between (startTime endTime : Z) : Q :=
  Qmake (endTime - startTime) 1000.

(* ------------------------------------------------------------------ *)
(** ** Promises, side effects and the event loop *)

Inductive res : Type :=
| Fulfilled (v : jsval)
| Rejected (e : jsval).

(** What the environment decides when a pending script element fires:
    [onload] or [onerror], the clock reading of that turn, and the error
    object passed to [onerror]. *)
Record outcome : Type := {
  onload : bool;
  at_time : Z;
  error_value : jsval
}.

Inductive event : Type :=
| EAppend (isStatic : bool) (src : string)     (* container.appendChild(script) *)
| EFire (src : string) (loaded : bool)         (* script.onload / script.onerror runs *)
| ELog (message : string) (useBreak : bool) (payload : jsval)  (* this.log(...) *)
| EConsole (method : string) (arg : jsval)     (* console.error / group calls *)
| EEndTime (t : Z)                             (* this.endTime = Date.now() *)
| EUnhandled (e : jsval)                       (* a rejection nobody handles *)
| EThrow (e : jsval)                           (* an exception escapes to the caller *)
| ESettled (r : res).                          (* the pipeline's own promise settles *)

Inductive fut : Type :=
| Settle (r : res)
| Emit (e : event) (k : fut)
| Now (k : Z -> fut)
| Wait (src : string) (k : outcome -> fut)
| All2 (p q : fut) (k : res -> fut)
| Fork (observed : bool) (c k : fut).

Fixpoint bind (p : fut) (f : res -> fut) : fut :=
  match p with
  | Settle r => f r
  | Emit e k => Emit e (bind k f)
  | Now k => Now (fun t => bind (k t) f)
  | Wait src k => Wait src (fun o => bind (k o) f)
  | All2 p q k => All2 p q (fun r => bind (k r) f)
  | Fork b c k => Fork b c (bind k f)
  end.

(** [p.then(f)]: a rejection passes through. *)
Definition then_ (p : fut) (f : jsval -> fut) : fut :=
  bind p (fun r => match r with
                   | Fulfilled v => f v
                   | Rejected e => Settle (Rejected e)
                   end).

Definition resolved (v : jsval) : fut := Settle (Fulfilled v).

Definition when (b : bool) (e : event) (k : fut) : fut :=
  if b then Emit e k else k.

(** [Promise.all(ps)]; the fulfilled value of [All2] is the pair [[vp, vq]]. *)
Fixpoint promise_all (ps : list fut) : fut :=
  match ps with
  | [] => resolved (JArr [])
  | p :: ps' =>
      All2 p (promise_all ps')
        (fun r => match r with
                  | Fulfilled (JArr [v; JArr vs]) => resolved (JArr (v :: vs))
                  | r => Settle r
                  end)
  end.

Definition lane := list nat.

Record thread : Type := {
  th_observed : bool;
  th_lane : lane;
  th_fut : fut
}.

Definition step_result : Type := (list (lane * event) * fut * list thread)%type.

(** A thread left running once [Promise.all] has its result: its own
    rejection is then still handled by [Promise.all]. *)
Definition keep (l : lane) (t : fut) : list thread :=
  match t with
  | Settle _ => []
  | _ => [{| th_observed := true; th_lane := l; th_fut := t |}]
  end.

(** The settlement of a forked chain: a rejection nobody observes is
    reported as unhandled. *)
Definition reap (b : bool) (l : lane) (t : fut) : list (lane * event) * list thread :=
  match t with
  | Settle (Rejected e) => (if b then [] else [(l, EUnhandled e)], [])
  | Settle (Fulfilled _) => ([], [])
  | _ => ([], [{| th_observed := b; th_lane := l; th_fut := t |}])
  end.

(** Events and threads produced before a step's own result. *)
Definition wrap (es0 : list (lane * event)) (ts0 : list thread) (x : step_result)
    : step_result :=
  let '(es, t, s) := x in (es0 ++ es, t, ts0 ++ s).

(** The join of [Promise.all] once one side has moved: fulfilled when both
    are, rejected as soon as one is (the other keeps running). *)
Definition join (l : lane) (p' q' : fut) (k : res -> fut)
    (nk : res -> step_result) : step_result :=
  match p', q' with
  | Settle (Rejected e), _ => wrap [] (keep (l ++ [1]) q') (nk (Rejected e))
  | Settle (Fulfilled vp), Settle (Fulfilled vq) => nk (Fulfilled (JArr [vp; vq]))
  | _, Settle (Rejected e) => wrap [] (keep (l ++ [0]) p') (nk (Rejected e))
  | _, _ => ([], All2 p' q' k, [])
  end.

(** Run synchronously until every part waits or has settled. *)
Fixpoint norm (l : lane) (now : Z) (p : fut) : step_result :=
  match p with
  | Settle r => ([], Settle r, [])
  | Emit e k => wrap [(l, e)] [] (norm l now k)
  | Now k => norm l now (k now)
  | Wait src k => ([], Wait src k, [])
  | All2 p q k =>
      let '(e1, p', s1) := norm (l ++ [0]) now p in
      let '(e2, q', s2) := norm (l ++ [1]) now q in
      wrap (e1 ++ e2) (s1 ++ s2) (join l p' q' k (fun r => norm l now (k r)))
  | Fork b c k =>
      let '(e1, c', s1) := norm (l ++ [2]) now c in
      let '(e3, s3) := reap b (l ++ [2]) c' in
      wrap (e1 ++ e3) (s1 ++ s3) (norm l now k)
  end.

Fixpoint nwaits (p : fut) : nat :=
  match p with
  | Wait _ _ => 1
  | All2 p q _ => nwaits p + nwaits q
  | _ => 0
  end.

(** The [n]-th pending script element fires with outcome [o]. *)
Fixpoint fire (l : lane) (n : nat) (o : outcome) (p : fut) : option step_result :=
  match p with
  | Wait src k =>
      match n with
      | O => Some (wrap [(l, EFire src (onload o))] [] (norm l (at_time o) (k o)))
      | S _ => None
      end
  | All2 p q k =>
      if Nat.ltb n (nwaits p) then
        match fire (l ++ [0]) n o p with
        | Some (e1, p', s1) =>
            Some (wrap e1 s1 (join l p' q k (fun r => norm l (at_time o) (k r))))
        | None => None
        end
      else
        match fire (l ++ [1]) (n - nwaits p) o q with
        | Some (e1, q', s1) =>
            Some (wrap e1 s1 (join l p q' k (fun r => norm l (at_time o) (k r))))
        | None => None
        end
  | _ => None
  end.

Record machine : Type := {
  m_main : fut;
  m_pool : list thread
}.

Fixpoint fire_pool (n : nat) (o : outcome) (pool : list thread)
    : option (list (lane * event) * list thread) :=
  match pool with
  | [] => None
  | th :: pool' =>
      if Nat.ltb n (nwaits (th_fut th)) then
        match fire (th_lane th) n o (th_fut th) with
        | Some (es, t, s) =>
            let '(e2, s2) := reap (th_observed th) (th_lane th) t in
            Some (es ++ e2, s2 ++ pool' ++ s)
        | None => None
        end
      else
        match fire_pool (n - nwaits (th_fut th)) o pool' with
        | Some (es, pool'') => Some (es, th :: pool'')
        | None => None
        end
  end.

(** One turn of the event loop: the [n]-th pending script element, counting
    those of the pipeline first and then those of detached chains. *)
Definition step (n : nat) (o : outcome) (m : machine)
    : option (list (lane * event) * machine) :=
  if Nat.ltb n (nwaits (m_main m)) then
    match fire [] n o (m_main m) with
    | Some (es, t, s) => Some (es, {| m_main := t; m_pool := m_pool m ++ s |})
    | None => None
    end
  else
    match fire_pool (n - nwaits (m_main m)) o (m_pool m) with
    | Some (es, pool) => Some (es, {| m_main := m_main m; m_pool := pool |})
    | None => None
    end.

(** A schedule: which pending script fires in each turn, and how. A choice
    naming no pending script is a turn in which nothing happens. *)
Definition schedule := list (nat * outcome).

Fixpoint run (sched : schedule) (m : machine) : list (lane * event) * machine :=
  match sched with
  | [] => ([], m)
  | (n, o) :: sched' =>
      match step n o m with
      | Some (es, m') => let '(es', m'') := run sched' m' in (es ++ es', m'')
      | None => run sched' m
      end
  end.

(** Start [p] in a turn at clock reading [t0], then follow [sched]. *)
Definition exec (t0 : Z) (p : fut) (sched : schedule) : list (lane * event) * machine :=
  let '(es, t, s) := norm [] t0 p in
  let '(es', m) := run sched {| m_main := t; m_pool := s |} in
  (es ++ es', m).

Definition trace_of (t0 : Z) (p : fut) (sched : schedule) : list (lane * event) :=
  fst (exec t0 p sched).

(* ------------------------------------------------------------------ *)
(** ** The loader ([function ScriptLoader]) *)

(** The instance fields the pipeline reads and writes. A container is the
    list of the [src] of its child script elements. *)
Record ScriptLoader : Type := {
  useLogger : bool;
  logWindow : bool;              (* [this.logWindow] is defined *)
  scriptDirectoryPath : string;
  staticContainer : list string;
  dynamicContainer : list string;
  startTime : option Z;          (* [null] is [None] *)
  endTime : option Z
}.

(** The constructor's [options]: absent fields are [JUndef]. *)
Record loader_options : Type := {
  opt_useLogger : jsval;
  opt_path : jsval
}.

Definition new_ScriptLoader (options : loader_options) : ScriptLoader :=
  {| useLogger := match opt_useLogger options with
                  | JUndef => false
                  | v => js_truthy v
                  end;
     logWindow := false;
     scriptDirectoryPath :=
       js_to_string (if js_truthy (opt_path options) then opt_path options
                     else JStr "./");
     staticContainer := [];
     dynamicContainer := [];
     startTime := None;
     endTime := None |}.

(** A load request, as [load] reads it. *)
Record scriptObject : Type := {
  statics : jsval;
  dynamics : jsval;
  main : jsval
}.

Definition script_src (L : ScriptLoader) (name : jsval) : string :=
  (scriptDirectoryPath L ++ js_to_string name ++ ".js")%string.

Definition loaded_message (name : jsval) (totalTime : Q) : string :=
  ("*" ++ js_to_string name ++ " script loaded in "
       ++ js_number_to_string totalTime ++ "s.")%string.

(** [this.log] with [message] other than ["init"] prints to the console and
    then runs [this.logWindow.innerHTML += ...]: while [this.logWindow] is
    [undefined] (set only by the ["init"] call of [this.init]) that throws
    this [TypeError]. *)
Definition log_type_error : jsval :=
  JObj [("name", JStr "TypeError");
        ("message", JStr "Cannot read properties of undefined (reading 'innerHTML')")].

Definition log_throws (L : ScriptLoader) : bool := useLogger L && negb (logWindow L).

(** The first [this.log] of a run is the one at the head of [this.load], or,
    for a direct call, the loading message of [this.loadScript]; these two
    are modelled as throwing when [log_throws L]. Every other [this.log] of
    the pipeline runs after one of them has returned, when
    [this.logWindow] is defined (nothing resets it), so it returns.
    Console output is not modelled as failing. *)

(** [script.onload] / [script.onerror] of [this.loadScript]: [startTime]
    is the clock reading taken when the load was issued. *)
Definition script_handlers (L : ScriptLoader) (name : jsval) (startTime : Z)
    (o : outcome) : fut :=
  let endTime := at_time o in
  let totalTime := seconds_between startTime endTime in
  if onload o then
    let message := loaded_message name totalTime in
    when (useLogger L) (ELog message true JUndef)
      (resolved (JObj [("isSuccess", JBool true); ("time", JNum totalTime);
                       ("payload", JObj [("message", JStr message)])]))
  else
    Emit (EConsole "error" (error_value o))
      (Settle (Rejected (JObj [("isSuccess", JBool false);
                               ("time", JNum totalTime);
                               ("payload", error_value o)]))).

Definition loading_message (isStatic : bool) (name : jsval) : string :=
  ("Loading " ++ (if isStatic then "static" else "dynamic")
     ++ " script named <strong>" ++ js_to_string name ++ "</strong>...")%string.

(** [this.loadScript(isStatic, name)]. Its [this.log] runs before
    [new Promise], so when it throws no element is created and the
    exception leaves [loadScript]. [loadScript] is called inside the promise
    executor of [loadScripts] and in [.then] callbacks ([loadLoop], the main
    chain of [load]); there the exception rejects the promise being built,
    which is what [Settle (Rejected log_type_error)] stands for. *)
Definition loadScript (L : ScriptLoader) (isStatic : bool) (name : jsval) : fut :=
  Now (fun startTime =>
  when (useLogger L) (ELog (loading_message isStatic name) true JUndef)
  (if log_throws L then Settle (Rejected log_type_error)
   else
   let src := script_src L name in
   Emit (EAppend isStatic src)
   (Wait src (script_handlers L name startTime)))).

Definition progress_payload (value total : nat) : jsval :=
  JObj [("value", js_nat value); ("total", js_nat total)].

(** The [.then] callback of [loadLoop]; [next] is its recursive call. *)
Definition loop_then (L : ScriptLoader) (scripts : jsval) (counter : nat)
    (next : fut) (r : res) : fut :=
  match r with
  | Fulfilled _ =>
      when (useLogger L)
        (ELog "progress" false (progress_payload (counter + 1) (js_length scripts)))
      (if Nat.leb (js_length scripts) (counter + 1) then
         when (useLogger L) (EConsole "groupEnd" (JStr "Load Progress"))
           (resolved JUndef)
       else next)
  | Rejected err => Settle (Rejected err)   (* .catch((err) => reject(err)) *)
  end.

(** [loadLoop] inside [this.loadScripts]: [counter] is the closure's
    variable, [fuel] bounds the recursion ([scripts[counter]] is undefined
    from [counter = scripts.length] on, so it never runs out). *)
Fixpoint loadLoop (L : ScriptLoader) (isStatic : bool) (scripts : jsval)
    (counter fuel : nat) : fut :=
  if js_truthy (js_index scripts counter) then
    match fuel with
    | O => resolved JUndef
    | S fuel' =>
        bind (loadScript L isStatic (js_index scripts counter))
          (loop_then L scripts counter (loadLoop L isStatic scripts (counter + 1) fuel'))
    end
  else resolved JUndef.

(** [this.loadScripts(isStatic, scripts)] *)
Definition loadScripts (L : ScriptLoader) (isStatic : bool) (scripts : jsval) : fut :=
  when (useLogger L) (EConsole "groupCollapsed" (JStr "Load Progress"))
    (loadLoop L isStatic scripts 0 (js_length scripts)).

(** [this.finish()]; [null] reads as 0 in the subtraction. *)
Definition finish (L : ScriptLoader) : fut :=
  Now (fun t =>
    Emit (EEndTime t)
      (when (useLogger L)
         (ELog "finish" false
            (JNum (seconds_between (match startTime L with Some s => s | None => 0%Z end) t)))
         (resolved JUndef))).

Definition group_requested (scripts : jsval) : bool :=
  js_truthy scripts && Nat.ltb 0 (js_length scripts).

Definition group_promise (L : ScriptLoader) (isStatic : bool) (scripts : jsval) : fut :=
  then_ (loadScripts L isStatic scripts) (fun _ =>
    when (useLogger L)
      (ELog (if isStatic then "static scripts loaded" else "dynamic scripts loaded")
            true JUndef)
      (resolved JUndef)).

Definition group_promises (L : ScriptLoader) (so : scriptObject) : list fut :=
  (if group_requested (statics so) then [group_promise L true (statics so)] else [])
  ++ (if group_requested (dynamics so) then [group_promise L false (dynamics so)] else []).

(** The callback of [Promise.all(promises).then(...)]: the main chain is
    started and not returned, so nobody observes it. It runs after the
    first [this.log] of [load] has returned, so the loading log of this
    [loadScript] returns too. *)
Definition after_groups (L : ScriptLoader) (so : scriptObject) : fut :=
  if js_truthy (main so) then
    Fork false (then_ (loadScript L true (main so)) (fun _ => finish L))
      (resolved JUndef)
  else resolved JUndef.

(** A synchronous call: the promise it returns, or the events it caused
    before throwing and the exception. *)
Inductive call_result : Type :=
| Returns (p : fut)
| Throws (es : list event) (e : jsval).

(** [this.load(scriptObject)]: its first statement
    [if (this.useLogger) this.log("Start loading scripts...", true)] throws
    when [log_throws L], so [load] then starts nothing and returns no
    promise. *)
Definition load (L : ScriptLoader) (so : scriptObject) : call_result :=
  if useLogger L then
    if logWindow L then
      Returns (Emit (ELog "Start loading scripts..." true JUndef)
        (then_ (promise_all (group_promises L so)) (fun _ => after_groups L so)))
    else Throws [ELog "Start loading scripts..." true JUndef] log_type_error
  else Returns (then_ (promise_all (group_promises L so)) (fun _ => after_groups L so)).

(** A caller of [load] that observes its returned promise; an exception
    thrown by [load] reaches the caller instead ([EThrow]). *)
Definition pipeline (L : ScriptLoader) (so : scriptObject) : fut :=
  match load L so with
  | Returns p => bind p (fun r => Emit (ESettled r) (Settle r))
  | Throws es e => fold_right Emit (Emit (EThrow e) (Settle (Rejected e))) es
  end.

(** [this.reset()]: [this.dynamicContainer.innerHTML = ""]. *)
Definition reset (L : ScriptLoader) : ScriptLoader :=
  {| useLogger := useLogger L; logWindow := logWindow L;
     scriptDirectoryPath := scriptDirectoryPath L;
     staticContainer := staticContainer L;
     dynamicContainer := [];
     startTime := startTime L;
     endTime := endTime L |}.

(** The effect of an event on the loader's fields. *)
Definition apply_event (L : ScriptLoader) (e : event) : ScriptLoader :=
  match e with
  | EAppend isStatic src =>
      {| useLogger := useLogger L; logWindow := logWindow L;
         scriptDirectoryPath := scriptDirectoryPath L;
         staticContainer := if isStatic then staticContainer L ++ [src] else staticContainer L;
         dynamicContainer := if isStatic then dynamicContainer L else dynamicContainer L ++ [src];
         startTime := startTime L;
         endTime := endTime L |}
  | EEndTime t =>
      {| useLogger := useLogger L; logWindow := logWindow L;
         scriptDirectoryPath := scriptDirectoryPath L;
         staticContainer := staticContainer L;
         dynamicContainer := dynamicContainer L;
         startTime := startTime L;
         endTime := Some t |}
  | _ => L
  end.

(** [function ScriptObject(scriptsByType)]: the destructuring defaults are
    the constructors [Array] and [String] themselves. *)
Definition js_default (v d : jsval) : jsval :=
  match v with JUndef => d | _ => v end.

Definition ScriptObject (scriptsByType : scriptObject) : scriptObject :=
  {| statics := js_default (statics scriptsByType) (JFun "Array");
     dynamics := js_default (dynamics scriptsByType) (JFun "Array");
     main := js_default (main scriptsByType) (JFun "String") |}.

Definition js_strings (l : list string) : jsval := JArr (map JStr l).

(* ------------------------------------------------------------------ *)
(** ** The event loop through [bind] *)

(** A [bind] applied to a step result: a settled result runs the
    continuation in the same turn. *)
Definition bindN (l : lane) (now : Z) (x : step_result) (f : res -> fut) : step_result :=
  let '(es, t, s) := x in
  match t with
  | Settle r => wrap es s (norm l now (f r))
  | _ => (es, bind t f, s)
  end.

Ltac split_pairs :=
  repeat match goal with
  | |- context [match ?x with pair _ _ => _ end] =>
      lazymatch x with
      | pair _ _ => fail
      | _ => let H := fresh "Hx" in destruct x eqn:H
      end
  end.

Lemma wrap_wrap : forall e1 t1 e2 t2 x,
  wrap e1 t1 (wrap e2 t2 x) = wrap (e1 ++ e2) (t1 ++ t2) x.
Proof.
  intros e1 t1 e2 t2 [[es t] s]; simpl; now rewrite !app_assoc.
Qed.

Lemma bindN_wrap : forall l now es0 ts0 x f,
  bindN l now (wrap es0 ts0 x) f = wrap es0 ts0 (bindN l now x f).
Proof.
  intros l now es0 ts0 [[es t] s] f; simpl.
  destruct t; simpl; try reflexivity.
  now rewrite wrap_wrap.
Qed.

Lemma join_ext : forall l p' q' k (nk1 nk2 : res -> step_result),
  (forall r, nk1 r = nk2 r) -> join l p' q' k nk1 = join l p' q' k nk2.
Proof.
  intros l p' q' k nk1 nk2 H.
  destruct p' as [[vp|ep]| | | | |]; destruct q' as [[vq|eq]| | | | |];
    cbn [join]; rewrite ?H; reflexivity.
Qed.

Lemma join_bind : forall l now p' q' k f (nk : res -> step_result),
  join l p' q' (fun r => bind (k r) f) (fun r => bindN l now (nk r) f)
  = bindN l now (join l p' q' k nk) f.
Proof.
  intros l now p' q' k f nk.
  destruct p' as [[vp|ep]| | | | |]; destruct q' as [[vq|eq]| | | | |];
    cbn [join]; rewrite ?bindN_wrap; reflexivity.
Qed.

Lemma norm_bind : forall p l now f,
  norm l now (bind p f) = bindN l now (norm l now p) f.
Proof.
  induction p as [r|e k IH|k IH|src k IH|p IHp q IHq k IH|b c IHc k IH];
    intros l now f; simpl.
  - destruct (norm l now (f r)) as [[es t] s]; reflexivity.
  - rewrite IH, bindN_wrap; reflexivity.
  - apply IH.
  - reflexivity.
  - destruct (norm (l ++ [0]) now p) as [[e1 p'] s1].
    destruct (norm (l ++ [1]) now q) as [[e2 q'] s2].
    rewrite (join_ext _ _ _ _ _ (fun r => bindN l now (norm l now (k r)) f)) by (intro; apply IH).
    now rewrite join_bind, bindN_wrap.
  - destruct (norm (l ++ [2]) now c) as [[e1 c'] s1].
    destruct (reap b (l ++ [2]) c') as [e3 s3].
    now rewrite IH, bindN_wrap.
Qed.

Definition not_settled (t : fut) : Prop := forall r, t <> Settle r.

Lemma nwaits_bind : forall t f, not_settled t -> nwaits (bind t f) = nwaits t.
Proof.
  intros t f H; destruct t; simpl; try reflexivity.
  exfalso; exact (H r eq_refl).
Qed.

Lemma fire_bind : forall t l n o f, not_settled t ->
  fire l n o (bind t f) = option_map (fun x => bindN l (at_time o) x f) (fire l n o t).
Proof.
  intros t l n o f H; destruct t as [r|e k|k|src k|p q k|b c k]; simpl.
  - exfalso; exact (H r eq_refl).
  - reflexivity.
  - reflexivity.
  - destruct n; simpl; [now rewrite norm_bind, bindN_wrap | reflexivity].
  - destruct (Nat.ltb n (nwaits p)).
    + destruct (fire (l ++ [0]) n o p) as [[[e1 p'] s1]|]; simpl; [|reflexivity].
      rewrite (join_ext _ _ _ _ _ (fun r => bindN l (at_time o) (norm l (at_time o) (k r)) f))
        by (intro; apply norm_bind).
      now rewrite join_bind, bindN_wrap.
    + destruct (fire (l ++ [1]) (n - nwaits p) o q) as [[[e1 q'] s1]|]; simpl; [|reflexivity].
      rewrite (join_ext _ _ _ _ _ (fun r => bindN l (at_time o) (norm l (at_time o) (k r)) f))
        by (intro; apply norm_bind).
      now rewrite join_bind, bindN_wrap.
  - reflexivity.
Qed.

Lemma run_app : forall s1 s2 m,
  run (s1 ++ s2) m =
  let '(e1, m1) := run s1 m in let '(e2, m2) := run s2 m1 in (e1 ++ e2, m2).
Proof.
  induction s1 as [|[n o] s1 IH]; intros s2 m; simpl.
  - destruct (run s2 m); reflexivity.
  - destruct (step n o m) as [[es m']|].
    + rewrite IH. destruct (run s1 m') as [e1 m1]. destruct (run s2 m1) as [e2 m2].
      now rewrite app_assoc.
    + apply IH.
Qed.

Lemma run_idle : forall sched m,
  nwaits (m_main m) = 0 -> m_pool m = [] -> run sched m = ([], m).
Proof.
  induction sched as [|[n o] sched IH]; intros m H1 H2; simpl; [reflexivity|].
  unfold step; rewrite H1, H2; simpl. apply IH; assumption.
Qed.

(* ------------------------------------------------------------------ *)
(** ** One group ([this.loadScripts]) turn by turn *)

(** Where [loadLoop] stands: waiting for the script at [counter] (issued at
    clock reading [st]), resolved, or rejected. *)
Inductive gphase : Type :=
| GRunning (counter fuel : nat) (st : Z)
| GDone
| GFailed (e : jsval).

Definition gwait (L : ScriptLoader) (b : bool) (s : jsval) (c fuel : nat) (st : Z) : fut :=
  Wait (script_src L (js_index s c))
    (fun o => bind (script_handlers L (js_index s c) st o)
                   (loop_then L s c (loadLoop L b s (c + 1) fuel))).

Definition gfut (L : ScriptLoader) (b : bool) (s : jsval) (ph : gphase) : fut :=
  match ph with
  | GRunning c fuel st => gwait L b s c fuel st
  | GDone => resolved JUndef
  | GFailed e => Settle (Rejected e)
  end.

Definition log_if (b : bool) (l : lane) (e : event) : list (lane * event) :=
  if b then [(l, e)] else [].

(** The value [script.onerror] rejects with. *)
Definition load_error (st : Z) (o : outcome) : jsval :=
  JObj [("isSuccess", JBool false); ("time", JNum (seconds_between st (at_time o)));
        ("payload", error_value o)].

(** Entering [loadLoop] at [counter] in a turn at clock reading [now]. *)
Definition genter (L : ScriptLoader) (b : bool) (s : jsval) (l : lane)
    (c fuel : nat) (now : Z) : list (lane * event) * gphase :=
  if js_truthy (js_index s c) then
    match fuel with
    | O => ([], GDone)
    | S f =>
        (log_if (useLogger L) l (ELog (loading_message b (js_index s c)) true JUndef)
           ++ [(l, EAppend b (script_src L (js_index s c)))],
         GRunning c f now)
    end
  else ([], GDone).

(** The turn in which the pending script of the group fires. *)
Definition gstep (L : ScriptLoader) (b : bool) (s : jsval) (l : lane)
    (c fuel : nat) (st : Z) (o : outcome) : list (lane * event) * gphase :=
  let item := js_index s c in
  let fired := (l, EFire (script_src L item) (onload o)) in
  if onload o then
    let es := fired
      :: log_if (useLogger L) l
           (ELog (loaded_message item (seconds_between st (at_time o))) true JUndef)
      ++ log_if (useLogger L) l
           (ELog "progress" false (progress_payload (c + 1) (js_length s))) in
    if Nat.leb (js_length s) (c + 1) then
      (es ++ log_if (useLogger L) l (EConsole "groupEnd" (JStr "Load Progress")), GDone)
    else
      let '(es2, ph) := genter L b s l (c + 1) fuel (at_time o) in (es ++ es2, ph)
  else ([fired; (l, EConsole "error" (error_value o))], GFailed (load_error st o)).

Lemma norm_loadLoop : forall L b s l now c fuel, log_throws L = false ->
  norm l now (loadLoop L b s c fuel)
  = let '(es, ph) := genter L b s l c fuel now in (es, gfut L b s ph, []).
Proof.
  intros L b s l now c fuel Hlw.
  destruct fuel as [|f]; unfold genter; cbn [loadLoop];
    destruct (js_truthy (js_index s c)); try reflexivity.
  rewrite norm_bind; unfold loadScript; rewrite Hlw; simpl.
  destruct (useLogger L); reflexivity.
Qed.

(** With a throwing [this.log], [loadLoop] rejects when it issues its first
    script, before inserting it. *)
Lemma norm_loadLoop_throw : forall L b s l now c fuel, log_throws L = true ->
  norm l now (loadLoop L b s c fuel)
  = if js_truthy (js_index s c) then
      match fuel with
      | O => ([], resolved JUndef, [])
      | S _ => ([(l, ELog (loading_message b (js_index s c)) true JUndef)],
                Settle (Rejected log_type_error), [])
      end
    else ([], resolved JUndef, []).
Proof.
  intros L b s l now c fuel Hlw.
  destruct fuel as [|f]; cbn [loadLoop];
    destruct (js_truthy (js_index s c)); try reflexivity.
  rewrite norm_bind; unfold loadScript; rewrite Hlw.
  unfold log_throws in Hlw; apply andb_prop in Hlw; destruct Hlw as [-> _].
  reflexivity.
Qed.

Lemma fire_gwait : forall L b s l c f st o, log_throws L = false ->
  fire l 0 o (gwait L b s c f st)
  = Some (let '(es, ph) := gstep L b s l c f st o in (es, gfut L b s ph, [])).
Proof.
  intros L b s l c f st o Hlw; unfold gwait; cbn [fire].
  rewrite norm_bind; unfold gstep, script_handlers.
  destruct (onload o); [|reflexivity].
  destruct (useLogger L) eqn:HL; simpl; unfold loop_then, when; rewrite HL; simpl;
    destruct (Nat.leb (js_length s) (c + 1)); simpl; try reflexivity;
    rewrite norm_loadLoop by exact Hlw;
    destruct (genter L b s l (c + 1) f (at_time o)) as [es2 ph];
    simpl; rewrite ?app_nil_r; reflexivity.
Qed.

Lemma nwaits_gfut : forall L b s ph,
  nwaits (gfut L b s ph) = match ph with GRunning _ _ _ => 1 | _ => 0 end.
Proof. intros L b s [c f st| |e]; reflexivity. Qed.

Lemma norm_loadScripts : forall L b s l now, log_throws L = false ->
  norm l now (loadScripts L b s)
  = let '(es, ph) := genter L b s l 0 (js_length s) now in
    (log_if (useLogger L) l (EConsole "groupCollapsed" (JStr "Load Progress")) ++ es,
     gfut L b s ph, []).
Proof.
  intros L b s l now Hlw; unfold loadScripts, when.
  destruct (useLogger L); simpl; rewrite norm_loadLoop by exact Hlw;
    destruct (genter L b s l 0 (js_length s) now); reflexivity.
Qed.

(** The turns of a group run on its own. *)
Fixpoint grun (L : ScriptLoader) (b : bool) (s : jsval) (l : lane) (ph : gphase)
    (sched : schedule) : list (lane * event) * gphase :=
  match sched with
  | [] => ([], ph)
  | (n, o) :: sched' =>
      match ph, n with
      | GRunning c f st, O =>
          let '(es, ph') := gstep L b s l c f st o in
          let '(es', ph'') := grun L b s l ph' sched' in (es ++ es', ph'')
      | _, _ => grun L b s l ph sched'
      end
  end.

Lemma grun_settled : forall L b s l ph sched,
  match ph with GRunning _ _ _ => False | _ => True end ->
  grun L b s l ph sched = ([], ph).
Proof.
  intros L b s l ph sched H; induction sched as [|[n o] sched IH]; simpl; [reflexivity|].
  destruct ph; [contradiction| |]; exact IH.
Qed.

Lemma run_gfut : forall L b s ph sched, log_throws L = false ->
  run sched {| m_main := gfut L b s ph; m_pool := [] |}
  = let '(es, ph') := grun L b s [] ph sched in
    (es, {| m_main := gfut L b s ph'; m_pool := [] |}).
Proof.
  intros L b s ph sched Hlw; revert ph.
  induction sched as [|[n o] sched IH]; intro ph; [reflexivity|].
  cbn [run grun]. unfold step; simpl m_main; simpl m_pool; rewrite nwaits_gfut.
  destruct ph as [c f st| |e].
  - destruct n as [|n].
    + unfold gfut at 1; rewrite fire_gwait by exact Hlw.
      destruct (gstep L b s [] c f st o) as [es ph']; simpl.
      rewrite IH; destruct (grun L b s [] ph' sched); reflexivity.
    + simpl. exact (IH (GRunning c f st)).
  - simpl. exact (IH GDone).
  - simpl. exact (IH (GFailed e)).
Qed.

Lemma exec_loadScripts : forall L b s t0 sched, log_throws L = false ->
  exec t0 (loadScripts L b s) sched
  = let '(es, ph) := genter L b s [] 0 (js_length s) t0 in
    let '(es', ph') := grun L b s [] ph sched in
    (log_if (useLogger L) [] (EConsole "groupCollapsed" (JStr "Load Progress")) ++ es ++ es',
     {| m_main := gfut L b s ph'; m_pool := [] |}).
Proof.
  intros L b s t0 sched Hlw; unfold exec; rewrite norm_loadScripts by exact Hlw.
  destruct (genter L b s [] 0 (js_length s) t0) as [es ph].
  rewrite run_gfut by exact Hlw; destruct (grun L b s [] ph sched); simpl; now rewrite app_assoc.
Qed.

(** With a throwing [this.log]: [console.groupCollapsed], the attempted
    loading message of the first script, and the rejection; nothing is
    inserted. *)
Lemma exec_loadScripts_throw : forall L b s t0 sched, log_throws L = true ->
  exec t0 (loadScripts L b s) sched
  = if js_truthy (js_index s 0) && Nat.ltb 0 (js_length s) then
      ([([], EConsole "groupCollapsed" (JStr "Load Progress"));
        ([], ELog (loading_message b (js_index s 0)) true JUndef)],
       {| m_main := Settle (Rejected log_type_error); m_pool := [] |})
    else
      ([([], EConsole "groupCollapsed" (JStr "Load Progress"))],
       {| m_main := resolved JUndef; m_pool := [] |}).
Proof.
  intros L b s t0 sched Hlw; unfold exec, loadScripts.
  assert (Hu : useLogger L = true)
    by (unfold log_throws in Hlw; apply andb_prop in Hlw; apply Hlw).
  unfold when; rewrite Hu; cbn [norm].
  rewrite norm_loadLoop_throw by exact Hlw.
  destruct (js_truthy (js_index s 0)), (js_length s) as [|n]; cbn [andb Nat.ltb Nat.leb];
    cbn [wrap app]; rewrite run_idle by reflexivity; reflexivity.
Qed.

(** What the ordering claims look at: script insertions, handler firings
    and progress events. *)
Definition is_group_event (e : event) : bool :=
  match e with
  | EAppend _ _ | EFire _ _ => true
  | ELog m _ _ => String.eqb m "progress"
  | _ => false
  end.

Definition observe (tr : list (lane * event)) : list event :=
  filter is_group_event (map snd tr).

Definition prefix {A : Type} (x y : list A) : Prop := exists rest, x ++ rest = y.

Definition srcs_of (L : ScriptLoader) (names : list string) : list string :=
  map (fun n => script_src L (JStr n)) names.

(** The sequential protocol the spec describes for a group of identifiers:
    insert script [i], observe its handler; on success report progress
    [{completed: i+1, total}] and go on with [i+1], on failure stop.
    [results] are the handler outcomes, in order. *)
Fixpoint sequential (logger isStatic : bool) (srcs : list string) (i total : nat)
    (results : list bool) : list event :=
  match srcs with
  | [] => []
  | src :: srcs' =>
      EAppend isStatic src ::
      match results with
      | [] => []
      | true :: results' =>
          EFire src true
            :: (if logger then [ELog "progress" false (progress_payload (i + 1) total)] else [])
            ++ sequential logger isStatic srcs' (S i) total results'
      | false :: _ => [EFire src false]
      end
  end.

Lemma observe_app : forall x y, observe (x ++ y) = observe x ++ observe y.
Proof. intros x y; unfold observe; now rewrite map_app, filter_app. Qed.

Lemma observe_cons : forall x y,
  observe (x :: y) = (if is_group_event (snd x) then [snd x] else []) ++ observe y.
Proof. intros x y; unfold observe; simpl; destruct (is_group_event (snd x)); reflexivity. Qed.

Lemma observe_nil : observe [] = [].
Proof. reflexivity. Qed.

Lemma prefix_app : forall {A : Type} (p x y : list A), prefix x y -> prefix (p ++ x) (p ++ y).
Proof. intros A p x y [r H]; exists r; rewrite <- app_assoc; now rewrite H. Qed.

Lemma prefix_nil : forall {A : Type} (y : list A), prefix [] y.
Proof. intros A y; now exists y. Qed.

Lemma prefix_app_r : forall {A : Type} (x y : list A), prefix x (x ++ y).
Proof. intros A x y; now exists y. Qed.

Lemma js_index_strings : forall names c,
  js_index (js_strings names) c
  = match nth_error names c with Some n => JStr n | None => JUndef end.
Proof.
  intros names c; unfold js_index, js_strings; revert c.
  induction names as [|n names IH]; intros [|c]; simpl; auto.
Qed.

Lemma js_length_strings : forall names, js_length (js_strings names) = length names.
Proof. intro names; unfold js_length, js_strings; apply length_map. Qed.

Lemma skipn_srcs : forall L names c n, nth_error names c = Some n ->
  skipn c (srcs_of L names) = script_src L (JStr n) :: skipn (S c) (srcs_of L names).
Proof.
  intros L names; unfold srcs_of; induction names as [|x names IH]; intros [|c] n H;
    simpl in *; try discriminate.
  - now inversion H.
  - now apply IH.
Qed.

Lemma is_group_loaded : forall item t, is_group_event (ELog (loaded_message item t) true JUndef) = false.
Proof. reflexivity. Qed.

Lemma is_group_loading : forall b item,
  is_group_event (ELog (loading_message b item) true JUndef) = false.
Proof. intros [|] item; reflexivity. Qed.

Lemma observe_log_if : forall lg l e, is_group_event e = false -> observe (log_if lg l e) = [].
Proof. intros [|] l e H; unfold observe; simpl; rewrite ?H; reflexivity. Qed.

Lemma observe_progress : forall lg l c t,
  observe (log_if lg l (ELog "progress" false (progress_payload c t)))
  = if lg then [ELog "progress" false (progress_payload c t)] else [].
Proof. intros lg l c t; destruct lg; reflexivity. Qed.

Lemma snd_log_if : forall lg l e, map snd (log_if lg l e) = if lg then [e] else [].
Proof. intros [|] l e; reflexivity. Qed.

(** A failed firing is never among the log entries of a turn. *)
Ltac no_fail H :=
  repeat first [rewrite map_app in H | rewrite snd_log_if in H | progress cbn [map snd] in H];
  repeat (rewrite in_app_iff in H);
  repeat match type of H with
         | context [if ?c then _ else _] => destruct c
         end;
  cbn [In app] in H; intuition congruence.

Ltac obs_norm :=
  repeat first
    [ rewrite observe_app | rewrite observe_cons | rewrite observe_nil
    | rewrite observe_progress
    | rewrite observe_log_if by (first [apply is_group_loaded | apply is_group_loading
                                        | reflexivity]) ];
  cbn [is_group_event snd app].

Section OneGroup.
Variable L : ScriptLoader.
Variable b : bool.
Variable names : list string.

Let s := js_strings names.
Let N := length names.
Let srcs := srcs_of L names.

Lemma len_s : js_length s = N.
Proof. unfold s, N; apply js_length_strings. Qed.

Lemma index_s : forall c,
  js_index s c = match nth_error names c with Some n => JStr n | None => JUndef end.
Proof. intro c; unfold s; apply js_index_strings. Qed.

(** What is left of the protocol once script [c] has been inserted. *)
Definition gtail (c : nat) (results : list bool) : list event :=
  match results with
  | [] => []
  | true :: r =>
      EFire (script_src L (js_index s c)) true
        :: (if useLogger L then [ELog "progress" false (progress_payload (c + 1) N)] else [])
        ++ sequential (useLogger L) b (skipn (S c) srcs) (S c) N r
  | false :: _ => [EFire (script_src L (js_index s c)) false]
  end.

Lemma sequential_skipn : forall c n results, nth_error names c = Some n ->
  sequential (useLogger L) b (skipn c srcs) c N results
  = EAppend b (script_src L (js_index s c)) :: gtail c results.
Proof.
  intros c n results H. unfold gtail, srcs, s, N.
  rewrite (skipn_srcs L names c n H), js_index_strings, H. reflexivity.
Qed.

Lemma grun_tail : forall sched l c f st, c + S f = N ->
  exists results, prefix (observe (fst (grun L b s l (GRunning c f st) sched))) (gtail c results).
Proof.
  induction sched as [|[n o] sched IH]; intros l c f st Hc.
  - exists []; apply prefix_nil.
  - destruct n as [|n]; [|cbn [grun]; apply IH; exact Hc].
    cbn [grun]. unfold gstep.
    destruct (onload o) eqn:Ho.
    + rewrite len_s.
      destruct (Nat.leb N (c + 1)) eqn:Hlast.
      * rewrite grun_settled by exact I; cbn [fst].
        exists [true]. unfold gtail. rewrite ?app_nil_r. obs_norm.
        replace (skipn (S c) srcs) with (@nil string).
        -- cbn [sequential]. rewrite !app_nil_r. exists []; apply app_nil_r.
        -- symmetry; apply skipn_all2. unfold srcs, srcs_of; rewrite length_map.
           apply Nat.leb_le in Hlast. fold N. lia.
      * apply Nat.leb_gt in Hlast.
        unfold genter.
        destruct (nth_error names (c + 1)) as [n1|] eqn:Hn1;
          [|exfalso; apply nth_error_None in Hn1; fold N in Hn1; lia].
        destruct (js_truthy (js_index s (c + 1))) eqn:Ht.
        -- destruct f as [|f']; [lia|].
           destruct (grun L b s l (GRunning (c + 1) f' (at_time o)) sched) as [es' ph''] eqn:Hg.
           destruct (IH l (c + 1) f' (at_time o) ltac:(lia)) as [r Hr].
           rewrite Hg in Hr; cbn [fst] in Hr |- *.
           exists (true :: r). obs_norm.
           unfold gtail. replace (S c) with (c + 1) by lia.
           rewrite (sequential_skipn (c + 1) n1 r Hn1).
           rewrite <- !app_assoc. apply (prefix_app [_]), prefix_app.
           apply (prefix_app [_]). exact Hr.
        -- rewrite grun_settled by exact I; cbn [fst].
           exists [true]. unfold gtail. rewrite ?app_nil_r. obs_norm.
           eexists; cbn [app]; reflexivity.
    + rewrite grun_settled by exact I; cbn [fst].
      exists [false]. unfold gtail. rewrite ?app_nil_r. obs_norm.
      exists []; reflexivity.
Qed.
(** Once a firing fails, the group is rejected with that script's error
    and nothing after it is inserted. *)
Lemma grun_fail : forall sched l c f st src, c + S f = N ->
  In (EFire src false) (map snd (fst (grun L b s l (GRunning c f st) sched))) ->
  exists k pre st' o,
    c <= k /\ nth_error srcs k = Some src /\
    observe (fst (grun L b s l (GRunning c f st) sched))
      = gtail c (repeat true (k - c) ++ [false]) /\
    onload o = false /\
    fst (grun L b s l (GRunning c f st) sched)
      = pre ++ [(l, EFire src false); (l, EConsole "error" (error_value o))] /\
    snd (grun L b s l (GRunning c f st) sched) = GFailed (load_error st' o).
Proof.
  induction sched as [|[n o] sched IH]; intros l c f st src Hc Hin.
  - contradiction.
  - destruct n as [|n]; [|cbn [grun] in Hin |- *; apply IH; assumption].
    cbn [grun] in Hin |- *. unfold gstep in Hin |- *.
    destruct (nth_error names c) as [nc|] eqn:Hnc;
      [|exfalso; apply nth_error_None in Hnc; fold N in Hnc; lia].
    destruct (onload o) eqn:Ho.
    + rewrite len_s in Hin |- *.
      destruct (Nat.leb N (c + 1)) eqn:Hlast.
      * rewrite grun_settled in Hin by exact I. cbn [fst] in Hin. no_fail Hin.
      * apply Nat.leb_gt in Hlast. unfold genter in Hin |- *.
        destruct (js_truthy (js_index s (c + 1))) eqn:Ht;
          [destruct f as [|f']; [lia|]|].
        -- destruct (grun L b s l (GRunning (c + 1) f' (at_time o)) sched)
             as [es' ph''] eqn:Hg.
           cbn [fst snd] in Hin |- *.
           rewrite !map_app, !in_app_iff in Hin.
           destruct Hin as [[Hin|Hin]|Hin]; [no_fail Hin|no_fail Hin|].
           destruct (IH l (c + 1) f' (at_time o) src ltac:(lia))
             as (k & pre & st' & o' & Hk & Hsrc & Hobs & Ho' & Htr & Hph);
             rewrite Hg in *; cbn [fst snd] in *; [exact Hin|].
           exists k, (((l, EFire (script_src L (js_index s c)) true)
               :: log_if (useLogger L) l
                    (ELog (loaded_message (js_index s c) (seconds_between st (at_time o)))
                       true JUndef)
               ++ log_if (useLogger L) l
                    (ELog "progress" false (progress_payload (c + 1) N)))
             ++ (log_if (useLogger L) l
                   (ELog (loading_message b (js_index s (c + 1))) true JUndef)
                 ++ [(l, EAppend b (script_src L (js_index s (c + 1))))]) ++ pre), st', o'.
           repeat split; try assumption; try lia.
           ++ obs_norm. rewrite Hobs.
              replace (k - c) with (S (k - (c + 1))) by lia. cbn [repeat app].
              unfold gtail at 2. replace (S c) with (c + 1) by lia.
              destruct (nth_error names (c + 1)) as [n1|] eqn:Hn1;
                [|exfalso; apply nth_error_None in Hn1; fold N in Hn1; lia].
              rewrite (sequential_skipn (c + 1) n1 _ Hn1), <- app_assoc. reflexivity.
           ++ rewrite Htr. rewrite <- !app_assoc. reflexivity.
        -- rewrite grun_settled in Hin by exact I. cbn [fst] in Hin.
           rewrite app_nil_r in Hin. no_fail Hin.
    + rewrite grun_settled in Hin |- * by exact I. cbn [fst snd] in Hin |- *.
      rewrite app_nil_r in Hin |- *.
      cbn [map snd In] in Hin.
      destruct Hin as [Hin|[Hin|[]]]; [|discriminate].
      injection Hin as Hin; subst src.
      exists c, [], st, o. repeat split; try assumption; try lia.
      * unfold srcs, srcs_of. rewrite nth_error_map, Hnc. change (nth c (map JStr names) JUndef) with (js_index s c). rewrite index_s, Hnc. reflexivity.
      * rewrite Nat.sub_diag. obs_norm. reflexivity.
Qed.
End OneGroup.

(* ------------------------------------------------------------------ *)
(** ** The whole pipeline ([this.load]) turn by turn *)

Section Pipeline.
Variable L : ScriptLoader.
Variable so : scriptObject.

(** The [.then] of [loadScripts] inside [load]. *)
Definition glog (b : bool) : res -> fut :=
  fun r => match r with
           | Fulfilled v =>
               when (useLogger L)
                 (ELog (if b then "static scripts loaded" else "dynamic scripts loaded")
                    true JUndef)
                 (resolved JUndef)
           | Rejected e => Settle (Rejected e)
           end.

Definition glog_events (b : bool) (l : lane) (ph : gphase) : list (lane * event) :=
  match ph with
  | GDone =>
      log_if (useLogger L) l
        (ELog (if b then "static scripts loaded" else "dynamic scripts loaded") true JUndef)
  | _ => []
  end.

(** A group's promise in [promises], in phase [ph]. *)
Definition bfut (b : bool) (s : jsval) (ph : gphase) : fut :=
  match ph with
  | GRunning c f st => bind (gwait L b s c f st) (glog b)
  | GDone => resolved JUndef
  | GFailed e => Settle (Rejected e)
  end.

Definition is_running (ph : gphase) : bool :=
  match ph with GRunning _ _ _ => true | _ => false end.

(** The firing of a group's pending script, with the group's [.then]. *)
Definition gstep' (b : bool) (s : jsval) (l : lane) (ph : gphase) (o : outcome)
    : list (lane * event) * gphase :=
  match ph with
  | GRunning c f st =>
      let '(es, ph') := gstep L b s l c f st o in (es ++ glog_events b l ph', ph')
  | _ => ([], ph)
  end.

(** The continuations [load] hangs on [Promise.all]. *)
Definition pa_k : res -> fut :=
  fun r => match r with
           | Fulfilled (JArr [v; JArr vs]) => resolved (JArr (v :: vs))
           | r => Settle r
           end.

Definition after_k : res -> fut :=
  fun r => match r with
           | Fulfilled v => after_groups L so
           | Rejected e => Settle (Rejected e)
           end.

Definition settle_k : res -> fut := fun r => Emit (ESettled r) (Settle r).

Definition Kfull : res -> fut := fun r => bind (bind (pa_k r) after_k) settle_k.

Definition reqS : bool := group_requested (statics so).
Definition reqD : bool := group_requested (dynamics so).

(** Lane of the dynamic group: second in [promises] when there are
    statics, first otherwise. *)
Definition dlane : lane := if reqS then [1; 0] else [0].

Definition inner (pd : gphase) : fut :=
  match pd with
  | GDone => resolved (JArr [JUndef])
  | _ => All2 (bfut false (dynamics so) pd) (resolved (JArr [])) pa_k
  end.

(** The pipeline's promise while the groups run. *)
Definition main_run (ps pd : gphase) : fut :=
  match reqS, reqD with
  | true, true => All2 (bfut true (statics so) ps) (inner pd) Kfull
  | true, false => All2 (bfut true (statics so) ps) (resolved (JArr [])) Kfull
  | false, true => All2 (bfut false (dynamics so) pd) (resolved (JArr [])) Kfull
  | false, false => resolved JUndef
  end.

(** The detached main chain, its script issued at clock reading [st]. *)
Definition fin_k : res -> fut :=
  fun r => match r with
           | Fulfilled v => finish L
           | Rejected e => Settle (Rejected e)
           end.

Definition mfut (st : Z) : fut :=
  Wait (script_src L (main so))
    (fun o => bind (script_handlers L (main so) st o) fin_k).

(** Where the pipeline stands: groups running (an absent group is
    [GDone]); rejected, the group still running on the side being the
    static one or not; or fulfilled, with the main script pending since
    the given clock reading. *)
Inductive pstate : Type :=
| PRun (ps pd : gphase)
| PFail (e : jsval) (static_left : bool) (ph : gphase)
| POk (pending : option Z).

Definition fail_pool (sl : bool) (ph : gphase) : list thread :=
  if is_running ph then
    if sl then [{| th_observed := true; th_lane := [0]; th_fut := bfut true (statics so) ph |}]
    else [{| th_observed := true; th_lane := [1];
             th_fut := All2 (bfut false (dynamics so) ph) (resolved (JArr [])) pa_k |}]
  else [].

Definition machine_of (st : pstate) : machine :=
  match st with
  | PRun ps pd => {| m_main := main_run ps pd; m_pool := [] |}
  | PFail e sl ph => {| m_main := Settle (Rejected e); m_pool := fail_pool sl ph |}
  | POk p =>
      {| m_main := resolved JUndef;
         m_pool := match p with
                   | Some t => [{| th_observed := false; th_lane := [2]; th_fut := mfut t |}]
                   | None => []
                   end |}
  end.

(** The turn in which [Promise.all] may settle. *)
Definition start_main (now : Z) : list (lane * event) :=
  (if js_truthy (main so) then
     log_if (useLogger L) [2] (ELog (loading_message true (main so)) true JUndef)
     ++ [([2], EAppend true (script_src L (main so)))]
   else [])
  ++ [([], ESettled (Fulfilled JUndef))].

Definition settle_state (ps pd : gphase) (now : Z) : list (lane * event) * pstate :=
  match ps, pd with
  | GFailed e, _ => ([([], ESettled (Rejected e))], PFail e false pd)
  | _, GFailed e => ([([], ESettled (Rejected e))], PFail e true ps)
  | GDone, GDone =>
      (start_main now, POk (if js_truthy (main so) then Some now else None))
  | _, _ => ([], PRun ps pd)
  end.

(** The turn in which the main script fires. *)
Definition main_fire (st : Z) (o : outcome) : list (lane * event) :=
  ([2], EFire (script_src L (main so)) (onload o)) ::
  if onload o then
    log_if (useLogger L) [2]
      (ELog (loaded_message (main so) (seconds_between st (at_time o))) true JUndef)
    ++ [([2], EEndTime (at_time o))]
    ++ log_if (useLogger L) [2]
         (ELog "finish" false
            (JNum (seconds_between (match startTime L with Some s => s | None => 0%Z end)
                     (at_time o))))
  else [([2], EConsole "error" (error_value o)); ([2], EUnhandled (load_error st o))].

Definition dyn_step (pd : gphase) (n : nat) (o : outcome) (ps : gphase)
    : option (list (lane * event) * pstate) :=
  match pd, n with
  | GRunning _ _ _, O =>
      let '(es, pd') := gstep' false (dynamics so) dlane pd o in
      let '(es2, st') := settle_state ps pd' (at_time o) in Some (es ++ es2, st')
  | _, _ => None
  end.

Definition pstep (st : pstate) (n : nat) (o : outcome) : option (list (lane * event) * pstate) :=
  match st with
  | PRun ps pd =>
      if is_running ps then
        match n with
        | O =>
            let '(es, ps') := gstep' true (statics so) [0] ps o in
            let '(es2, st') := settle_state ps' pd (at_time o) in Some (es ++ es2, st')
        | S n' => dyn_step pd n' o ps
        end
      else dyn_step pd n o ps
  | PFail e sl ph =>
      match ph, n with
      | GRunning _ _ _, O =>
          let '(es, ph') :=
            gstep' sl (if sl then statics so else dynamics so) (if sl then [0] else [1; 0]) ph o in
          Some (es, PFail e sl ph')
      | _, _ => None
      end
  | POk (Some t) =>
      match n with O => Some (main_fire t o, POk None) | S _ => None end
  | POk None => None
  end.

Fixpoint prun (sched : schedule) (st : pstate) : list (lane * event) * pstate :=
  match sched with
  | [] => ([], st)
  | (n, o) :: sched' =>
      match pstep st n o with
      | Some (es, st') => let '(es', st'') := prun sched' st' in (es ++ es', st'')
      | None => prun sched' st
      end
  end.

Definition group_init (b : bool) (s : jsval) (l : lane) (now : Z)
    : list (lane * event) * gphase :=
  let '(es, ph) := genter L b s l 0 (js_length s) now in
  (log_if (useLogger L) l (EConsole "groupCollapsed" (JStr "Load Progress")) ++ es
     ++ glog_events b l ph, ph).

Definition pinit (t0 : Z) : list (lane * event) * pstate :=
  let '(eS, ps) := if reqS then group_init true (statics so) [0] t0 else ([], GDone) in
  let '(eD, pd) := if reqD then group_init false (dynamics so) dlane t0 else ([], GDone) in
  let '(e3, st) := settle_state ps pd t0 in
  (log_if (useLogger L) [] (ELog "Start loading scripts..." true JUndef) ++ eS ++ eD ++ e3, st).
End Pipeline.

Section PipelineRefinement.
Variable L : ScriptLoader.
Variable so : scriptObject.
(** The first [this.log] of [load] returns. *)
Hypothesis Hlw : log_throws L = false.

Lemma nwaits_bfut : forall b s ph,
  nwaits (bfut L b s ph) = if is_running ph then 1 else 0.
Proof. intros b s [c f st| |e]; reflexivity. Qed.

Lemma fire_bfut : forall l b s c f st o,
  fire l 0 o (bfut L b s (GRunning c f st))
  = Some (let '(es, ph') := gstep L b s l c f st o in
          (es ++ glog_events L b l ph', bfut L b s ph', [])).
Proof.
  intros l b s c f st o; unfold bfut.
  rewrite fire_bind by (intros r; discriminate).
  rewrite fire_gwait by exact Hlw; cbn [option_map].
  destruct (gstep L b s l c f st o) as [es [c' f' st'| |e]]; cbn [bindN gfut glog_events].
  - rewrite app_nil_r; reflexivity.
  - unfold glog, when, log_if; destruct (useLogger L); cbn; rewrite ?app_nil_r; reflexivity.
  - cbn. rewrite !app_nil_r; reflexivity.
Qed.

Lemma norm_group_promise : forall l b s now,
  norm l now (group_promise L b s)
  = let '(es, ph) := group_init L b s l now in (es, bfut L b s ph, []).
Proof.
  intros l b s now; unfold group_promise, then_, group_init.
  rewrite norm_bind, norm_loadScripts by exact Hlw.
  destruct (genter L b s l 0 (js_length s) now) as [es [c f st| |e]];
    cbn [bindN gfut glog_events].
  - rewrite app_nil_r; reflexivity.
  - unfold when, log_if; destruct (useLogger L); cbn; rewrite ?app_nil_r, ?app_assoc;
      reflexivity.
  - cbn. rewrite !app_nil_r; reflexivity.
Qed.

(** [Promise.all] fulfilled: the main chain is started, detached. *)
Lemma norm_after : forall l now v,
  norm l now (bind (after_k L so (Fulfilled v)) (settle_k))
  = ((if js_truthy (main so) then
        log_if (useLogger L) (l ++ [2]) (ELog (loading_message true (main so)) true JUndef)
        ++ [(l ++ [2], EAppend true (script_src L (main so)))]
      else []) ++ [(l, ESettled (Fulfilled JUndef))],
     resolved JUndef,
     if js_truthy (main so) then
       [{| th_observed := false; th_lane := l ++ [2]; th_fut := mfut L so now |}]
     else []).
Proof.
  intros l now v; unfold after_k, after_groups.
  destruct (js_truthy (main so)); [|reflexivity].
  unfold then_, loadScript, when, log_if; rewrite Hlw; cbn.
  destruct (useLogger L); reflexivity.
Qed.

Definition wf (st : pstate) : Prop :=
  match st with
  | PRun ps pd =>
      (reqS so = false -> ps = GDone) /\ (reqD so = false -> pd = GDone) /\
      match ps with GFailed _ => False | _ => True end /\
      match pd with GFailed _ => False | _ => True end /\
      (is_running ps = true \/ is_running pd = true)
  | _ => True
  end.

Definition lift (x : option (list (lane * event) * pstate))
    : option (list (lane * event) * machine) :=
  option_map (fun y => (fst y, machine_of L so (snd y))) x.

Lemma join_wait_l : forall l b s c f st g q k nk,
  join l (bind (gwait L b s c f st) g) q k nk
  = match q with
    | Settle (Rejected e) => wrap [] (keep (l ++ [0]) (bind (gwait L b s c f st) g)) (nk (Rejected e))
    | _ => ([], All2 (bind (gwait L b s c f st) g) q k, [])
    end.
Proof. intros l b s c f st g q k nk; destruct q as [[v|e]| | | | |]; reflexivity. Qed.

Lemma join_wait_r : forall l b s c f st g p k nk,
  join l p (bind (gwait L b s c f st) g) k nk
  = match p with
    | Settle (Rejected e) => wrap [] (keep (l ++ [1]) (bind (gwait L b s c f st) g)) (nk (Rejected e))
    | _ => ([], All2 p (bind (gwait L b s c f st) g) k, [])
    end.
Proof. intros l b s c f st g p k nk; destruct p as [[v|e]| | | | |]; reflexivity. Qed.

Lemma keep_wait : forall l b s c f st g,
  keep l (bind (gwait L b s c f st) g)
  = [{| th_observed := true; th_lane := l; th_fut := bind (gwait L b s c f st) g |}].
Proof. reflexivity. Qed.

Lemma norm_Kfull_ok : forall l now v vs,
  norm l now (Kfull L so (Fulfilled (JArr [v; JArr vs])))
  = norm l now (bind (after_k L so (Fulfilled (JArr (v :: vs)))) settle_k).
Proof. reflexivity. Qed.

Lemma norm_Kfull_err : forall l now e,
  norm l now (Kfull L so (Rejected e)) = ([(l, ESettled (Rejected e))], Settle (Rejected e), []).
Proof. reflexivity. Qed.

Lemma nwaits_wait : forall b s c f st g, nwaits (bind (gwait L b s c f st) g) = 1.
Proof. reflexivity. Qed.

Lemma reap_wait : forall ob l b s c f st g,
  reap ob l (bind (gwait L b s c f st) g)
  = ([], [{| th_observed := ob; th_lane := l; th_fut := bind (gwait L b s c f st) g |}]).
Proof. reflexivity. Qed.

Lemma fire_wait : forall l b s c f st o,
  fire l 0 o (bind (gwait L b s c f st) (glog L b))
  = Some (let '(es, ph') := gstep L b s l c f st o in
          (es ++ glog_events L b l ph', bfut L b s ph', [])).
Proof. exact fire_bfut. Qed.

Ltac crunch HS HD :=
  cbn [bfut inner settle_state resolved];
  repeat progress (
    rewrite ?join_wait_l, ?join_wait_r;
    cbn [join wrap app keep resolved pa_k];
    rewrite ?keep_wait, ?norm_Kfull_ok, ?norm_after, ?norm_Kfull_err;
    cbn [wrap app norm resolved]);
  cbn [wrap app fst snd option_map machine_of fail_pool is_running keep];
  try (unfold main_run; rewrite ?HS, ?HD; cbn [bfut inner]);
  rewrite <- ?app_assoc, ?app_nil_r; try reflexivity;
  try (unfold start_main; destruct (js_truthy (main so)); cbn [app];
       rewrite <- ?app_assoc, ?app_nil_r; reflexivity).

Ltac dyn_side HS :=
  unfold step; cbn [m_main m_pool dyn_step]; unfold dlane; rewrite ?HS;
  cbn [bfut inner];
  repeat progress (rewrite ?nwaits_wait;
                   cbn [is_running Nat.ltb Nat.leb Nat.add Nat.sub fire nwaits fire_pool]);
  rewrite ?fire_wait; cbn [gstep' app].

Lemma step_PRun_TT : forall ps pd n o, reqS so = true -> reqD so = true ->
  wf (PRun ps pd) ->
  step n o (machine_of L so (PRun ps pd)) = lift (pstep L so (PRun ps pd) n o).
Proof.
  intros ps pd n o HS HD Hwf.
  unfold machine_of, main_run, pstep, dlane, lift; rewrite HS, HD.
  destruct Hwf as (_ & _ & Hps & Hpd & Hrun).
  destruct ps as [c f st| |e]; [| |contradiction].
  - destruct n as [|n].
    + unfold step; cbn [m_main m_pool].
      cbn [nwaits]. rewrite nwaits_bfut. cbn [is_running Nat.ltb Nat.leb].
      cbn [fire]. rewrite nwaits_bfut. cbn [is_running Nat.ltb Nat.leb].
      rewrite fire_bfut. cbn [gstep' app Nat.add].
      destruct (gstep L true (statics so) [0] c f st o) as [es [c' f' st'| |e]];
        destruct pd as [cd fd sd| |ed]; try contradiction; crunch HS HD.
    + destruct pd as [cd fd sd| |ed]; try contradiction.
      * destruct n as [|n].
        -- dyn_side HS.
           destruct (gstep L false (dynamics so) [1; 0] cd fd sd o) as [es [c' f' st'| |e]];
             crunch HS HD.
        -- dyn_side HS. reflexivity.
      * dyn_side HS. reflexivity.
  - destruct pd as [cd fd sd| |ed];
      [|destruct Hrun as [Hr|Hr]; discriminate|contradiction].
    destruct n as [|n].
    + dyn_side HS.
      destruct (gstep L false (dynamics so) [1; 0] cd fd sd o) as [es [c' f' st'| |e]];
        crunch HS HD.
    + dyn_side HS. reflexivity.
Qed.
Lemma step_PRun_TF : forall ps pd n o, reqS so = true -> reqD so = false ->
  wf (PRun ps pd) ->
  step n o (machine_of L so (PRun ps pd)) = lift (pstep L so (PRun ps pd) n o).
Proof.
  intros ps pd n o HS HD Hwf.
  unfold machine_of, main_run, pstep, dlane, lift; rewrite HS, HD.
  destruct Hwf as (_ & HpdD & Hps & _ & Hrun). rewrite (HpdD HD) in *.
  destruct ps as [c f st| |e]; [|destruct Hrun as [Hr|Hr]; discriminate|contradiction].
  destruct n as [|n].
  - unfold step; cbn [m_main m_pool].
    cbn [nwaits]. rewrite nwaits_bfut. cbn [is_running Nat.ltb Nat.leb].
    cbn [fire]. rewrite nwaits_bfut. cbn [is_running Nat.ltb Nat.leb].
    rewrite fire_bfut. cbn [gstep' app Nat.add].
    destruct (gstep L true (statics so) [0] c f st o) as [es [c' f' st'| |e]];
      crunch HS HD.
  - dyn_side HS. reflexivity.
Qed.

Lemma step_PRun_FT : forall ps pd n o, reqS so = false -> reqD so = true ->
  wf (PRun ps pd) ->
  step n o (machine_of L so (PRun ps pd)) = lift (pstep L so (PRun ps pd) n o).
Proof.
  intros ps pd n o HS HD Hwf.
  unfold machine_of, main_run, pstep, dlane, lift; rewrite HS, HD.
  destruct Hwf as (HpsD & _ & _ & Hpd & Hrun). rewrite (HpsD HS) in *.
  destruct pd as [c f st| |e]; [|destruct Hrun as [Hr|Hr]; discriminate|contradiction].
  destruct n as [|n].
  - dyn_side HS.
    destruct (gstep L false (dynamics so) [0] c f st o) as [es [c' f' st'| |e]];
      crunch HS HD.
  - dyn_side HS. reflexivity.
Qed.

Lemma step_PRun : forall ps pd n o, wf (PRun ps pd) ->
  step n o (machine_of L so (PRun ps pd)) = lift (pstep L so (PRun ps pd) n o).
Proof.
  intros ps pd n o Hwf.
  destruct (reqS so) eqn:HS, (reqD so) eqn:HD.
  - apply step_PRun_TT; assumption.
  - apply step_PRun_TF; assumption.
  - apply step_PRun_FT; assumption.
  - exfalso. destruct Hwf as (H1 & H2 & _ & _ & Hrun).
    rewrite (H1 HS), (H2 HD) in Hrun. destruct Hrun; discriminate.
Qed.

Lemma step_PFail : forall e sl ph n o,
  step n o (machine_of L so (PFail e sl ph)) = lift (pstep L so (PFail e sl ph) n o).
Proof.
  intros e sl ph n o. unfold machine_of, fail_pool, pstep, lift, step.
  cbn [m_main m_pool nwaits Nat.ltb Nat.leb Nat.sub].
  destruct ph as [c f st| |e']; cbn [is_running fire_pool]; [|reflexivity|reflexivity].
  destruct sl, n as [|n]; cbn [fire_pool th_fut th_lane th_observed bfut nwaits];
    rewrite ?nwaits_wait; cbn [Nat.ltb Nat.leb fire fire_pool Nat.sub nwaits];
    rewrite ?nwaits_wait, ?fire_wait;
    cbn [Nat.ltb Nat.leb fire_pool app th_fut th_lane th_observed fire nwaits];
    rewrite ?nwaits_wait, ?fire_wait; cbn [Nat.ltb Nat.leb app];
    try reflexivity.
  - cbn [gstep']. destruct (gstep L true (statics so) [0] c f st o) as [es [c' f' st'| |e0]];
      cbn [bfut reap app fst snd option_map machine_of fail_pool is_running resolved];
      rewrite ?reap_wait; cbn [app]; rewrite ?app_nil_r; reflexivity.
  - cbn [gstep']. destruct (gstep L false (dynamics so) [1; 0] c f st o) as [es [c' f' st'| |e0]];
      cbn [bfut resolved join wrap keep app norm pa_k reap fst snd option_map machine_of fail_pool
           is_running];
      rewrite ?join_wait_l;
      cbn [Nat.add nwaits resolved Nat.ltb Nat.leb wrap app reap fst snd option_map keep norm
           pa_k machine_of fail_pool is_running];
      rewrite ?reap_wait; cbn [app]; rewrite ?app_nil_r; reflexivity.
Qed.

Lemma step_POk : forall pnd n o,
  step n o (machine_of L so (POk pnd)) = lift (pstep L so (POk pnd) n o).
Proof.
  intros [t|] n o; [|reflexivity].
  unfold machine_of, pstep, lift, step.
  cbn [m_main m_pool nwaits resolved Nat.ltb Nat.leb Nat.sub fire_pool th_fut th_lane
       th_observed].
  destruct n as [|n]; [|reflexivity].
  unfold mfut, main_fire, script_handlers, load_error, fin_k, finish, when, log_if.
  cbn [nwaits Nat.ltb Nat.leb fire].
  destruct (onload o), (useLogger L); cbn; reflexivity.
Qed.

Lemma step_pstate : forall st n o, wf st ->
  step n o (machine_of L so st) = lift (pstep L so st n o).
Proof.
  intros [ps pd|e sl ph|pnd] n o Hwf.
  - apply step_PRun; exact Hwf.
  - apply step_PFail.
  - apply step_POk.
Qed.

Lemma wf_settle_state : forall ps pd now,
  (reqS so = false -> ps = GDone) -> (reqD so = false -> pd = GDone) ->
  wf (snd (settle_state L so ps pd now)).
Proof.
  intros ps pd now H1 H2.
  destruct ps as [c f st| |e], pd as [c' f' st'| |e']; cbn; auto; repeat split; auto.
  all: try discriminate; try (left; reflexivity); try (right; reflexivity).
  all: intro HX; first [specialize (H1 HX) | specialize (H2 HX)]; discriminate.
Qed.

Lemma gstep'_ph : forall b s l ph o, is_running ph = false -> gstep' L b s l ph o = ([], ph).
Proof. intros b s l [c f st| |e] o H; [discriminate|reflexivity|reflexivity]. Qed.

Lemma wf_pstep : forall st n o es st', wf st -> pstep L so st n o = Some (es, st') -> wf st'.
Proof.
  intros [ps pd|e sl ph|pnd] n o es st' Hwf H.
  2: { cbn [pstep] in H. destruct ph as [c f st| |e']; destruct n; try discriminate.
       destruct (gstep' L sl _ _ (GRunning c f st) o). injection H as _ <-. exact I. }
  2: { destruct pnd; destruct n; cbn in H; try discriminate. injection H as _ <-. exact I. }
  destruct Hwf as (H1 & H2 & _ & _ & _).
  cbn [pstep] in H.
  destruct (is_running ps) eqn:Hps.
  - destruct n as [|n].
    + destruct (gstep' L true (statics so) [0] ps o) as [es1 ps'] eqn:Hg.
      destruct (settle_state L so ps' pd (at_time o)) as [es2 st2] eqn:Hs.
      injection H as <- <-.
      replace st2 with (snd (settle_state L so ps' pd (at_time o))) by (rewrite Hs; reflexivity).
      apply wf_settle_state; [|exact H2].
      intro HS. rewrite (H1 HS) in Hps. discriminate.
    + unfold dyn_step in H. destruct pd as [c f st| |e]; [|discriminate|discriminate].
      destruct n; [|discriminate].
      destruct (gstep' L false (dynamics so) (dlane so) (GRunning c f st) o) as [es1 pd'].
      destruct (settle_state L so ps pd' (at_time o)) as [es2 st2] eqn:Hs.
      injection H as <- <-.
      replace st2 with (snd (settle_state L so ps pd' (at_time o))) by (rewrite Hs; reflexivity).
      apply wf_settle_state; [exact H1|].
      intro HD. specialize (H2 HD). discriminate.
  - unfold dyn_step in H. destruct pd as [c f st| |e]; [|discriminate|discriminate].
    destruct n; [|discriminate].
    destruct (gstep' L false (dynamics so) (dlane so) (GRunning c f st) o) as [es1 pd'].
    destruct (settle_state L so ps pd' (at_time o)) as [es2 st2] eqn:Hs.
    injection H as <- <-.
    replace st2 with (snd (settle_state L so ps pd' (at_time o))) by (rewrite Hs; reflexivity).
    apply wf_settle_state; [exact H1|].
    intro HD. specialize (H2 HD). discriminate.
Qed.

Lemma run_pstate : forall sched st, wf st ->
  run sched (machine_of L so st)
  = (fst (prun L so sched st), machine_of L so (snd (prun L so sched st))).
Proof.
  induction sched as [|[n o] sched IH]; intros st Hwf; [reflexivity|].
  cbn [run prun]. rewrite step_pstate by exact Hwf. unfold lift.
  destruct (pstep L so st n o) as [[es st']|] eqn:Hp; cbn [option_map fst snd].
  - rewrite (IH st' (wf_pstep st n o es st' Hwf Hp)).
    destruct (prun L so sched st'); reflexivity.
  - apply IH; exact Hwf.
Qed.

Definition start_log : event := ELog "Start loading scripts..." true JUndef.

Lemma norm_when : forall l now b e p,
  norm l now (when b e p) = wrap (log_if b l e) [] (norm l now p).
Proof.
  intros l now [|] e p; cbn [when log_if norm]; [reflexivity|].
  destruct (norm l now p) as [[es t] s]; reflexivity.
Qed.

Lemma pipeline_shape : forall l now,
  norm l now (pipeline L so)
  = wrap (log_if (useLogger L) l start_log) []
      (norm l now
         (match reqS so, reqD so with
          | true, true =>
              All2 (group_promise L true (statics so))
                (All2 (group_promise L false (dynamics so)) (resolved (JArr [])) pa_k)
                (Kfull L so)
          | true, false => All2 (group_promise L true (statics so)) (resolved (JArr [])) (Kfull L so)
          | false, true => All2 (group_promise L false (dynamics so)) (resolved (JArr [])) (Kfull L so)
          | false, false => bind (after_k L so (Fulfilled (JArr []))) settle_k
          end)).
Proof.
  intros l now. rewrite <- norm_when.
  unfold pipeline, load, group_promises, reqS, reqD.
  unfold log_throws in Hlw.
  destruct (group_requested (statics so)), (group_requested (dynamics so)), (useLogger L),
    (logWindow L); try discriminate; reflexivity.
Qed.

Lemma norm_pipeline : forall t0,
  norm [] t0 (pipeline L so)
  = (fst (pinit L so t0), m_main (machine_of L so (snd (pinit L so t0))),
     m_pool (machine_of L so (snd (pinit L so t0)))).
Proof.
  intro t0. rewrite pipeline_shape. unfold pinit, dlane.
  destruct (reqS so) eqn:HS, (reqD so) eqn:HD; cbn [norm];
    rewrite ?norm_group_promise; cbn [app].
  - destruct (group_init L true (statics so) [0] t0) as [eS ps].
    destruct (group_init L false (dynamics so) [1; 0] t0) as [eD pd].
    destruct ps as [c f st| |e], pd as [c' f' st'| |e']; crunch HS HD.
  - destruct (group_init L true (statics so) [0] t0) as [eS ps].
    destruct ps as [c f st| |e]; crunch HS HD.
  - destruct (group_init L false (dynamics so) [0] t0) as [eD pd].
    destruct pd as [c f st| |e]; crunch HS HD.
  - rewrite norm_after. crunch HS HD.
Qed.

Lemma wf_pinit : forall t0, wf (snd (pinit L so t0)).
Proof.
  intro t0; unfold pinit, dlane.
  destruct (reqS so) eqn:HS, (reqD so) eqn:HD;
    [ destruct (group_init L true (statics so) [0] t0) as [eS ps];
      destruct (group_init L false (dynamics so) [1; 0] t0) as [eD pd]
    | destruct (group_init L true (statics so) [0] t0) as [eS ps]
    | destruct (group_init L false (dynamics so) [0] t0) as [eD pd]
    | ];
    match goal with |- context [settle_state L so ?a ?b t0] =>
      pose proof (wf_settle_state a b t0) as W; destruct (settle_state L so a b t0) end;
    apply W; intro HX; congruence.
Qed.

Lemma machine_eta : forall m, {| m_main := m_main m; m_pool := m_pool m |} = m.
Proof. intros []; reflexivity. Qed.

(** The whole run of [load] as the pipeline state machine sees it. *)
Lemma exec_pipeline : forall t0 sched,
  exec t0 (pipeline L so) sched
  = (fst (pinit L so t0) ++ fst (prun L so sched (snd (pinit L so t0))),
     machine_of L so (snd (prun L so sched (snd (pinit L so t0))))).
Proof.
  intros t0 sched; unfold exec. rewrite norm_pipeline, machine_eta.
  rewrite run_pstate by apply wf_pinit. reflexivity.
Qed.

End PipelineRefinement.

(** With a throwing first [this.log], [load] throws at once: the caller
    sees the attempted log call and the exception, nothing else. *)
Lemma exec_pipeline_throw : forall L so t0 sched, log_throws L = true ->
  exec t0 (pipeline L so) sched
  = ([([], start_log); ([], EThrow log_type_error)],
     {| m_main := Settle (Rejected log_type_error); m_pool := [] |}).
Proof.
  intros L so t0 sched Hlw; unfold exec, pipeline, load.
  unfold log_throws in Hlw.
  destruct (useLogger L), (logWindow L); try discriminate.
  cbn [fold_right norm wrap app]. rewrite run_idle by reflexivity. reflexivity.
Qed.

Lemma trace_pipeline_throw : forall L so t0 sched, log_throws L = true ->
  trace_of t0 (pipeline L so) sched = [([], start_log); ([], EThrow log_type_error)].
Proof. intros L so t0 sched Hlw; unfold trace_of; rewrite exec_pipeline_throw by exact Hlw; reflexivity. Qed.

(* ------------------------------------------------------------------ *)
(** ** Lanes of a trace *)

Fixpoint lane_eqb (a b : lane) : bool :=
  match a, b with
  | [], [] => true
  | x :: a', y :: b' => Nat.eqb x y && lane_eqb a' b'
  | _, _ => false
  end.

(** The entries of a trace issued by the chain at lane [l]. *)
Definition lane_events (l : lane) (tr : list (lane * event)) : list (lane * event) :=
  filter (fun x => lane_eqb l (fst x)) tr.

(** The same entries, issued at lane [l]. *)
Definition at_lane (l : lane) (es : list (lane * event)) : list (lane * event) :=
  map (fun x => (l, snd x)) es.

(** [loadScripts] run on its own: its promise ends fulfilled, with [evs]
    as its insertions, firings and progress reports. *)
Definition completes_as (L : ScriptLoader) (b : bool) (s : jsval) (t0 : Z)
    (evs : list event) : Prop :=
  exists sched, observe (trace_of t0 (loadScripts L b s) sched) = evs
    /\ m_main (snd (exec t0 (loadScripts L b s) sched)) = resolved JUndef.

Lemma lane_eqb_eq : forall a b, lane_eqb a b = true <-> a = b.
Proof.
  induction a as [|x a IH]; intros [|y b]; cbn; try (split; congruence).
  rewrite andb_true_iff, Nat.eqb_eq, IH.
  split; [intros [-> ->]; reflexivity | intro H; injection H; auto].
Qed.

Lemma lane_events_app : forall l x y,
  lane_events l (x ++ y) = lane_events l x ++ lane_events l y.
Proof. intros; apply filter_app. Qed.

Lemma lane_events_at_same : forall l es, lane_events l (at_lane l es) = at_lane l es.
Proof.
  intros l es; unfold lane_events, at_lane; induction es as [|x es IH]; [reflexivity|].
  cbn. rewrite (proj2 (lane_eqb_eq l l) eq_refl). f_equal; exact IH.
Qed.

Lemma lane_events_at_other : forall l l' es, l <> l' -> lane_events l (at_lane l' es) = [].
Proof.
  intros l l' es H; unfold lane_events, at_lane; induction es as [|x es IH]; [reflexivity|].
  cbn. destruct (lane_eqb l l') eqn:E; [apply lane_eqb_eq in E; contradiction|exact IH].
Qed.

Lemma observe_at_lane : forall l es, observe (at_lane l es) = observe es.
Proof.
  intros l es; unfold observe, at_lane; rewrite map_map; reflexivity.
Qed.

Lemma at_lane_app : forall l x y, at_lane l (x ++ y) = at_lane l x ++ at_lane l y.
Proof. intros; apply map_app. Qed.

Lemma in_at_lane : forall l es x, In x (at_lane l es) -> fst x = l.
Proof.
  intros l es x H; unfold at_lane in H; apply in_map_iff in H.
  destruct H as (y & <- & _); reflexivity.
Qed.

Lemma genter_at : forall L b s l c f now,
  genter L b s l c f now
  = let '(es, ph) := genter L b s [] c f now in (at_lane l es, ph).
Proof.
  intros L b s l c f now; unfold genter.
  destruct (js_truthy (js_index s c)); [destruct f|]; try reflexivity.
  unfold log_if; destruct (useLogger L); reflexivity.
Qed.

Lemma gstep_at : forall L b s l c f st o,
  gstep L b s l c f st o
  = let '(es, ph) := gstep L b s [] c f st o in (at_lane l es, ph).
Proof.
  intros L b s l c f st o; unfold gstep.
  destruct (onload o); [|reflexivity].
  destruct (Nat.leb (js_length s) (c + 1)).
  - unfold at_lane, log_if; destruct (useLogger L); reflexivity.
  - rewrite (genter_at L b s l (c + 1) f (at_time o)).
    destruct (genter L b s [] (c + 1) f (at_time o)) as [es2 ph].
    unfold at_lane, log_if; destruct (useLogger L); cbn; rewrite ?map_app; reflexivity.
Qed.

Lemma grun_at : forall L b s l ph sched,
  grun L b s l ph sched
  = let '(es, ph') := grun L b s [] ph sched in (at_lane l es, ph').
Proof.
  intros L b s l ph sched; revert ph.
  induction sched as [|[n o] sched IH]; intro ph; [reflexivity|].
  cbn [grun]. destruct ph as [c f st| |e]; [destruct n|..]; try apply IH.
  rewrite gstep_at. destruct (gstep L b s [] c f st o) as [es ph'].
  rewrite IH. destruct (grun L b s [] ph' sched) as [es' ph''].
  rewrite at_lane_app; reflexivity.
Qed.

Lemma glog_events_at : forall L b l ph,
  glog_events L b l ph = at_lane l (glog_events L b [] ph).
Proof.
  intros L b l [c f st| |e]; try reflexivity.
  unfold glog_events, log_if; destruct (useLogger L); reflexivity.
Qed.

Lemma genter_no_fire : forall L b s l c f now src x,
  ~ In (EFire src x) (map snd (fst (genter L b s l c f now))).
Proof.
  intros L b s l c f now src x H; unfold genter in H.
  destruct (js_truthy (js_index s c)); [destruct f|]; cbn in H; try contradiction.
  no_fail H.
Qed.

(** A group whose run ends fulfilled saw no failed firing. *)
Lemma grun_done_no_fail : forall L b s l ph sched src,
  snd (grun L b s l ph sched) = GDone ->
  ~ In (EFire src false) (map snd (fst (grun L b s l ph sched))).
Proof.
  intros L b s l ph sched src; revert ph.
  induction sched as [|[n o] sched IH]; intros ph Hd H; [exact H|].
  cbn [grun] in Hd, H. destruct ph as [c f st| |e]; [destruct n|..]; try (eapply IH; eassumption).
  unfold gstep in Hd, H. destruct (onload o) eqn:Ho.
  - destruct (Nat.leb (js_length s) (c + 1)).
    + rewrite grun_settled in Hd, H by exact I. cbn [fst snd] in Hd, H.
      rewrite app_nil_r in H. no_fail H.
    + destruct (genter L b s l (c + 1) f (at_time o)) as [es2 ph2] eqn:Hg.
      destruct (grun L b s l ph2 sched) as [es' ph''] eqn:Hr. cbn [fst snd] in Hd, H.
      rewrite !map_app, !in_app_iff in H.
      destruct H as [[H|H]|H].
      * no_fail H.
      * apply (genter_no_fire L b s l (c + 1) f (at_time o) src false). rewrite Hg; exact H.
      * apply (IH ph2); rewrite Hr; assumption.
  - rewrite grun_settled in Hd by exact I. discriminate.
Qed.

Lemma observe_glog_events : forall L b l ph, observe (glog_events L b l ph) = [].
Proof.
  intros L b l [c f st| |e]; try reflexivity.
  unfold glog_events, log_if; destruct (useLogger L), b; reflexivity.
Qed.

Section Gating.
Variable L : ScriptLoader.
Variable so : scriptObject.

Lemma gstep'_at : forall b s l ph o,
  gstep' L b s l ph o = let '(es, ph') := gstep' L b s [] ph o in (at_lane l es, ph').
Proof.
  intros b s l [c f st| |e] o; try reflexivity. cbn [gstep'].
  rewrite gstep_at. destruct (gstep L b s [] c f st o) as [es ph'].
  rewrite glog_events_at, at_lane_app; reflexivity.
Qed.

(** A group's turn seen from the group alone. *)
Lemma gstep'_solo : forall b s l c f st o esg ph',
  gstep' L b s l (GRunning c f st) o = (esg, ph') ->
  exists eg, gstep L b s [] c f st o = (eg, ph') /\ esg = at_lane l (eg ++ glog_events L b [] ph').
Proof.
  intros b s l c f st o esg ph' H. rewrite gstep'_at in H. cbn [gstep'] in H.
  destruct (gstep L b s [] c f st o) as [eg ph1]. injection H as <- <-.
  exists eg; split; reflexivity.
Qed.

Lemma dlane_not_main : dlane so <> [2].
Proof. unfold dlane; destruct (reqS so); discriminate. Qed.

Lemma dlane_static : reqS so = true -> dlane so = [1; 0].
Proof. unfold dlane; intros ->; reflexivity. Qed.

Lemma settle_PRun : forall ps pd now es a b,
  settle_state L so ps pd now = (es, PRun a b) -> es = [] /\ a = ps /\ b = pd.
Proof.
  intros ps pd now es a b H.
  destruct ps as [c f st| |e], pd as [c' f' st'| |e']; cbn in H; try discriminate;
    injection H as <- <- <-; auto.
Qed.

Lemma settle_PFail : forall ps pd now es e sl ph,
  settle_state L so ps pd now = (es, PFail e sl ph) -> es = [([], ESettled (Rejected e))].
Proof.
  intros ps pd now es e sl ph H.
  destruct ps as [c f st| |e1], pd as [c' f' st'| |e2]; cbn in H; try discriminate;
    injection H as <- <- _ _; reflexivity.
Qed.

Lemma settle_POk : forall ps pd now es p,
  settle_state L so ps pd now = (es, POk p) ->
  ps = GDone /\ pd = GDone /\ es = start_main L so now
  /\ p = (if js_truthy (main so) then Some now else None).
Proof.
  intros ps pd now es p H.
  destruct ps as [c f st| |e1], pd as [c' f' st'| |e2]; cbn in H; try discriminate.
  injection H as <- <-; auto.
Qed.

Lemma start_main_lanes : forall now x, In x (start_main L so now) -> fst x = [] \/ fst x = [2].
Proof.
  intros now x H; unfold start_main, log_if in H.
  destruct (js_truthy (main so)), (useLogger L); cbn in H; intuition (subst; auto).
Qed.

Lemma prun_POk_lanes : forall sched p x, In x (fst (prun L so sched (POk p))) -> fst x = [2].
Proof.
  induction sched as [|[n o] sched IH]; intros p x H; [destruct H|].
  cbn [prun] in H. destruct p as [t|]; [destruct n|]; try (eapply IH; exact H).
  cbn [pstep] in H. destruct (prun L so sched (POk None)) as [es' st''] eqn:Hr.
  cbn [fst] in H. apply in_app_iff in H. destruct H as [H|H].
  - unfold main_fire, log_if in H.
    destruct (onload o), (useLogger L); cbn in H; intuition (subst; reflexivity).
  - apply (IH None). rewrite Hr; exact H.
Qed.

Lemma prun_PFail_lanes : forall sched e sl ph x,
  In x (fst (prun L so sched (PFail e sl ph))) -> fst x = (if sl then [0] else [1; 0]).
Proof.
  induction sched as [|[n o] sched IH]; intros e sl ph x H; [destruct H|].
  cbn [prun pstep] in H. destruct ph as [c f st| |e']; [destruct n|..]; try (eapply IH; exact H).
  rewrite gstep'_at in H.
  destruct (gstep' L sl _ [] (GRunning c f st) o) as [es ph'].
  destruct (prun L so sched (PFail e sl ph')) as [es' st''] eqn:Hr.
  cbn [fst] in H. apply in_app_iff in H. destruct H as [H|H].
  - apply in_at_lane in H; destruct sl; exact H.
  - apply (IH e sl ph'). rewrite Hr; exact H.
Qed.

Lemma pstep_PRun_inv : forall ps pd n o es st',
  pstep L so (PRun ps pd) n o = Some (es, st') ->
  exists esg es2 ps' pd', es = esg ++ es2 /\ settle_state L so ps' pd' (at_time o) = (es2, st')
    /\ ((is_running ps = true /\ gstep' L true (statics so) [0] ps o = (esg, ps') /\ pd' = pd)
        \/ (is_running pd = true /\ gstep' L false (dynamics so) (dlane so) pd o = (esg, pd')
            /\ ps' = ps)).
Proof.
  intros ps pd n o es st' H. cbn [pstep] in H.
  destruct (is_running ps) eqn:Hps; [destruct n as [|n]|].
  - destruct (gstep' L true (statics so) [0] ps o) as [esg ps'] eqn:Hg.
    destruct (settle_state L so ps' pd (at_time o)) as [es2 st2] eqn:Hs.
    injection H as <- <-. exists esg, es2, ps', pd.
    split; [reflexivity|]; split; [exact Hs|]; left; auto.
  - unfold dyn_step in H. destruct pd as [c f st| |e]; try discriminate.
    destruct n; try discriminate.
    destruct (gstep' L false (dynamics so) (dlane so) (GRunning c f st) o) as [esg pd'] eqn:Hg.
    destruct (settle_state L so ps pd' (at_time o)) as [es2 st2] eqn:Hs.
    injection H as <- <-. exists esg, es2, ps, pd'.
    split; [reflexivity|]; split; [exact Hs|]; right; auto.
  - unfold dyn_step in H. destruct pd as [c f st| |e]; try discriminate.
    destruct n; try discriminate.
    destruct (gstep' L false (dynamics so) (dlane so) (GRunning c f st) o) as [esg pd'] eqn:Hg.
    destruct (settle_state L so ps pd' (at_time o)) as [es2 st2] eqn:Hs.
    injection H as <- <-. exists esg, es2, ps, pd'.
    split; [reflexivity|]; split; [exact Hs|]; right; auto.
Qed.

(** While the groups run, the main chain is silent; once it speaks, each
    requested group has run to fulfilment on its own lane. *)
Lemma gate_shape : forall sched ps pd, wf so (PRun ps pd) ->
  ((forall e, ~ In ([2], e) (fst (prun L so sched (PRun ps pd))))
   /\ (forall v, ~ In ([], ESettled (Fulfilled v)) (fst (prun L so sched (PRun ps pd))))) \/
  exists A B sS sD, fst (prun L so sched (PRun ps pd)) = A ++ B
    /\ (forall e, ~ In ([2], e) A)
    /\ (forall x, In x B -> fst x = [] \/ fst x = [2])
    /\ (reqS so = true -> snd (grun L true (statics so) [] ps sS) = GDone
          /\ observe (lane_events [0] A) = observe (fst (grun L true (statics so) [] ps sS)))
    /\ (reqD so = true -> snd (grun L false (dynamics so) [] pd sD) = GDone
          /\ observe (lane_events (dlane so) A)
             = observe (fst (grun L false (dynamics so) [] pd sD)))
    /\ (exists now sched', B = start_main L so now
          ++ fst (prun L so sched' (POk (if js_truthy (main so) then Some now else None))))
    /\ (forall e, ~ In ([], e) A).
Proof.
  induction sched as [|[n o] sched IH]; intros ps pd Hwf.
  { left; split; intros e H; exact H. }
  cbn [prun]. destruct (pstep L so (PRun ps pd) n o) as [[es st']|] eqn:Hp.
  2: { apply IH; exact Hwf. }
  pose proof (wf_pstep L so _ n o es st' Hwf Hp) as Hwf'.
  destruct Hwf as (HS0 & HD0 & _ & _ & _).
  apply pstep_PRun_inv in Hp. destruct Hp as (esg & es2 & ps' & pd' & -> & Hs & Hside).
  destruct (prun L so sched st') as [es' st''] eqn:Hr. cbn [fst].
  (* the group side that fired, seen on its own *)
  assert (Hg : exists eg,
    (is_running ps = true /\ reqS so = true /\ esg = at_lane [0] (eg ++ glog_events L true [] ps')
       /\ pd' = pd
       /\ forall sS, grun L true (statics so) [] ps ((0, o) :: sS)
                     = let '(es1, ph1) := grun L true (statics so) [] ps' sS in (eg ++ es1, ph1))
    \/ (is_running pd = true /\ reqD so = true
       /\ esg = at_lane (dlane so) (eg ++ glog_events L false [] pd') /\ ps' = ps
       /\ forall sD, grun L false (dynamics so) [] pd ((0, o) :: sD)
                     = let '(es1, ph1) := grun L false (dynamics so) [] pd' sD in (eg ++ es1, ph1))).
  { destruct Hside as [(Hrun & Hgs & ->)|(Hrun & Hgs & ->)].
    - destruct ps as [c f st| |e]; try discriminate.
      destruct (gstep'_solo _ _ _ _ _ _ _ _ _ Hgs) as (eg & Hg1 & ->).
      exists eg; left. repeat split; auto.
      + destruct (reqS so) eqn:E; [reflexivity|]. specialize (HS0 eq_refl); discriminate.
      + intro sS; cbn [grun]; rewrite Hg1; reflexivity.
    - destruct pd as [c f st| |e]; try discriminate.
      destruct (gstep'_solo _ _ _ _ _ _ _ _ _ Hgs) as (eg & Hg1 & ->).
      exists eg; right. repeat split; auto.
      + destruct (reqD so) eqn:E; [reflexivity|]. specialize (HD0 eq_refl); discriminate.
      + intro sD; cbn [grun]; rewrite Hg1; reflexivity. }
  assert (Hesg : forall e, ~ In ([2], e) esg).
  { intros e0 H. destruct Hg as (eg & [(_ & _ & -> & _)|(_ & _ & -> & _)]);
      apply in_at_lane in H; cbn in H; [discriminate|]. symmetry in H; exact (dlane_not_main H). }
  assert (Hesg0 : forall e, ~ In ([], e) esg).
  { intros e0 H. destruct Hg as (eg & [(_ & _ & -> & _)|(_ & _ & -> & _)]);
      apply in_at_lane in H; [discriminate|]. unfold dlane in H; destruct (reqS so); discriminate. }
  destruct st' as [a b'|e sl ph|p].
  - (* still running *)
    apply settle_PRun in Hs as (-> & -> & ->).
    destruct (IH ps' pd' Hwf') as [[Hl Hl0]|(A & B & sS & sD & HAB & HA & HB & HSg & HDg & HBf & HA0)];
      rewrite Hr in *; cbn [fst] in *.
    + left. split.
      * intros e0 H. rewrite app_nil_r, in_app_iff in H.
        destruct H as [H|H]; [exact (Hesg e0 H)|exact (Hl e0 H)].
      * intros v H. rewrite app_nil_r, in_app_iff in H.
        destruct H as [H|H]; [exact (Hesg0 _ H)|exact (Hl0 v H)].
    + right. destruct Hg as (eg & [(Hrun & HSt & -> & -> & Hgr)|(Hrun & HDt & -> & -> & Hgr)]).
      * exists (at_lane [0] (eg ++ glog_events L true [] ps') ++ A), B, ((0, o) :: sS), sD.
        refine (conj _ (conj _ (conj HB (conj _ (conj _ (conj HBf _)))))).
        -- rewrite app_nil_r, <- app_assoc, HAB; reflexivity.
        -- intros e0 H. apply in_app_iff in H. destruct H as [H|H]; [|exact (HA e0 H)].
           apply in_at_lane in H; discriminate.
        -- intros _. rewrite Hgr. destruct (HSg HSt) as [HS1 HS2].
           destruct (grun L true (statics so) [] ps' sS) as [es1 ph1]. cbn [fst snd] in *.
           split; [exact HS1|].
           rewrite lane_events_app, lane_events_at_same, observe_app, observe_at_lane, HS2.
           rewrite observe_app, observe_glog_events, observe_app, app_nil_r; reflexivity.
        -- intro HDt. destruct (HDg HDt) as [HD1 HD2]. split; [exact HD1|].
           rewrite lane_events_app, lane_events_at_other; [cbn [app]; exact HD2|].
           rewrite (dlane_static HSt); discriminate.
        -- intros e0 H. apply in_app_iff in H.
           destruct H as [H|H]; [exact (Hesg0 e0 H)|exact (HA0 e0 H)].
      * exists (at_lane (dlane so) (eg ++ glog_events L false [] pd') ++ A), B, sS, ((0, o) :: sD).
        refine (conj _ (conj _ (conj HB (conj _ (conj _ (conj HBf _)))))).
        -- rewrite app_nil_r, <- app_assoc, HAB; reflexivity.
        -- intros e0 H. apply in_app_iff in H. destruct H as [H|H]; [|exact (HA e0 H)].
           apply in_at_lane in H. symmetry in H; exact (dlane_not_main H).
        -- intro HSt. destruct (HSg HSt) as [HS1 HS2]. split; [exact HS1|].
           rewrite lane_events_app, lane_events_at_other; [cbn [app]; exact HS2|].
           rewrite (dlane_static HSt); discriminate.
        -- intros _. rewrite Hgr. destruct (HDg HDt) as [HD1 HD2].
           destruct (grun L false (dynamics so) [] pd' sD) as [es1 ph1]. cbn [fst snd] in *.
           split; [exact HD1|].
           rewrite lane_events_app, lane_events_at_same, observe_app, observe_at_lane, HD2.
           rewrite observe_app, observe_glog_events, observe_app, app_nil_r; reflexivity.
        -- intros e0 H. apply in_app_iff in H.
           destruct H as [H|H]; [exact (Hesg0 e0 H)|exact (HA0 e0 H)].
  - (* a group failed *)
    apply settle_PFail in Hs as ->. left. split.
    + intros e0 H. rewrite !in_app_iff in H. destruct H as [[H|[H|[]]]|H].
      * exact (Hesg e0 H).
      * discriminate.
      * assert (H2 := prun_PFail_lanes sched e sl ph ([2], e0)). rewrite Hr in H2.
        specialize (H2 H). destruct sl; discriminate.
    + intros v H. rewrite !in_app_iff in H. destruct H as [[H|[H|[]]]|H].
      * exact (Hesg0 _ H).
      * discriminate.
      * assert (H2 := prun_PFail_lanes sched e sl ph ([], ESettled (Fulfilled v))). rewrite Hr in H2.
        specialize (H2 H). destruct sl; discriminate.
  - (* both groups fulfilled: the main chain starts *)
    apply settle_POk in Hs as (-> & -> & -> & ->).
    right. exists esg, (start_main L so (at_time o) ++ es').
    destruct Hg as (eg & [(Hrun & HSt & -> & Hpd & Hgr)|(Hrun & HDt & -> & Hps & Hgr)]).
    + exists [(0, o)], []. refine (conj (eq_sym (app_assoc _ _ _)) (conj Hesg (conj _ (conj _ (conj _ _))))).
      * intros x H. apply in_app_iff in H. destruct H as [H|H].
        -- exact (start_main_lanes _ x H).
        -- right. assert (H2 := prun_POk_lanes sched
             (if js_truthy (main so) then Some (at_time o) else None) x).
           rewrite Hr in H2. exact (H2 H).
      * intros _. rewrite Hgr. cbn [grun fst snd]. split; [reflexivity|].
        rewrite lane_events_at_same, observe_at_lane, observe_app, observe_glog_events, !app_nil_r.
        reflexivity.
      * intros _. rewrite <- Hpd. split; [reflexivity|].
        rewrite lane_events_at_other; [reflexivity|].
        rewrite (dlane_static HSt); discriminate.
      * split; [exists (at_time o), sched; rewrite Hr; reflexivity|exact Hesg0].
    + exists [], [(0, o)]. refine (conj (eq_sym (app_assoc _ _ _)) (conj Hesg (conj _ (conj _ (conj _ _))))).
      * intros x H. apply in_app_iff in H. destruct H as [H|H].
        -- exact (start_main_lanes _ x H).
        -- right. assert (H2 := prun_POk_lanes sched
             (if js_truthy (main so) then Some (at_time o) else None) x).
           rewrite Hr in H2. exact (H2 H).
      * intro HSt. rewrite <- Hps. split; [reflexivity|].
        rewrite lane_events_at_other; [reflexivity|].
        rewrite (dlane_static HSt); discriminate.
      * intros _. rewrite Hgr. cbn [grun fst snd]. split; [reflexivity|].
        rewrite lane_events_at_same, observe_at_lane, observe_app, observe_glog_events, !app_nil_r.
        reflexivity.
      * split; [exists (at_time o), sched; rewrite Hr; reflexivity|exact Hesg0].
Qed.

Lemma group_init_at : forall b s l now,
  group_init L b s l now = let '(es, ph) := group_init L b s [] now in (at_lane l es, ph).
Proof.
  intros b s l now; unfold group_init. rewrite genter_at.
  destruct (genter L b s [] 0 (js_length s) now) as [es ph].
  rewrite glog_events_at. unfold at_lane, log_if; destruct (useLogger L); cbn;
    rewrite ?map_app; reflexivity.
Qed.

Lemma solo_completes : forall b s t0 es0 ph0 sS, log_throws L = false ->
  group_init L b s [] t0 = (es0, ph0) -> snd (grun L b s [] ph0 sS) = GDone ->
  completes_as L b s t0 (observe es0 ++ observe (fst (grun L b s [] ph0 sS))).
Proof.
  intros b s t0 es0 ph0 sS Hlw H Hd. exists sS. unfold trace_of; rewrite exec_loadScripts by exact Hlw.
  unfold group_init in H. destruct (genter L b s [] 0 (js_length s) t0) as [es ph].
  injection H as <- <-. destruct (grun L b s [] ph sS) as [es' ph']. cbn [fst snd] in *.
  subst ph'. split; [|reflexivity].
  assert (Hg : observe (log_if (useLogger L) [] (EConsole "groupCollapsed" (JStr "Load Progress")))
               = []) by (unfold log_if; destruct (useLogger L); reflexivity).
  rewrite !observe_app, observe_glog_events, Hg, app_nil_r; reflexivity.
Qed.

Lemma lane_events_log_if : forall lg l l' e, l <> l' -> lane_events l (log_if lg l' e) = [].
Proof.
  intros lg l l' e H; unfold log_if; destruct lg; [|reflexivity].
  exact (lane_events_at_other l l' [(l', e)] H).
Qed.

(** The first turn of [load] followed by the schedule, with the groups
    started in [eS] and [eD]. *)
Lemma gate_from : log_throws L = false -> forall t0 sched eS ps eD pd e3 st,
  (reqS so = true -> group_init L true (statics so) [0] t0 = (eS, ps)) ->
  (reqS so = false -> eS = [] /\ ps = GDone) ->
  (reqD so = true -> group_init L false (dynamics so) (dlane so) t0 = (eD, pd)) ->
  (reqD so = false -> eD = [] /\ pd = GDone) ->
  settle_state L so ps pd t0 = (e3, st) ->
  let tr := (log_if (useLogger L) [] start_log ++ eS ++ eD ++ e3) ++ fst (prun L so sched st) in
  ((forall e, ~ In ([2], e) tr) /\ (forall v, ~ In ([], ESettled (Fulfilled v)) tr)) \/
  exists A B, tr = A ++ B
    /\ (forall e, ~ In ([2], e) A)
    /\ (forall x, In x B -> fst x = [] \/ fst x = [2])
    /\ (reqS so = true -> completes_as L true (statics so) t0 (observe (lane_events [0] A)))
    /\ (reqD so = true ->
         completes_as L false (dynamics so) t0 (observe (lane_events (dlane so) A)))
    /\ (exists now sched', B = start_main L so now
          ++ fst (prun L so sched' (POk (if js_truthy (main so) then Some now else None))))
    /\ (forall e, In ([], e) A -> e = start_log).
Proof.
  intros Hlw t0 sched eS ps eD pd e3 st HS1 HS0 HD1 HD0 Hs tr.
  (* the two group starts, seen on their own *)
  assert (HeS : exists esS, eS = at_lane [0] esS
            /\ (reqS so = true -> group_init L true (statics so) [] t0 = (esS, ps))).
  { destruct (reqS so) eqn:E.
    - specialize (HS1 eq_refl). rewrite group_init_at in HS1.
      destruct (group_init L true (statics so) [] t0) as [esS ph]. injection HS1 as <- <-.
      exists esS; auto.
    - destruct (HS0 eq_refl) as [-> ->]. exists []; split; [reflexivity|discriminate]. }
  assert (HeD : exists esD, eD = at_lane (dlane so) esD
            /\ (reqD so = true -> group_init L false (dynamics so) [] t0 = (esD, pd))).
  { destruct (reqD so) eqn:E.
    - specialize (HD1 eq_refl). rewrite group_init_at in HD1.
      destruct (group_init L false (dynamics so) [] t0) as [esD ph]. injection HD1 as <- <-.
      exists esD; auto.
    - destruct (HD0 eq_refl) as [-> ->]. exists []; split; [reflexivity|discriminate]. }
  destruct HeS as (esS & -> & HgS), HeD as (esD & -> & HgD).
  assert (Hpre : forall e, ~ In ([2], e)
            (log_if (useLogger L) [] start_log ++ at_lane [0] esS ++ at_lane (dlane so) esD)).
  { intros e H. rewrite !in_app_iff in H. destruct H as [H|[H|H]].
    - unfold log_if in H; destruct (useLogger L); cbn in H; intuition discriminate.
    - apply in_at_lane in H; discriminate.
    - apply in_at_lane in H. symmetry in H; exact (dlane_not_main H). }
  assert (Hpre0 : reqS so = true -> observe (lane_events [0]
            (log_if (useLogger L) [] start_log ++ at_lane [0] esS ++ at_lane (dlane so) esD))
            = observe esS).
  { intro E. rewrite !lane_events_app, lane_events_log_if by discriminate.
    rewrite lane_events_at_same, lane_events_at_other by (rewrite (dlane_static E); discriminate).
    cbn [app]; rewrite app_nil_r, observe_at_lane; reflexivity. }
  assert (Hpre1 : observe (lane_events (dlane so)
            (log_if (useLogger L) [] start_log ++ at_lane [0] esS ++ at_lane (dlane so) esD))
            = observe esD).
  { rewrite !lane_events_app, lane_events_log_if
      by (unfold dlane; destruct (reqS so); discriminate).
    rewrite (lane_events_at_same (dlane so)).
    destruct (reqS so) eqn:E.
    - rewrite lane_events_at_other by (rewrite (dlane_static E); discriminate).
      cbn [app]; rewrite observe_at_lane; reflexivity.
    - destruct (HS0 eq_refl) as [Hn _]. destruct esS; [|discriminate].
      cbn [app at_lane map lane_events filter]; rewrite observe_at_lane; reflexivity. }
  assert (Hlane0 : forall e, In ([], e)
            (log_if (useLogger L) [] start_log ++ at_lane [0] esS ++ at_lane (dlane so) esD) ->
            e = start_log).
  { intros e H. rewrite !in_app_iff in H. destruct H as [H|[H|H]].
    - unfold log_if in H; destruct (useLogger L); cbn in H;
        [destruct H as [H|[]]; congruence|contradiction].
    - apply in_at_lane in H; discriminate.
    - apply in_at_lane in H. unfold dlane in H; destruct (reqS so); discriminate. }
  assert (Hset0 : forall v, ~ In ([], ESettled (Fulfilled v))
            (log_if (useLogger L) [] start_log ++ at_lane [0] esS ++ at_lane (dlane so) esD)).
  { intros v H. apply Hlane0 in H. unfold start_log in H; discriminate. }
  unfold tr; clear tr. destruct st as [a b|e sl ph|p].
  - (* the groups run on *)
    assert (Hwf : wf so (PRun a b)).
    { replace (PRun a b) with (snd (settle_state L so ps pd t0)) by (rewrite Hs; reflexivity).
      apply wf_settle_state; intro E; [exact (proj2 (HS0 E))|exact (proj2 (HD0 E))]. }
    apply settle_PRun in Hs as (-> & -> & ->).
    destruct (gate_shape sched ps pd Hwf)
      as [[Hl Hl0]|(A & B & sS & sD & HAB & HA & HB & HSg & HDg & HBf & HA0)].
    + left. split.
      * intros e H. rewrite app_nil_r, !app_assoc, in_app_iff in H.
        destruct H as [H|H]; [rewrite <- !app_assoc in H; exact (Hpre e H)|exact (Hl e H)].
      * intros v H. rewrite app_nil_r, !app_assoc, in_app_iff in H.
        destruct H as [H|H]; [rewrite <- !app_assoc in H; exact (Hset0 v H)|exact (Hl0 v H)].
    + right. exists ((log_if (useLogger L) [] start_log ++ at_lane [0] esS ++ at_lane (dlane so) esD) ++ A), B.
      refine (conj _ (conj _ (conj HB (conj _ (conj _ (conj HBf _)))))).
      * rewrite HAB, app_nil_r, !app_assoc; reflexivity.
      * intros e H. apply in_app_iff in H. destruct H as [H|H]; [exact (Hpre e H)|exact (HA e H)].
      * intro E. destruct (HSg E) as [HS2 HS3].
        rewrite lane_events_app, observe_app, (Hpre0 E), HS3.
        exact (solo_completes _ _ _ _ _ sS Hlw (HgS E) HS2).
      * intro E. destruct (HDg E) as [HD2 HD3].
        rewrite lane_events_app, observe_app, Hpre1, HD3.
        exact (solo_completes _ _ _ _ _ sD Hlw (HgD E) HD2).
      * intros e H. apply in_app_iff in H.
        destruct H as [H|H]; [exact (Hlane0 e H)|exfalso; exact (HA0 e H)].
  - (* a group failed at once *)
    apply settle_PFail in Hs as ->. left. split.
    + intros e0 H.
      rewrite in_app_iff, !app_assoc, in_app_iff in H. destruct H as [[H|[H|[]]]|H].
      * rewrite <- !app_assoc in H; exact (Hpre e0 H).
      * discriminate.
      * assert (H2 := prun_PFail_lanes sched e sl ph ([2], e0) H). destruct sl; discriminate.
    + intros v H.
      rewrite in_app_iff, !app_assoc, in_app_iff in H. destruct H as [[H|[H|[]]]|H].
      * rewrite <- !app_assoc in H; exact (Hset0 v H).
      * discriminate.
      * assert (H2 := prun_PFail_lanes sched e sl ph _ H). destruct sl; discriminate.
  - (* both groups fulfilled in the first turn *)
    apply settle_POk in Hs as (-> & -> & -> & ->).
    right. exists (log_if (useLogger L) [] start_log ++ at_lane [0] esS ++ at_lane (dlane so) esD),
      (start_main L so t0 ++ fst (prun L so sched
                                   (POk (if js_truthy (main so) then Some t0 else None)))).
    refine (conj _ (conj Hpre (conj _ (conj _ (conj _ _))))).
    + rewrite <- !app_assoc; reflexivity.
    + intros x H. apply in_app_iff in H. destruct H as [H|H].
      * exact (start_main_lanes _ x H).
      * right; exact (prun_POk_lanes sched _ x H).
    + intro E. rewrite (Hpre0 E). rewrite <- (app_nil_r (observe esS)).
      exact (solo_completes _ _ _ _ _ [] Hlw (HgS E) eq_refl).
    + intro E. rewrite Hpre1. rewrite <- (app_nil_r (observe esD)).
      exact (solo_completes _ _ _ _ _ [] Hlw (HgD E) eq_refl).
    + split; [exists t0, sched; reflexivity|exact Hlane0].
Qed.

(** The main chain of [load], against its two groups. *)
Lemma pipeline_gate : forall t0 sched,
  let tr := trace_of t0 (pipeline L so) sched in
  ((forall e, ~ In ([2], e) tr) /\ (forall v, ~ In ([], ESettled (Fulfilled v)) tr)) \/
  exists A B, tr = A ++ B
    /\ (forall e, ~ In ([2], e) A)
    /\ (forall x, In x B -> fst x = [] \/ fst x = [2])
    /\ (reqS so = true -> completes_as L true (statics so) t0 (observe (lane_events [0] A)))
    /\ (reqD so = true ->
         completes_as L false (dynamics so) t0 (observe (lane_events (dlane so) A)))
    /\ (exists now sched', B = start_main L so now
          ++ fst (prun L so sched' (POk (if js_truthy (main so) then Some now else None))))
    /\ (forall e, In ([], e) A -> e = start_log).
Proof.
  intros t0 sched tr; unfold tr.
  destruct (log_throws L) eqn:Hlw.
  { left. rewrite trace_pipeline_throw by exact Hlw.
    split; intros e H; cbn [In] in H; intuition discriminate. }
  unfold trace_of; rewrite exec_pipeline by exact Hlw; cbn [fst]; unfold pinit.
  destruct (if reqS so then group_init L true (statics so) [0] t0 else ([], GDone))
    as [eS ps] eqn:GS.
  destruct (if reqD so then group_init L false (dynamics so) (dlane so) t0 else ([], GDone))
    as [eD pd] eqn:GD.
  destruct (settle_state L so ps pd t0) as [e3 st] eqn:Hs; cbn [fst snd].
  apply (gate_from Hlw t0 sched eS ps eD pd e3 st); try exact Hs; intro E;
    rewrite E in *; first [exact GS | exact GD | injection GS; auto | injection GD; auto].
Qed.

End Gating.

Lemma split_before : forall {A : Type} (x : A) pre post P Q,
  pre ++ x :: post = P ++ Q -> ~ In x P ->
  exists Q1, pre = P ++ Q1 /\ (forall y, In y Q1 -> In y Q).
Proof.
  intros A x pre post P; revert pre.
  induction P as [|a P IH]; intros pre Q H Hn.
  - exists pre; split; [reflexivity|]. intros y Hy; cbn in H; rewrite <- H; apply in_or_app; now left.
  - destruct pre as [|p pre]; cbn in H; injection H as Hx H.
    + subst; exfalso; apply Hn; now left.
    + destruct (IH pre Q H (fun h => Hn (or_intror h))) as (Q1 & -> & HQ).
      exists Q1; split; [subst; reflexivity|exact HQ].
Qed.

Lemma lane_events_none : forall l tr,
  (forall x, In x tr -> fst x <> l) -> lane_events l tr = [].
Proof.
  intros l tr H; unfold lane_events; induction tr as [|x tr IH]; [reflexivity|].
  cbn. destruct (lane_eqb l (fst x)) eqn:E.
  - apply lane_eqb_eq in E. exfalso; apply (H x); [now left|auto].
  - apply IH; intros y Hy; apply H; now right.
Qed.

Lemma in_lane_events : forall l e tr, In (l, e) tr -> In (l, e) (lane_events l tr).
Proof.
  intros l e tr H; unfold lane_events; apply filter_In; split; [exact H|].
  apply lane_eqb_eq; reflexivity.
Qed.

Lemma in_observe : forall e tr, In e (observe tr) -> In e (map snd tr).
Proof. intros e tr H; unfold observe in H; apply filter_In in H; apply H. Qed.

(** A group that completes saw no failed firing. *)
Lemma completes_no_fail : forall L b s t0 evs src,
  completes_as L b s t0 evs -> ~ In (EFire src false) evs.
Proof.
  intros L b s t0 evs src (sched & <- & Hm) H.
  apply in_observe in H. unfold trace_of in H.
  destruct (log_throws L) eqn:Hlw.
  { rewrite exec_loadScripts_throw in H by exact Hlw.
    destruct (js_truthy (js_index s 0) && Nat.ltb 0 (js_length s));
      cbn [fst map snd In] in H; intuition discriminate. }
  rewrite exec_loadScripts in H, Hm by exact Hlw.
  destruct (genter L b s [] 0 (js_length s) t0) as [es ph] eqn:Hg.
  destruct (grun L b s [] ph sched) as [es' ph'] eqn:Hr.
  cbn [fst snd m_main] in H, Hm.
  assert (Hd : ph' = GDone).
  { destruct ph'; [discriminate Hm|reflexivity|discriminate Hm]. }
  rewrite !map_app, !in_app_iff in H. destruct H as [H|[H|H]].
  - unfold log_if in H; destruct (useLogger L); cbn in H; intuition discriminate.
  - apply (genter_no_fire L b s [] 0 (js_length s) t0 src false); rewrite Hg; exact H.
  - apply (grun_done_no_fail L b s [] ph sched src); rewrite Hr; assumption.
Qed.

Lemma in_observe_intro : forall l e tr,
  In (l, e) tr -> is_group_event e = true -> In e (observe tr).
Proof.
  intros l e tr H He; unfold observe; apply filter_In; split; [|exact He].
  apply in_map_iff; exists (l, e); split; [reflexivity|exact H].
Qed.

(* ------------------------------------------------------------------ *)
(** ** The finish signal *)

Definition is_end (e : event) : bool := match e with EEndTime _ => true | _ => false end.

(** How many times [this.finish()] ran: each run sets [endTime]. *)
Definition finish_count (tr : list (lane * event)) : nat :=
  length (filter (fun x => is_end (snd x)) tr).

Lemma finish_count_app : forall x y, finish_count (x ++ y) = finish_count x + finish_count y.
Proof. intros x y; unfold finish_count; rewrite filter_app, length_app; reflexivity. Qed.

Lemma finish_count_none : forall tr,
  (forall l t, ~ In (l, EEndTime t) tr) -> finish_count tr = 0.
Proof.
  induction tr as [|[l e] tr IH]; intro H; [reflexivity|].
  unfold finish_count; cbn.
  destruct e; try (apply IH; intros l' t' H'; apply (H l' t'); now right).
  exfalso; apply (H l t); now left.
Qed.

Section Finish.
Variable L : ScriptLoader.
Variable so : scriptObject.

Lemma genter_no_end : forall b s l c f now t,
  ~ In (EEndTime t) (map snd (fst (genter L b s l c f now))).
Proof.
  intros b s l c f now t H; unfold genter in H.
  destruct (js_truthy (js_index s c)); [destruct f|]; cbn in H; try contradiction.
  no_fail H.
Qed.

Lemma gstep_no_end : forall b s l c f st o t,
  ~ In (EEndTime t) (map snd (fst (gstep L b s l c f st o))).
Proof.
  intros b s l c f st o t H; unfold gstep in H. destruct (onload o).
  - destruct (Nat.leb (js_length s) (c + 1)); [cbn [fst] in H; no_fail H|].
    destruct (genter L b s l (c + 1) f (at_time o)) as [es2 ph2] eqn:Hg. cbn [fst] in H.
    rewrite map_app, in_app_iff in H. destruct H as [H|H]; [no_fail H|].
    apply (genter_no_end b s l (c + 1) f (at_time o) t); rewrite Hg; exact H.
  - cbn [fst] in H; no_fail H.
Qed.

Lemma gstep'_no_end : forall b s l ph o x t, ~ In (x, EEndTime t) (fst (gstep' L b s l ph o)).
Proof.
  intros b s l [c f st| |e] o x t H; cbn [gstep' fst] in H; try contradiction.
  destruct (gstep L b s l c f st o) as [es ph'] eqn:Hg. cbn [fst] in H.
  apply in_app_iff in H. destruct H as [H|H].
  - apply (gstep_no_end b s l c f st o t). rewrite Hg. apply (in_map snd) in H; exact H.
  - unfold glog_events, log_if in H.
    destruct ph', (useLogger L); cbn in H; intuition discriminate.
Qed.

Lemma group_init_no_end : forall b s l' now l t, ~ In (l, EEndTime t) (fst (group_init L b s l' now)).
Proof.
  intros b s l' now l t; unfold group_init.
  destruct (genter L b s l' 0 (js_length s) now) as [es ph] eqn:Hg. cbn [fst]. intro H.
  rewrite !in_app_iff in H. destruct H as [H|[H|H]].
  - unfold log_if in H; destruct (useLogger L); cbn in H; intuition discriminate.
  - apply (genter_no_end b s l' 0 (js_length s) now t). rewrite Hg.
    apply (in_map snd) in H; exact H.
  - unfold glog_events, log_if in H.
    destruct ph, (useLogger L); cbn in H; intuition discriminate.
Qed.

Lemma start_main_no_end : forall now l t, ~ In (l, EEndTime t) (start_main L so now).
Proof.
  intros now l t H; unfold start_main, log_if in H.
  destruct (js_truthy (main so)), (useLogger L); cbn in H; intuition discriminate.
Qed.

Lemma start_main_no_fire : forall now l src b, ~ In (l, EFire src b) (start_main L so now).
Proof.
  intros now l src b H; unfold start_main, log_if in H.
  destruct (js_truthy (main so)), (useLogger L); cbn in H; intuition discriminate.
Qed.

Lemma settle_no_end : forall ps pd now x t, ~ In (x, EEndTime t) (fst (settle_state L so ps pd now)).
Proof.
  intros ps pd now x t H.
  destruct ps as [c f st| |e], pd as [c' f' st'| |e']; cbn [settle_state fst] in H;
    try (cbn in H; intuition discriminate).
  exact (start_main_no_end now x t H).
Qed.

Lemma main_fire_end : forall t o l t',
  In (l, EEndTime t') (main_fire L so t o) -> l = [2] /\ t' = at_time o /\ onload o = true.
Proof.
  intros t o l t' H; unfold main_fire, log_if in H.
  destruct (onload o), (useLogger L); cbn in H; intuition congruence.
Qed.

Lemma main_fire_count : forall t o, finish_count (main_fire L so t o) = if onload o then 1 else 0.
Proof.
  intros t o; unfold main_fire, log_if, finish_count; destruct (onload o), (useLogger L); reflexivity.
Qed.

Lemma main_fire_ok : forall t o,
  In ([2], EFire (script_src L (main so)) true) (main_fire L so t o) <-> onload o = true.
Proof.
  intros t o; split.
  - intro H; unfold main_fire, log_if in H.
    destruct (onload o), (useLogger L); cbn in H; intuition congruence.
  - intro Ho; unfold main_fire; rewrite Ho; now left.
Qed.

Lemma main_fire_finish_log : forall t o, onload o = true -> useLogger L = true ->
  In ([2], ELog "finish" false
             (JNum (seconds_between (match startTime L with Some s => s | None => 0%Z end)
                      (at_time o))))
     (main_fire L so t o).
Proof.
  intros t o Ho Hl; unfold main_fire, log_if; rewrite Ho, Hl; cbn.
  repeat (first [left; reflexivity | right]).
Qed.

Lemma pstep_end : forall st n o es st' l t,
  pstep L so st n o = Some (es, st') -> In (l, EEndTime t) es -> l = [2].
Proof.
  intros [ps pd|e sl ph|[t'|]] n o es st' l t H Hin.
  - apply pstep_PRun_inv in H. destruct H as (esg & es2 & ps' & pd' & -> & Hs & Hside).
    exfalso. apply in_app_iff in Hin. destruct Hin as [Hin|Hin].
    + destruct Hside as [(_ & Hg & _)|(_ & Hg & _)].
      * apply (gstep'_no_end true (statics so) [0] ps o l t); rewrite Hg; exact Hin.
      * apply (gstep'_no_end false (dynamics so) (dlane so) pd o l t); rewrite Hg; exact Hin.
    + apply (settle_no_end ps' pd' (at_time o) l t); rewrite Hs; exact Hin.
  - cbn [pstep] in H. destruct ph as [c f st| |e']; [destruct n|..]; try discriminate.
    pose proof (gstep'_no_end sl (if sl then statics so else dynamics so)
                  (if sl then [0] else [1; 0]) (GRunning c f st) o l t) as G.
    destruct (gstep' L sl _ _ (GRunning c f st) o) as [es1 ph'].
    injection H as <- _. contradiction.
  - destruct n; [|discriminate]. cbn [pstep] in H. injection H as <- _.
    exact (proj1 (main_fire_end t' o l t Hin)).
  - discriminate.
Qed.

Lemma prun_end_lane : forall sched st l t,
  In (l, EEndTime t) (fst (prun L so sched st)) -> l = [2].
Proof.
  induction sched as [|[n o] sched IH]; intros st l t H; [destruct H|].
  cbn [prun] in H. destruct (pstep L so st n o) as [[es st']|] eqn:Hp; [|exact (IH st l t H)].
  destruct (prun L so sched st') as [es' st''] eqn:Hr. cbn [fst] in H.
  apply in_app_iff in H. destruct H as [H|H].
  - exact (pstep_end st n o es st' l t Hp H).
  - apply (IH st' l t). rewrite Hr; exact H.
Qed.

Lemma pinit_no_end : forall t0 l t, ~ In (l, EEndTime t) (fst (pinit L so t0)).
Proof.
  intros t0 l t H. unfold pinit in H.
  destruct (if reqS so then group_init L true (statics so) [0] t0 else ([], GDone))
    as [eS ps] eqn:GS.
  destruct (if reqD so then group_init L false (dynamics so) (dlane so) t0 else ([], GDone))
    as [eD pd] eqn:GD.
  destruct (settle_state L so ps pd t0) as [e3 st] eqn:Hs. cbn [fst] in H.
  rewrite !in_app_iff in H. destruct H as [H|[H|[H|H]]].
  - unfold log_if in H; destruct (useLogger L); cbn in H; intuition discriminate.
  - destruct (reqS so).
    + apply (group_init_no_end true (statics so) [0] t0 l t); rewrite GS; exact H.
    + injection GS as <- _; exact H.
  - destruct (reqD so).
    + apply (group_init_no_end false (dynamics so) (dlane so) t0 l t); rewrite GD; exact H.
    + injection GD as <- _; exact H.
  - apply (settle_no_end ps pd t0 l t); rewrite Hs; exact H.
Qed.

(** [this.endTime] is only ever set by the main chain. *)
Lemma pipeline_end_lane : forall t0 sched l t,
  In (l, EEndTime t) (trace_of t0 (pipeline L so) sched) -> l = [2].
Proof.
  intros t0 sched l t H.
  destruct (log_throws L) eqn:Hlw.
  { rewrite trace_pipeline_throw in H by exact Hlw. cbn [In] in H; intuition discriminate. }
  unfold trace_of in H; rewrite exec_pipeline in H by exact Hlw; cbn [fst] in H.
  apply in_app_iff in H; destruct H as [H|H].
  - exfalso; exact (pinit_no_end t0 l t H).
  - exact (prun_end_lane _ _ l t H).
Qed.

Lemma prun_POk_None : forall sched, prun L so sched (POk None) = ([], POk None).
Proof. induction sched as [|[n o] sched IH]; [reflexivity|]. cbn [prun pstep]; exact IH. Qed.

(** Once the main script is pending, the rest of the run is its firing or nothing. *)
Lemma prun_POk_form : forall sched p,
  fst (prun L so sched (POk p)) = [] \/
  exists t o, p = Some t /\ fst (prun L so sched (POk p)) = main_fire L so t o.
Proof.
  induction sched as [|[n o] sched IH]; intro p; [left; reflexivity|].
  destruct p as [t|].
  - destruct n.
    + right. exists t, o. split; [reflexivity|].
      cbn [prun pstep]. rewrite prun_POk_None. cbn [fst]. apply app_nil_r.
    + cbn [prun pstep]. exact (IH (Some t)).
  - cbn [prun pstep]. exact (IH None).
Qed.

End Finish.

(* ------------------------------------------------------------------ *)
(** ** Insertions, and the settling of the pipeline's promise *)

Definition is_append (e : event) : bool := match e with EAppend _ _ => true | _ => false end.

(** The [appendChild] calls of a run, in order. *)
Definition appends (tr : list (lane * event)) : list event := filter is_append (map snd tr).

Lemma appends_app : forall x y, appends (x ++ y) = appends x ++ appends y.
Proof. intros x y; unfold appends; rewrite map_app, filter_app; reflexivity. Qed.

(** The first occurrence of an event that [p] never holds before and [q]
    never holds after. *)
Lemma split_at_unique : forall (T : Type) (P : T -> Prop) (p q pre post : list T) (x y : T),
  p ++ x :: q = pre ++ y :: post -> P y ->
  (forall z, In z p -> ~ P z) -> (forall z, In z q -> ~ P z) -> pre = p.
Proof.
  intros T P p q; induction p as [|a p IH]; intros pre post x y H Py Hp Hq.
  - destruct pre as [|b pre]; [reflexivity|]. cbn in H. injection H as -> H'.
    exfalso. apply (Hq y); [rewrite H'; apply in_or_app; right; now left|exact Py].
  - destruct pre as [|b pre].
    + cbn in H. injection H as -> _. exfalso. apply (Hp y); [now left|exact Py].
    + cbn in H. injection H as -> H'. f_equal.
      apply (IH pre post x y H' Py); [intros z Hz; apply Hp; now right|exact Hq].
Qed.

Section MainChain.
Variable L : ScriptLoader.
Variable so : scriptObject.

Lemma prun_POk_snd : forall sched p, exists p', snd (prun L so sched (POk p)) = POk p'.
Proof.
  induction sched as [|[n o] sched IH]; intro p; [exists p; reflexivity|].
  destruct p as [t|]; [destruct n|].
  - cbn [prun pstep]. rewrite prun_POk_None. exists None; reflexivity.
  - cbn [prun pstep]. exact (IH (Some t)).
  - cbn [prun pstep]. exact (IH None).
Qed.

Lemma start_main_settled : forall now, In ([], ESettled (Fulfilled JUndef)) (start_main L so now).
Proof. intro now; unfold start_main; apply in_or_app; right; now left. Qed.

Lemma start_main_no_reject : forall now l e, ~ In (l, ESettled (Rejected e)) (start_main L so now).
Proof.
  intros now l e H; unfold start_main, log_if in H.
  destruct (js_truthy (main so)), (useLogger L); cbn in H; intuition discriminate.
Qed.

Lemma appends_main_fire : forall t o, appends (main_fire L so t o) = [].
Proof. intros t o; unfold main_fire, log_if; destruct (onload o), (useLogger L); reflexivity. Qed.

Lemma appends_start_main : forall now, js_truthy (main so) = true ->
  appends (start_main L so now) = [EAppend true (script_src L (main so))].
Proof. intros now Ht; unfold start_main, log_if; rewrite Ht; destruct (useLogger L); reflexivity. Qed.

(** Once the groups are through, [Promise.all] settles right after main is
    inserted. *)
Lemma start_main_split : forall now, js_truthy (main so) = true ->
  exists X, start_main L so now = X ++ [([], ESettled (Fulfilled JUndef))]
    /\ In ([2], EAppend true (script_src L (main so))) X
    /\ (forall x, In x X -> fst x = [2] /\ forall src b, snd x <> EFire src b).
Proof.
  intros now Ht. unfold start_main; rewrite Ht.
  exists (log_if (useLogger L) [2] (ELog (loading_message true (main so)) true JUndef)
          ++ [([2], EAppend true (script_src L (main so)))]).
  split; [reflexivity|]. split; [apply in_or_app; right; now left|].
  intros x H. unfold log_if in H. destruct (useLogger L); cbn in H;
    repeat (destruct H as [<-|H]; [split; [reflexivity|intros src b; discriminate]|]);
    destruct H.
Qed.

(** A failed main firing: the [catch]-less chain rejects unobserved. *)
Lemma main_fire_failed : forall t o src,
  In ([2], EFire src false) (main_fire L so t o) ->
  onload o = false /\ main_fire L so t o
    = [([2], EFire (script_src L (main so)) false); ([2], EConsole "error" (error_value o));
       ([2], EUnhandled (load_error t o))].
Proof.
  intros t o src H. unfold main_fire in *. destruct (onload o) eqn:Ho; [|split; reflexivity].
  exfalso. unfold log_if in H; destruct (useLogger L); cbn in H; intuition discriminate.
Qed.

End MainChain.

(* ------------------------------------------------------------------ *)
(** ** What a run of [load] can emit *)

Definition all_ev (P : event -> Prop) (es : list (lane * event)) : Prop :=
  forall x, In x es -> P (snd x).

(** The scripts of the static ([true]) or the dynamic ([false]) group. *)
Definition group_of (so : scriptObject) (isStatic : bool) : jsval :=
  if isStatic then statics so else dynamics so.

Create HintDb inventory.

Section Inventory.
Variable L : ScriptLoader.
Variable so : scriptObject.
Variable P : event -> Prop.
Hypothesis HP_append : forall b i, js_truthy (js_index (group_of so b) i) = true ->
  P (EAppend b (script_src L (js_index (group_of so b) i))).
Hypothesis HP_append_main : js_truthy (main so) = true -> P (EAppend true (script_src L (main so))).
Hypothesis HP_fire : forall src x, P (EFire src x).
Hypothesis HP_error : forall v, P (EConsole "error" v).
Hypothesis HP_settled : forall r, P (ESettled r).
Hypothesis HP_end : forall t, P (EEndTime t).
Hypothesis HP_unhandled : forall e, P (EUnhandled e).
Hypothesis HP_start : useLogger L = true -> P start_log.
Hypothesis HP_collapsed : useLogger L = true -> P (EConsole "groupCollapsed" (JStr "Load Progress")).
Hypothesis HP_groupEnd : useLogger L = true -> P (EConsole "groupEnd" (JStr "Load Progress")).
Hypothesis HP_loading : useLogger L = true -> forall b v, P (ELog (loading_message b v) true JUndef).
Hypothesis HP_loaded : useLogger L = true -> forall v q, P (ELog (loaded_message v q) true JUndef).
Hypothesis HP_progress : useLogger L = true -> forall a n, P (ELog "progress" false (progress_payload a n)).
Hypothesis HP_group_loaded : useLogger L = true ->
  forall b : bool, P (ELog (if b then "static scripts loaded" else "dynamic scripts loaded") true JUndef).
Hypothesis HP_finish : useLogger L = true -> forall q, P (ELog "finish" false (JNum q)).
Hypothesis HP_throw : log_throws L = true -> P (EThrow log_type_error).

#[local] Hint Resolve HP_append HP_append_main HP_fire HP_error HP_settled HP_end HP_unhandled
  HP_start HP_collapsed HP_groupEnd HP_loading HP_loaded HP_progress HP_group_loaded
  HP_finish : inventory.

Lemma all_nil : all_ev P [].
Proof. intros x []. Qed.

Lemma all_cons : forall x es, P (snd x) -> all_ev P es -> all_ev P (x :: es).
Proof. intros x es H1 H2 y [<-|Hy]; [exact H1|exact (H2 y Hy)]. Qed.

Lemma all_app : forall a b, all_ev P a -> all_ev P b -> all_ev P (a ++ b).
Proof. intros a b Ha Hb y Hy; apply in_app_iff in Hy; destruct Hy as [Hy|Hy]; auto. Qed.

Lemma all_log_if : forall l e, (useLogger L = true -> P e) -> all_ev P (log_if (useLogger L) l e).
Proof.
  intros l e H; unfold log_if; destruct (useLogger L); [|apply all_nil].
  apply all_cons; [exact (H eq_refl)|apply all_nil].
Qed.

Ltac inv :=
  repeat match goal with
         | |- all_ev P (_ ++ _) => apply all_app
         | |- all_ev P (_ :: _) => apply all_cons
         | |- all_ev P [] => apply all_nil
         | |- all_ev P (log_if _ _ _) => apply all_log_if
         end;
  cbn [snd]; intros; auto with inventory.

Lemma all_genter : forall b l c f now, all_ev P (fst (genter L b (group_of so b) l c f now)).
Proof.
  intros b l c f now; unfold genter.
  destruct (js_truthy (js_index (group_of so b) c)) eqn:Ht; [destruct f|]; cbn [fst]; inv.
Qed.

Lemma all_gstep : forall b l c f st o, all_ev P (fst (gstep L b (group_of so b) l c f st o)).
Proof.
  intros b l c f st o; unfold gstep. destruct (onload o); [|cbn [fst]; inv].
  destruct (Nat.leb (js_length (group_of so b)) (c + 1)); [cbn [fst]; inv|].
  pose proof (all_genter b l (c + 1) f (at_time o)) as G.
  destruct (genter L b (group_of so b) l (c + 1) f (at_time o)) as [es2 ph]. cbn [fst] in *.
  apply all_app; [inv|exact G].
Qed.

Lemma all_glog : forall b l ph, all_ev P (glog_events L b l ph).
Proof. intros b l [c f st| |e]; unfold glog_events; inv. Qed.

Lemma all_gstep' : forall b l ph o, all_ev P (fst (gstep' L b (group_of so b) l ph o)).
Proof.
  intros b l [c f st| |e] o; cbn [gstep']; [|apply all_nil..].
  pose proof (all_gstep b l c f st o) as G.
  destruct (gstep L b (group_of so b) l c f st o) as [es ph']. cbn [fst] in *.
  apply all_app; [exact G|apply all_glog].
Qed.

Lemma all_group_init : forall b l now, all_ev P (fst (group_init L b (group_of so b) l now)).
Proof.
  intros b l now; unfold group_init.
  pose proof (all_genter b l 0 (js_length (group_of so b)) now) as G.
  destruct (genter L b (group_of so b) l 0 (js_length (group_of so b)) now) as [es ph]. cbn [fst] in *.
  apply all_app; [inv|apply all_app; [exact G|apply all_glog]].
Qed.

Lemma all_start_main : forall now, all_ev P (start_main L so now).
Proof. intro now; unfold start_main; destruct (js_truthy (main so)) eqn:Hm; inv. Qed.

Lemma all_main_fire : forall t o, all_ev P (main_fire L so t o).
Proof. intros t o; unfold main_fire; destruct (onload o); inv. Qed.

Lemma all_settle_state : forall ps pd now, all_ev P (fst (settle_state L so ps pd now)).
Proof.
  intros [c f st| |e] [c' f' st'| |e'] now; cbn [settle_state fst]; try inv.
  apply all_start_main.
Qed.

Lemma all_pstep : forall st n o es st', pstep L so st n o = Some (es, st') -> all_ev P es.
Proof.
  intros [ps pd|e sl ph|[t|]] n o es st' H.
  - apply pstep_PRun_inv in H. destruct H as (esg & es2 & ps' & pd' & -> & Hs & Hside).
    apply all_app.
    + destruct Hside as [(_ & Hg & _)|(_ & Hg & _)].
      * pose proof (all_gstep' true [0] ps o) as G; cbn [group_of] in G; rewrite Hg in G; exact G.
      * pose proof (all_gstep' false (dlane so) pd o) as G; cbn [group_of] in G; rewrite Hg in G; exact G.
    + pose proof (all_settle_state ps' pd' (at_time o)) as G; rewrite Hs in G; exact G.
  - cbn [pstep] in H. destruct ph as [c f st| |e']; [destruct n|..]; try discriminate.
    pose proof (all_gstep' sl (if sl then [0] else [1; 0]) (GRunning c f st) o) as G.
    unfold group_of in G.
    destruct (gstep' L sl _ _ (GRunning c f st) o) as [es1 ph'].
    injection H as <- _. exact G.
  - destruct n; [|discriminate]. cbn [pstep] in H. injection H as <- _. apply all_main_fire.
  - discriminate.
Qed.

Lemma all_prun : forall sched st, all_ev P (fst (prun L so sched st)).
Proof.
  induction sched as [|[n o] sched IH]; intro st; [apply all_nil|].
  cbn [prun]. destruct (pstep L so st n o) as [[es st']|] eqn:Hp; [|apply IH].
  pose proof (IH st') as G. destruct (prun L so sched st') as [es' st'']. cbn [fst] in *.
  apply all_app; [exact (all_pstep st n o es st' Hp)|exact G].
Qed.

Lemma all_pinit : forall t0, all_ev P (fst (pinit L so t0)).
Proof.
  intro t0; unfold pinit.
  assert (GS : all_ev P (fst (if reqS so then group_init L true (statics so) [0] t0
                              else ([], GDone))))
    by (destruct (reqS so); [apply (all_group_init true)|apply all_nil]).
  assert (GD : all_ev P (fst (if reqD so then group_init L false (dynamics so) (dlane so) t0
                              else ([], GDone))))
    by (destruct (reqD so); [apply (all_group_init false)|apply all_nil]).
  destruct (if reqS so then group_init L true (statics so) [0] t0 else ([], GDone)) as [eS ps].
  destruct (if reqD so then group_init L false (dynamics so) (dlane so) t0 else ([], GDone))
    as [eD pd].
  pose proof (all_settle_state ps pd t0) as G3.
  destruct (settle_state L so ps pd t0) as [e3 st]. cbn [fst] in *.
  apply all_app; [inv|apply all_app; [exact GS|apply all_app; [exact GD|exact G3]]].
Qed.

(** Every event of every run of [load] is one of the forms above. *)
Lemma pipeline_inventory : forall t0 sched, all_ev P (trace_of t0 (pipeline L so) sched).
Proof.
  intros t0 sched.
  destruct (log_throws L) eqn:Hlw.
  { rewrite trace_pipeline_throw by exact Hlw.
    assert (Hu : useLogger L = true) by (unfold log_throws in Hlw; apply andb_prop in Hlw; apply Hlw).
    apply all_cons; [exact (HP_start Hu)|apply all_cons; [exact (HP_throw eq_refl)|apply all_nil]]. }
  unfold trace_of; rewrite exec_pipeline by exact Hlw; cbn [fst].
  apply all_app; [apply all_pinit|apply all_prun].
Qed.

End Inventory.

(* ------------------------------------------------------------------ *)
(** ** [this.log], [this.setupScriptContainers] and [this.init]

    The page as these three functions touch it: the console, the log
    windows, the children of [this.mainContainer] and the children of
    [document.body]. A window's [innerHTML] is the list of HTML fragments
    appended to it with [+=] (the browser re-parses it after each one). The
    [title], [id] and [style] attributes the three functions set on the
    window and the containers are constants and are left out. *)

Local Open Scope string_scope.

Definition dq : string := String (ascii_of_nat 34) EmptyString.
Definition nl : string := String (ascii_of_nat 10) EmptyString.

Definition hex_digit (n : nat) : ascii :=
  if Nat.ltb n 10 then ascii_of_nat (48 + n) else ascii_of_nat (87 + n).

(** One character of a JSON string literal. *)
Definition json_char (c : ascii) : string :=
  let n := nat_of_ascii c in
  if Nat.eqb n 34 then String "\" dq
  else if Nat.eqb n 92 then "\\"
  else if Nat.eqb n 8 then "\b"
  else if Nat.eqb n 12 then "\f"
  else if Nat.eqb n 10 then "\n"
  else if Nat.eqb n 13 then "\r"
  else if Nat.eqb n 9 then "\t"
  else if Nat.ltb n 32 then
    "\u00" ++ String (hex_digit (n / 16)) (String (hex_digit (n mod 16)) EmptyString)
  else String c EmptyString.

Fixpoint json_escape (s : string) : string :=
  match s with
  | EmptyString => EmptyString
  | String c s' => json_char c ++ json_escape s'
  end.

Definition json_quote (s : string) : string := dq ++ json_escape s ++ dq.

Definition json_block (open close indent indent' : string) (items : list string) : string :=
  match items with
  | [] => open ++ close
  | _ => open ++ nl ++ indent' ++ String.concat ("," ++ nl ++ indent') items
           ++ nl ++ indent ++ close
  end.

(** [JSON.stringify(v, "", 2)] at indentation [indent]; [None] is
    [undefined] (functions and [undefined] are not serialized). Numbers are
    written as [String(n)], object fields in property order. *)
Fixpoint json_ser (indent : string) (v : jsval) : option string :=
  match v with
  | JUndef | JFun _ => None
  | JBool true => Some "true"
  | JBool false => Some "false"
  | JNum q => Some (js_number_to_string q)
  | JStr s => Some (json_quote s)
  | JArr l =>
      let indent' := indent ++ "  " in
      Some (json_block "[" "]" indent indent'
        ((fix items (l : list jsval) : list string :=
            match l with
            | [] => []
            | x :: l' =>
                match json_ser indent' x with Some t => t | None => "null" end :: items l'
            end) l))
  | JObj fs =>
      let indent' := indent ++ "  " in
      Some (json_block "{" "}" indent indent'
        ((fix items (fs : list (string * jsval)) : list string :=
            match fs with
            | [] => []
            | (k, x) :: fs' =>
                match json_ser indent' x with
                | Some t => (json_quote k ++ ": " ++ t) :: items fs'
                | None => items fs'
                end
            end) fs))
  end%string.

(** The text [JSON.stringify(v, "", 2)] contributes to a concatenation. *)
Definition json_text (v : jsval) : string :=
  match json_ser EmptyString v with Some t => t | None => "undefined" end.

Inductive js_error : Type :=
| TypeError (message : string)
| ReferenceError (message : string).

(** How a call ends: normally, or by a thrown error, with the page as the
    call left it. *)
Inductive completion (A : Type) : Type :=
| Normal (a : A)
| Abrupt (e : js_error) (a : A).
Arguments Normal {A} a.
Arguments Abrupt {A} e a.

(** A child of [this.mainContainer]: the static or the dynamic container,
    or the log window created by the [n]-th ["init"] log (from 0). *)
Inductive child : Type :=
| CStatic
| CDynamic
| CWindow (n : nat).

(** A child of [document.body]: a node of the page's own ([live] while it
    is the original object, not a re-parsed copy), a comment, a text node,
    this loader's [mainContainer], or a re-parsed copy of it. *)
Inductive bnode : Type :=
| BPage (n : nat) (live : bool)
| BComment (s : string)
| BText (s : string)
| BMain
| BMainCopy.

Record page : Type := {
  console_out : list (string * jsval);  (* console calls, oldest first *)
  log_windows : list (list string);     (* newest first; the head is [this.logWindow] *)
  main_children : list child;
  body : list bnode
}.

Definition console_call (pg : page) (method : string) (arg : jsval) : page :=
  {| console_out := app (console_out pg) [(method, arg)];
     log_windows := log_windows pg;
     main_children := main_children pg;
     body := body pg |}.

Definition with_windows (pg : page) (ws : list (list string)) : page :=
  {| console_out := console_out pg; log_windows := ws;
     main_children := main_children pg; body := body pg |}.

(** [this.logWindow.innerHTML += html]: a [TypeError] while
    [this.logWindow] is [undefined]. *)
Definition add_html (pg : page) (html : string) : completion page :=
  match log_windows pg with
  | [] => Abrupt (TypeError "Cannot read properties of undefined (reading 'innerHTML')") pg
  | w :: ws => Normal (with_windows pg (app w [html] :: ws))
  end.

Definition child_eqb (a b : child) : bool :=
  match a, b with
  | CStatic, CStatic | CDynamic, CDynamic => true
  | CWindow n, CWindow m => Nat.eqb n m
  | _, _ => false
  end.

(** [this.mainContainer.appendChild(c)]: a child already there is moved to
    the end. *)
Definition main_append (pg : page) (c : child) : page :=
  {| console_out := console_out pg; log_windows := log_windows pg;
     main_children := app (filter (fun x => negb (child_eqb x c)) (main_children pg)) [c];
     body := body pg |}.

Definition cbind (c : completion page) (f : page -> completion page) : completion page :=
  match c with
  | Normal pg => f pg
  | Abrupt e pg => Abrupt e pg
  end.

(** [payload.value] and the like: reading a property of [undefined] throws. *)
Fixpoint assoc_get (k : string) (fs : list (string * jsval)) : jsval :=
  match fs with
  | [] => JUndef
  | (k', v) :: fs' => if String.eqb k k' then v else assoc_get k fs'
  end.

Definition js_get (v : jsval) (k : string) : option jsval :=
  match v with
  | JUndef => None
  | JObj fs => Some (assoc_get k fs)
  | _ => Some JUndef
  end.

Definition log_name : string := "[SCRIPT-LOADER]".
Definition log_window_title : string := log_name ++ " Log Window".

Definition progress_html (value total progress : string) : string :=
  nl ++ "        <div>" ++ nl
  ++ "          <label style=" ++ dq ++ "display:none" ++ dq ++ ">Loading progress:</label>" ++ nl
  ++ "          <progress value=" ++ dq ++ value ++ dq ++ " max=" ++ dq ++ total ++ dq
  ++ "> " ++ progress ++ "% </progress>" ++ nl
  ++ "        </div>" ++ nl ++ "      ".

Section Log.
(** The global binding [scriptObject] that the ["init"] branch reads
    ([None]: there is none, and strict code throws a [ReferenceError]). *)
Variable scriptObject_global : option jsval.
(** [String((value / total) * 100)]: the text of a double, left abstract. *)
Variable percent : jsval -> jsval -> string.

(** [this.log(message, useBreak, payload)] *)
Definition log (pg : page) (message : string) (useBreak : bool) (payload : jsval)
    : completion page :=
  if String.eqb message "init" then
    let pg1 := console_call (console_call pg "group" (JStr log_name)) "table" payload in
    let n := length (log_windows pg1) in
    cbind (add_html (with_windows pg1 ([] :: log_windows pg1)) (log_window_title ++ "<hr>"))
      (fun pg2 =>
         match scriptObject_global with
         | None => Abrupt (ReferenceError "scriptObject is not defined") pg2
         | Some g =>
             cbind (add_html pg2 ("Script Object : <pre style='border:1px solid;padding:5px;'><code>"
                                   ++ json_text g ++ "</code></pre>"))
               (fun pg3 => Normal (main_append pg3 (CWindow n)))
         end)
  else if String.eqb message "progress" then
    match js_get payload "value", js_get payload "total" with
    | Some value, Some total =>
        let progress := percent value total in
        add_html (console_call pg "log" (JStr ("Progress: " ++ progress ++ " %")))
          (progress_html (js_to_string value) (js_to_string total) progress)
    | _, _ => Abrupt (TypeError "Cannot read properties of undefined (reading 'value')") pg
    end
  else if String.eqb message "finish" then
    let msg := "Total load time: " ++ js_to_string payload ++ " seconds" in
    cbind (add_html (console_call pg "log" (JStr msg))
             ("<p>Total load time: <strong>" ++ js_to_string payload ++ "</strong> seconds</p>"))
      (fun pg2 => Normal (console_call pg2 "groupEnd" (JStr log_name)))
  else
    add_html (console_call pg "log" (JStr message))
      (message ++ (if useBreak then "<br/>" else "")).

(** The log and console calls of a run, applied in order; the first error
    thrown ends the replay. *)
Fixpoint replay (pg : page) (es : list event) : completion page :=
  match es with
  | [] => Normal pg
  | ELog m b p :: es' => cbind (log pg m b p) (fun pg' => replay pg' es')
  | EConsole m a :: es' => replay (console_call pg m a) es'
  | _ :: es' => replay pg es'
  end.
End Log.

(** [document.body.innerHTML += html] re-parses the body: every child is
    replaced by a copy. *)
Definition reparse (n : bnode) : bnode :=
  match n with
  | BPage k _ => BPage k false
  | BMain => BMainCopy
  | x => x
  end.

(** [this.setupScriptContainers()] *)
Definition setupScriptContainers (pg : page) : page :=
  let pg1 := main_append (main_append pg CStatic) CDynamic in
  {| console_out := console_out pg1; log_windows := log_windows pg1;
     main_children := main_children pg1;
     body := app (filter (fun x => match x with BMain => false | _ => true end)
                 (app (map reparse (body pg1)) [BComment " Loaded with Script Loader "; BText nl]))
               [BMain] |}.

(** The request as a value, for [console.table]. *)
Definition so_value (so : scriptObject) : jsval :=
  JObj [("statics", statics so); ("dynamics", dynamics so); ("main", main so)].

(** The fields [init] sets: [this.startTime], and, with the logger on,
    [this.logWindow], which [this.log("init", ...)] assigns before anything
    in it can throw. *)
Definition with_startTime (L : ScriptLoader) (t : Z) : ScriptLoader :=
  {| useLogger := useLogger L; logWindow := logWindow L || useLogger L;
     scriptDirectoryPath := scriptDirectoryPath L;
     staticContainer := staticContainer L; dynamicContainer := dynamicContainer L;
     startTime := Some t; endTime := endTime L |}.

(** [this.init(scriptObject)] at clock reading [now], up to its last
    statement: the loader it leaves and how the page ends up. When it ends
    normally, [this.load(scriptObject)] follows, that is
    [load (with_startTime L now) so]. *)
Definition init (g : option jsval) (percent : jsval -> jsval -> string)
    (L : ScriptLoader) (pg : page) (so : scriptObject) (now : Z)
    : ScriptLoader * completion page :=
  (with_startTime L now,
   cbind (if useLogger L then log g percent pg "init" false (so_value so) else Normal pg)
     (fun pg1 => Normal (setupScriptContainers pg1))).

Local Open Scope list_scope.

(** A log call that cannot throw once a log window exists: not ["init"],
    and a ["progress"] call carries a [{value, total}] payload. *)
Definition safe_log (e : event) : Prop :=
  match e with
  | ELog m _ p => m <> "init" /\ (m = "progress" -> exists a n, p = progress_payload a n)
  | _ => True
  end.

Section Replay.
Variable g : option jsval.
Variable pc : jsval -> jsval -> string.

Lemma log_safe : forall pg w ws m b p,
  log_windows pg = w :: ws -> safe_log (ELog m b p) ->
  exists w' extra, log g pc pg m b p =
    Normal {| console_out := console_out pg ++ extra; log_windows := (w ++ w') :: ws;
              main_children := main_children pg; body := body pg |}.
Proof.
  intros pg w ws m b p Hw [Hi Hp]. unfold log.
  destruct (String.eqb_spec m "init") as [E|_]; [congruence|].
  destruct (String.eqb_spec m "progress") as [E|_].
  - destruct (Hp E) as (a & n & ->). cbn [js_get progress_payload assoc_get String.eqb].
    unfold add_html, console_call; cbn [log_windows]; rewrite Hw.
    eexists; eexists; reflexivity.
  - destruct (String.eqb_spec m "finish") as [E|_].
    + unfold add_html, console_call; cbn [log_windows]; rewrite Hw; cbn [cbind].
      eexists; eexists. unfold with_windows; cbn [console_out log_windows main_children body].
      rewrite <- app_assoc. reflexivity.
    + unfold add_html, console_call; cbn [log_windows]; rewrite Hw.
      eexists; eexists; reflexivity.
Qed.

Lemma replay_safe : forall es pg w ws,
  log_windows pg = w :: ws -> (forall e, In e es -> safe_log e) ->
  exists w' extra, replay g pc pg es =
    Normal {| console_out := console_out pg ++ extra; log_windows := (w ++ w') :: ws;
              main_children := main_children pg; body := body pg |}.
Proof.
  induction es as [|e es IH]; intros pg w ws Hw Hs.
  - exists [], []. rewrite !app_nil_r. destruct pg; cbn in *; congruence.
  - assert (Hs' : forall e, In e es -> safe_log e) by (intros; apply Hs; now right).
    destruct e; cbn [replay];
      try (destruct (IH pg w ws Hw Hs') as (w' & x & H); exists w', x; exact H).
    + destruct (log_safe pg w ws message useBreak payload Hw (Hs _ (or_introl eq_refl)))
        as (w1 & x1 & H1). rewrite H1; cbn [cbind].
      match type of H1 with _ = Normal ?q =>
        destruct (IH q (w ++ w1) ws eq_refl Hs') as (w2 & x2 & H2) end. rewrite H2.
      exists (w1 ++ w2), (x1 ++ x2). cbn.
      rewrite !app_assoc. reflexivity.
    + destruct (IH (console_call pg method arg) w ws Hw Hs') as (w2 & x2 & H2). rewrite H2.
      exists w2, ([(method, arg)] ++ x2). unfold console_call.
      cbn [console_out log_windows main_children body]. rewrite <- app_assoc. reflexivity.
Qed.
End Replay.

Lemma pipeline_safe : forall L so t0 sched e,
  In e (map snd (trace_of t0 (pipeline L so) sched)) -> safe_log e.
Proof.
  intros L so t0 sched e Hin. apply in_map_iff in Hin. destruct Hin as [[l e'] [<- Hin]].
  refine (pipeline_inventory L so safe_log _ _ _ _ _ _ _ _ _ _ _ _ _ _ _ _ t0 sched (l, e') Hin);
    intros; cbn [safe_log]; try exact I.
  - split; [discriminate|discriminate].
  - split; [destruct b; discriminate|destruct b; discriminate].
  - split; [discriminate|discriminate].
  - split; [discriminate|eauto].
  - split; [destruct b; discriminate|destruct b; discriminate].
  - split; [discriminate|discriminate].
Qed.

Lemma string_get_lt : forall s i c, String.get i s = Some c -> i < String.length s.
Proof.
  induction s as [|a s IH]; intros [|i] c H; cbn in *; try discriminate; [lia|].
  apply IH in H; lia.
Qed.

Lemma truthy_index_lt : forall s i, js_truthy (js_index s i) = true -> i < js_length s.
Proof.
  intros s i H.
  destruct s as [| | |s|items| |]; cbn [js_index js_truthy js_length] in *; try discriminate.
  - destruct (String.get i s) eqn:Hg; [exact (string_get_lt s i a Hg)|discriminate].
  - destruct (Nat.lt_ge_cases i (length items)) as [Hlt|Hge]; [exact Hlt|].
    rewrite nth_overflow in H by exact Hge. discriminate.
Qed.

Definition group_end_ev : event := EConsole "groupEnd" (JStr "Load Progress").
Definition last_progress (s : jsval) : event :=
  ELog "progress" false (progress_payload (js_length s) (js_length s)).

Definition ph_ok (s : jsval) (ph : gphase) : Prop :=
  match ph with GRunning c _ _ => c < js_length s | _ => True end.

Section Balance.
Variable L : ScriptLoader.
Variable b : bool.
Variable s : jsval.

Lemma genter_ok : forall l c f now, ph_ok s (snd (genter L b s l c f now)).
Proof.
  intros l c f now; unfold genter.
  destruct (js_truthy (js_index s c)) eqn:Ht; [destruct f|]; cbn; try exact I.
  exact (truthy_index_lt s c Ht).
Qed.

Lemma genter_quiet : forall l c f now x,
  In x (map snd (fst (genter L b s l c f now))) ->
  x <> group_end_ev /\ x <> last_progress s /\ forall v, x <> EConsole "groupCollapsed" v.
Proof.
  intros l c f now x H; unfold genter in H.
  destruct (js_truthy (js_index s c)); [destruct f|]; cbn [fst] in H; [contradiction| |contradiction].
  rewrite map_app, snd_log_if, in_app_iff in H.
  destruct (useLogger L); cbn in H; intuition (subst; discriminate).
Qed.

Lemma grun_no_collapsed : forall sched l ph x v,
  In x (map snd (fst (grun L b s l ph sched))) -> x <> EConsole "groupCollapsed" v.
Proof.
  induction sched as [|[n o] sched IH]; intros l ph x v H; cbn [grun fst] in H; [contradiction|].
  destruct ph as [c f st| |e]; [destruct n|..]; try exact (IH _ _ _ _ H).
  unfold gstep in H.
  destruct (onload o).
  2:{ destruct (grun L b s l (GFailed (load_error st o)) sched) as [es' ph'] eqn:Hr.
      cbn [fst] in H. rewrite map_app, in_app_iff in H. destruct H as [H|H].
      - cbn in H. intuition (subst; discriminate).
      - apply (IH l (GFailed (load_error st o))). rewrite Hr. exact H. }
  destruct (Nat.leb (js_length s) (c + 1)).
  - destruct (grun L b s l GDone sched) as [es' ph'] eqn:Hr.
    cbn [fst] in H. rewrite map_app, in_app_iff in H. destruct H as [H|H].
    + unfold log_if in H; destruct (useLogger L); cbn in H; intuition (subst; discriminate).
    + apply (IH l GDone). rewrite Hr. exact H.
  - pose proof (genter_quiet l (c + 1) f (at_time o)) as Hq.
    destruct (genter L b s l (c + 1) f (at_time o)) as [es2 ph2] eqn:Hg. cbn [fst] in Hq.
    destruct (grun L b s l ph2 sched) as [es' ph'] eqn:Hr.
    cbn [fst] in H. rewrite !map_app, !in_app_iff in H. destruct H as [[H|H]|H].
    + unfold log_if in H; destruct (useLogger L); cbn in H; intuition (subst; discriminate).
    + exact (proj2 (proj2 (Hq x H)) v).
    + apply (IH l ph2). rewrite Hr. exact H.
Qed.

Lemma gstep_balance : forall l c f st o,
  c < js_length s ->
  ph_ok s (snd (gstep L b s l c f st o)) /\
  (In group_end_ev (map snd (fst (gstep L b s l c f st o))) <->
   useLogger L = true /\ In (last_progress s) (map snd (fst (gstep L b s l c f st o)))).
Proof.
  intros l c f st o Hc. unfold gstep.
  destruct (onload o).
  2:{ cbn. split; [exact I|]. split; [intuition discriminate|intros [_ H]; intuition discriminate]. }
  destruct (Nat.leb (js_length s) (c + 1)) eqn:Hle.
  - apply Nat.leb_le in Hle. cbn [fst snd]. split; [exact I|].
    unfold last_progress, group_end_ev.
    assert (E : c + 1 = js_length s) by lia. rewrite E.
    unfold log_if; destruct (useLogger L); cbn [map snd app].
    + split; [intros _; split; [reflexivity|right; right; left; reflexivity]|].
      intros _; right; right; right; left; reflexivity.
    + split; [intros [H|[]]; discriminate|intros [H _]; discriminate].
  - apply Nat.leb_gt in Hle.
    pose proof (genter_ok l (c + 1) f (at_time o)) as Hok.
    pose proof (genter_quiet l (c + 1) f (at_time o)) as Hq.
    destruct (genter L b s l (c + 1) f (at_time o)) as [es2 ph] eqn:Hg. cbn [fst snd] in *.
    split; [exact Hok|].
    assert (Hne : ELog "progress" false (progress_payload (c + 1) (js_length s))
                  <> last_progress s).
    { intro H. injection H as H. lia. }
    rewrite map_app, in_app_iff, in_app_iff.
    unfold log_if; destruct (useLogger L); cbn [map snd app In].
    + split.
      * intros [[H|[H|[H|[]]]]|H]; try discriminate; exfalso; exact (proj1 (Hq _ H) eq_refl).
      * intros [_ [[H|[H|[H|[]]]]|H]]; try discriminate;
          [exact (False_ind _ (Hne H))|exfalso; exact (proj1 (proj2 (Hq _ H)) eq_refl)].
    + split.
      * intros [[H|[]]|H]; try discriminate; exfalso; exact (proj1 (Hq _ H) eq_refl).
      * intros [H _]; discriminate.
Qed.

Lemma grun_balance : forall sched l ph,
  ph_ok s ph ->
  (In group_end_ev (map snd (fst (grun L b s l ph sched))) <->
   useLogger L = true /\ In (last_progress s) (map snd (fst (grun L b s l ph sched)))).
Proof.
  induction sched as [|[n o] sched IH]; intros l ph Hok.
  - cbn. intuition.
  - cbn [grun]. destruct ph as [c f st| |e]; [destruct n|..]; try (apply IH; exact Hok).
    destruct (gstep_balance l c f st o Hok) as [Hok' Heq].
    destruct (gstep L b s l c f st o) as [es ph'] eqn:Hg. cbn [fst snd] in *.
    specialize (IH l ph' Hok').
    destruct (grun L b s l ph' sched) as [es' ph''] eqn:Hr. cbn [fst] in *.
    rewrite map_app, !in_app_iff. rewrite Heq, IH. intuition.
Qed.
End Balance.

Lemma pipeline_head : forall L so t0 sched, useLogger L = true ->
  exists rest, map snd (trace_of t0 (pipeline L so) sched) = start_log :: rest.
Proof.
  intros L so t0 sched Hl.
  destruct (log_throws L) eqn:Hlw.
  { rewrite trace_pipeline_throw by exact Hlw. eexists; reflexivity. }
  unfold trace_of; rewrite exec_pipeline by exact Hlw; unfold pinit.
  destruct (if reqS so then group_init L true (statics so) [0] t0 else ([], GDone)) as [eS ps].
  destruct (if reqD so then group_init L false (dynamics so) (dlane so) t0 else ([], GDone))
    as [eD pd].
  destruct (settle_state L so ps pd t0) as [e3 st]. cbn [fst snd].
  unfold log_if; rewrite Hl. eexists; reflexivity.
Qed.

Definition script_object_html (v : jsval) : string :=
  ("Script Object : <pre style='border:1px solid;padding:5px;'><code>" ++ json_text v
   ++ "</code></pre>")%string.

Definition drop_child (c : child) (cs : list child) : list child :=
  filter (fun x => negb (child_eqb x c)) cs.

Lemma init_some_form : forall v pc L pg so now, useLogger L = true ->
  snd (init (Some v) pc L pg so now)
  = Normal (setupScriptContainers
      (main_append
        (with_windows (console_call (console_call pg "group" (JStr log_name)) "table" (so_value so))
           ([(log_window_title ++ "<hr>")%string; script_object_html v] :: log_windows pg))
        (CWindow (length (log_windows pg))))).
Proof.
  intros v pc L pg so now Hl. unfold init; rewrite Hl. cbn [snd].
  unfold log; cbn [String.eqb Ascii.eqb Bool.eqb].
  reflexivity.
Qed.

Lemma log_body : forall g pc pg m b p pg', log g pc pg m b p = Normal pg' -> body pg' = body pg.
Proof.
  intros g pc pg m b p pg' H. unfold log in H.
  destruct (String.eqb m "init").
  - destruct g; cbn in H; [|discriminate]. injection H as <-. reflexivity.
  - destruct (String.eqb m "progress");
      [destruct (js_get p "value"), (js_get p "total"); try discriminate|
       destruct (String.eqb m "finish")];
      unfold add_html in H; cbn [log_windows console_call] in H;
      destruct (log_windows pg); try discriminate; cbn [cbind] in H;
      injection H as <-; reflexivity.
Qed.

Lemma reparse_not_main : forall bs, filter (fun x => match x with BMain => false | _ => true end)
  (map reparse bs) = map reparse bs.
Proof. induction bs as [|[] bs IH]; cbn; rewrite ?IH; reflexivity. Qed.

(* ------------------------------------------------------------------ *)
(** ** Concrete inputs *)

(** A page before any loader ran: its body holds one node of its own. *)
Definition page0 : page :=
  {| console_out := []; log_windows := []; main_children := []; body := [BPage 0 true] |}.

(** [String((value / total) * 100)] on the progress payloads this program
    forms. *)
Definition pct (value total : jsval) : string :=
  match value, total with
  | JNum a, JNum b => js_number_to_string (Qmult (Qdiv a b) (inject_Z 100))
  | _, _ => "NaN"
  end.

(** [{statics: [], dynamics: []}]: a request that loads nothing. *)
Definition request_empty : scriptObject :=
  {| statics := JArr []; dynamics := JArr []; main := JUndef |}.

(** [new ScriptLoader({useLogger: true})], before [init]: no log window. *)
Definition fresh_loader : ScriptLoader :=
  new_ScriptLoader {| opt_useLogger := JBool true; opt_path := JUndef |}.

(** [const L = new ScriptLoader({useLogger: true})] after
    [L.init(scriptObject)] at clock reading 0 on [page0], with
    [scriptObject] a global holding [request_empty]: the log window exists,
    and the load [init] starts inserts nothing. *)
Definition demo_loader : ScriptLoader :=
  fst (init (Some (so_value request_empty)) pct fresh_loader page0 request_empty 0).

Definition ok_at (t : Z) : outcome := {| onload := true; at_time := t; error_value := JUndef |}.
Definition err_at (t : Z) (e : jsval) : outcome :=
  {| onload := false; at_time := t; error_value := e |}.

(** A network error event, as [script.onerror] receives it. *)
Definition net_error (src : string) : jsval :=
  JObj [("type", JStr "error"); ("target", JObj [("src", JStr src)])].

(** The payloads of the ["progress"] log calls of a trace, in order. *)
Definition progress_events (tr : list (lane * event)) : list jsval :=
  flat_map (fun le => match snd le with
                      | ELog msg _ p => if String.eqb msg "progress" then [p] else []
                      | _ => []
                      end) tr.

Lemma loadScripts_fail : forall L b names t0 sched tr m src,
  exec t0 (loadScripts L b (js_strings names)) sched = (tr, m) ->
  In (EFire src false) (map snd tr) ->
  exists k pre st o,
    nth_error (srcs_of L names) k = Some src /\
    observe tr = sequential (useLogger L) b (srcs_of L names) 0 (length names)
                   (repeat true k ++ [false]) /\
    onload o = false /\
    tr = pre ++ [([], EFire src false); ([], EConsole "error" (error_value o))] /\
    m_main m = Settle (Rejected (load_error st o)).
Proof.
  intros L b names t0 sched tr m src Hex Hin.
  destruct (log_throws L) eqn:Hlw.
  { rewrite exec_loadScripts_throw in Hex by exact Hlw.
    destruct (_ && _); injection Hex as <- <-; cbn [map snd In] in Hin; intuition discriminate. }
  rewrite exec_loadScripts, js_length_strings in Hex by exact Hlw.
  unfold genter in Hex; rewrite js_index_strings in Hex.
  destruct names as [|n names'] eqn:En; cbn [nth_error] in Hex.
  - cbn [js_truthy] in Hex. rewrite grun_settled in Hex by exact I. injection Hex as <- <-.
    rewrite !app_nil_r in Hin. no_fail Hin.
  - destruct (js_truthy (JStr n)) eqn:Ht.
    + cbn [length] in Hex.
      destruct (grun L b (js_strings (n :: names')) [] (GRunning 0 (length names') t0) sched)
        as [es' ph'] eqn:Hg.
      injection Hex as <- <-.
      rewrite !map_app, !in_app_iff in Hin.
      destruct Hin as [Hin|[Hin|Hin]]; [no_fail Hin|no_fail Hin|].
      destruct (grun_fail L b (n :: names') sched [] 0 (length names') t0 src
                  ltac:(cbn; lia)) as (k & pre & st & o & _ & Hsrc & Hobs & Ho & Htr & Hph);
        rewrite Hg in *; cbn [fst snd] in *; [exact Hin|].
      exists k, ((log_if (useLogger L) [] (EConsole "groupCollapsed" (JStr "Load Progress"))
                  ++ log_if (useLogger L) []
                       (ELog (loading_message b (JStr n)) true JUndef)
                  ++ [([], EAppend b (script_src L (JStr n)))]) ++ pre), st, o.
      repeat split; try assumption.
      * obs_norm. rewrite Hobs, Nat.sub_0_r.
        rewrite <- (skipn_O (srcs_of L (n :: names'))).
        change (S (length names')) with (length (n :: names')).
        rewrite (sequential_skipn L b (n :: names') 0 n _ eq_refl). reflexivity.
      * rewrite Htr, <- !app_assoc. reflexivity.
      * rewrite Hph. reflexivity.
    + rewrite grun_settled in Hex by exact I. injection Hex as <- <-.
      rewrite !app_nil_r in Hin. no_fail Hin.
Qed.

(** The spec's [GroupLoadError] wrapping [inner]: an error object named
    ["GroupLoadError"] that holds [inner] in one of its fields. No code path
    builds one; it is stated here to be refuted. *)
Definition group_load_error_of (v inner : jsval) : Prop :=
  match v with
  | JObj fs => In ("name", JStr "GroupLoadError") fs /\ In inner (map snd fs)
  | _ => False
  end.

(** The [src] of every script the trace inserts, in order. *)
Definition appended (tr : list (lane * event)) : list string :=
  flat_map (fun le => match snd le with EAppend _ src => [src] | _ => [] end) tr.

(** [{statics: [], dynamics: [], main: "m"}]. *)
Definition request_m : scriptObject :=
  {| statics := JArr []; dynamics := JArr []; main := JStr "m" |}.

(** [{statics: ["s1"]}]: no [dynamics], no [main]. *)
Definition request_s1 : scriptObject :=
  {| statics := js_strings ["s1"]; dynamics := JUndef; main := JUndef |}.

(** [{statics: ["s1"], dynamics: ["d1"], main: "m"}]. *)
Definition request_sdm : scriptObject :=
  {| statics := js_strings ["s1"]; dynamics := js_strings ["d1"]; main := JStr "m" |}.

(** The page a call left, whether or not it threw. *)
Definition page_after (c : completion page) : page :=
  match c with Normal pg => pg | Abrupt _ pg => pg end.

(** The page the [init] of [demo_loader] left. *)
Definition demo_page : page :=
  page_after (snd (init (Some (so_value request_empty)) pct fresh_loader page0 request_empty 0)).

(** The [this.log] and console calls of a trace, replayed on [demo_page]:
    [true] when none of them throws. *)
Definition logs_return_on_demo_page (tr : list (lane * event)) : bool :=
  match replay (Some (so_value request_empty)) pct demo_page (map snd tr) with
  | Normal _ => true
  | Abrupt _ _ => false
  end.

(** Every script loads: [s1] at 3 ms, [d1] at 4 ms, [m] at 6 ms. *)
Definition sched_ok : schedule := [(0, ok_at 3); (0, ok_at 4); (0, ok_at 6)].

(** [d1] fails at 3 ms, then [s1] loads. *)
Definition sched_d1_fails : schedule := [(1, err_at 3 JUndef); (0, ok_at 4); (0, ok_at 6)].

(* ------------------------------------------------------------------ *)
(** * Claims *)

(** C1: within one group the scripts are loaded one at a time and in the
    given order. Whatever the schedule of handler firings, the observed
    insertions, firings and progress reports of [loadScripts] are a prefix
    of the sequential protocol: insert script [i], see it fire, on success
    report progress and only then insert script [i+1]. *)
Theorem C1_loadScripts_sequential : forall L b names t0 sched,
  exists results,
    prefix (observe (trace_of t0 (loadScripts L b (js_strings names)) sched))
           (sequential (useLogger L) b (srcs_of L names) 0 (length names) results).
Proof.
  intros L b names t0 sched. unfold trace_of.
  destruct (log_throws L) eqn:Hlw.
  { rewrite exec_loadScripts_throw by exact Hlw. exists [].
    destruct (_ && _); cbn [fst]; obs_norm; apply prefix_nil. }
  rewrite exec_loadScripts by exact Hlw.
  rewrite js_length_strings.
  unfold genter; rewrite js_index_strings.
  destruct names as [|n names'] eqn:En; cbn [nth_error].
  - cbn [js_truthy grun fst]. exists []. rewrite grun_settled by exact I.
    cbn [fst]. rewrite !app_nil_r. obs_norm. apply prefix_nil.
  - destruct (js_truthy (JStr n)) eqn:Ht.
    + cbn [length].
      destruct (grun L b (js_strings (n :: names')) [] (GRunning 0 (length names') t0) sched)
        as [es' ph'] eqn:Hg.
      destruct (grun_tail L b (n :: names') sched [] 0 (length names') t0 ltac:(cbn; lia))
        as [r Hr].
      rewrite Hg in Hr; cbn [fst] in Hr |- *.
      exists r. obs_norm.
      rewrite <- (skipn_O (srcs_of L (n :: names'))).
      change (S (length names')) with (length (n :: names')).
      rewrite (sequential_skipn L b (n :: names') 0 n r eq_refl).
      apply (prefix_app [_]). exact Hr.
    + rewrite grun_settled by exact I. cbn [fst]. rewrite !app_nil_r. obs_norm.
      exists []. apply prefix_nil.
Qed.

(** C2: fail-fast. If a script of the group fails to load, it is the
    [k]-th identifier, the group inserted exactly identifiers [0..k] (all
    before [k] succeeded, none after [k] is attempted), the trace ends with
    that failure and its console error, and the group's future is rejected
    with the rejection object of that very script, whose payload is the
    error value its [onerror] received. *)
Theorem C2_loadScripts_fail_fast : forall L b names t0 sched tr m src,
  exec t0 (loadScripts L b (js_strings names)) sched = (tr, m) ->
  In (EFire src false) (map snd tr) ->
  exists k pre st o,
    nth_error (srcs_of L names) k = Some src /\
    observe tr = sequential (useLogger L) b (srcs_of L names) 0 (length names)
                   (repeat true k ++ [false]) /\
    onload o = false /\
    tr = pre ++ [([], EFire src false); ([], EConsole "error" (error_value o))] /\
    m_main m = Settle (Rejected (load_error st o)).
Proof. exact loadScripts_fail. Qed.

Lemma C2_loadScripts_fail_fast_witness :
  let p := loadScripts demo_loader true (js_strings ["a"; "b"; "c"]) in
  let sched := [(0, ok_at 5); (0, err_at 9 (net_error "./b.js"))] in
  In (EFire "./b.js" false) (map snd (trace_of 0 p sched)) /\
  exists k pre st o,
    nth_error (srcs_of demo_loader ["a"; "b"; "c"]) k = Some "./b.js" /\
    observe (trace_of 0 p sched)
      = sequential true true (srcs_of demo_loader ["a"; "b"; "c"]) 0 3
          (repeat true k ++ [false]) /\
    onload o = false /\
    trace_of 0 p sched
      = pre ++ [([], EFire "./b.js" false); ([], EConsole "error" (error_value o))] /\
    m_main (snd (exec 0 p sched)) = Settle (Rejected (load_error st o)).
Proof.
  intros p sched. split.
  - vm_compute. repeat (first [left; reflexivity | right]).
  - apply (C2_loadScripts_fail_fast demo_loader true ["a"; "b"; "c"] 0 sched
             (trace_of 0 p sched) (snd (exec 0 p sched)) "./b.js").
    + apply surjective_pairing.
    + vm_compute. repeat (first [left; reflexivity | right]).
Defined.

(** C3: the main script is gated on both groups. In the trace of [load],
    whenever the main chain (lane [2]) issues anything, what came before
    holds, on the static lane and on the dynamic lane, a complete and
    fulfilled run of [loadScripts] for each requested group: the same
    insertions, firings and progress reports as that group loading on its
    own until its promise is fulfilled. And if a requested group sees a
    failed firing, the main chain issues nothing at all: main is never
    inserted. *)
Theorem C3_main_after_groups : forall L so t0 sched,
  let tr := trace_of t0 (pipeline L so) sched in
  (forall pre e post, tr = pre ++ ([2], e) :: post ->
     (reqS so = true -> completes_as L true (statics so) t0 (observe (lane_events [0] pre))) /\
     (reqD so = true ->
        completes_as L false (dynamics so) t0 (observe (lane_events (dlane so) pre)))) /\
  (forall lG src, (reqS so = true /\ lG = [0]) \/ (reqD so = true /\ lG = dlane so) ->
     In (lG, EFire src false) tr -> forall e, ~ In ([2], e) tr).
Proof.
  intros L so t0 sched tr.
  assert (Hd0 : dlane so <> []) by (unfold dlane; destruct (reqS so); discriminate).
  destruct (pipeline_gate L so t0 sched) as [[Hl _]|(A & B & HAB & HA & HB & HSc & HDc & _)];
    fold tr in Hl || fold tr in HAB.
  - split.
    + intros pre e post H. exfalso; apply (Hl e); rewrite H; apply in_or_app; right; now left.
    + intros lG src _ _ e; apply Hl.
  - split.
    + intros pre e post H. rewrite HAB in H.
      destruct (split_before _ pre post A B (eq_sym H) (HA e)) as (Q1 & -> & HQ).
      assert (Hq : forall l, l <> [] -> l <> [2] -> lane_events l Q1 = []).
      { intros l H1 H2; apply lane_events_none; intros x Hx.
        destruct (HB x (HQ x Hx)) as [E|E]; rewrite E; auto. }
      split; intro E.
      * rewrite lane_events_app, (Hq [0]), app_nil_r by discriminate. exact (HSc E).
      * rewrite lane_events_app, (Hq (dlane so)), app_nil_r;
          [exact (HDc E)|exact Hd0|apply dlane_not_main].
    + intros lG src Hg Hin e. rewrite HAB in Hin. apply in_app_iff in Hin.
      destruct Hin as [Hin|Hin].
      * apply in_lane_events in Hin. apply in_observe_intro in Hin; [|reflexivity].
        destruct Hg as [[E ->]|[E ->]].
        -- exfalso; exact (completes_no_fail _ _ _ _ _ src (HSc E) Hin).
        -- exfalso; exact (completes_no_fail _ _ _ _ _ src (HDc E) Hin).
      * exfalso. destruct (HB _ Hin) as [E'|E']; cbn in E';
          destruct Hg as [[_ ->]|[_ ->]]; try discriminate.
        -- exact (Hd0 E').
        -- exact (dlane_not_main so E').
Qed.

Lemma C3_main_after_groups_witness :
  let tr := trace_of 0 (pipeline demo_loader request_sdm) sched_ok in
  let pre := firstn 17 tr in
  tr = pre ++ ([2], ELog "Loading static script named <strong>m</strong>..." true JUndef)
              :: skipn 18 tr
  /\ completes_as demo_loader true (statics request_sdm) 0 (observe (lane_events [0] pre))
  /\ completes_as demo_loader false (dynamics request_sdm) 0
       (observe (lane_events (dlane request_sdm) pre))
  /\ In ([1; 0], EFire "./d1.js" false)
       (trace_of 0 (pipeline demo_loader request_sdm) sched_d1_fails)
  /\ (forall e, ~ In ([2], e) (trace_of 0 (pipeline demo_loader request_sdm) sched_d1_fails)).
Proof.
  intros tr pre.
  assert (Hsplit : tr = pre ++ ([2], ELog "Loading static script named <strong>m</strong>..."
                                      true JUndef) :: skipn 18 tr)
    by (vm_compute; reflexivity).
  assert (Hin : In ([1; 0], EFire "./d1.js" false)
                  (trace_of 0 (pipeline demo_loader request_sdm) sched_d1_fails))
    by (vm_compute; repeat (first [left; reflexivity | right])).
  destruct (proj1 (C3_main_after_groups demo_loader request_sdm 0 sched_ok) _ _ _ Hsplit)
    as [HS HD].
  split; [exact Hsplit|]. split; [apply HS; vm_compute; reflexivity|].
  split; [apply HD; vm_compute; reflexivity|]. split; [exact Hin|].
  apply (proj2 (C3_main_after_groups demo_loader request_sdm 0 sched_d1_fails)
           [1; 0] "./d1.js"); [right; split; vm_compute; reflexivity|exact Hin].
Defined.

(** C4 (code bug): the loop tests [scripts[counter]] for truthiness, so an
    empty identifier ends the group early. For statics [["a"; ""; "b"]]
    with every load succeeding and the logger on, on a loader whose [init]
    has run (so every [this.log] of the run returns, as the replay on the
    page [init] left shows), a single progress event [{value: 1, total: 3}]
    is emitted, the group resolves, and ["b"] is never inserted; the claim
    asks for three events ending at [{3, 3}]. *)
Theorem C4_empty_identifier_cuts_progress :
  let p := loadScripts demo_loader true (js_strings ["a"; ""; "b"]) in
  let sched := [(0, ok_at 5); (0, ok_at 7); (0, ok_at 9)] in
  logs_return_on_demo_page (trace_of 0 p sched) = true /\
  progress_events (trace_of 0 p sched) = [progress_payload 1 3] /\
  ~ In (EAppend true "./b.js") (map snd (trace_of 0 p sched)) /\
  m_main (snd (exec 0 p sched)) = resolved JUndef.
Proof.
  intros p sched. split; [|split; [|split]].
  - vm_compute. reflexivity.
  - vm_compute. reflexivity.
  - vm_compute. intuition discriminate.
  - vm_compute. reflexivity.
Qed.

(** C5: the finish signal. In the trace of [load], [this.finish()] runs
    ([endTime] is set) at most once; it runs exactly when the main script
    was inserted and its [onload] fired. Every run is on the main chain,
    needs a truthy [main], and, with the logger on, logs ["finish"] with
    [(endTime - startTime) / 1000] seconds ([startTime] is [null], read
    as 0, unless [init] set it). Without a main script it never runs. *)
Theorem C5_finish_once : forall L so t0 sched,
  let tr := trace_of t0 (pipeline L so) sched in
  finish_count tr <= 1 /\
  (finish_count tr = 1 <-> In ([2], EFire (script_src L (main so)) true) tr) /\
  (forall l t, In (l, EEndTime t) tr ->
     l = [2] /\ js_truthy (main so) = true /\
     In ([2], EFire (script_src L (main so)) true) tr /\
     (useLogger L = true ->
        In ([2], ELog "finish" false
                   (JNum (seconds_between
                            (match startTime L with Some s => s | None => 0%Z end) t))) tr)) /\
  (js_truthy (main so) = false -> finish_count tr = 0).
Proof.
  intros L so t0 sched tr.
  assert (Hlane : forall l t, In (l, EEndTime t) tr -> l = [2])
    by exact (pipeline_end_lane L so t0 sched).
  destruct (pipeline_gate L so t0 sched)
    as [[Hl _]|(A & B & HAB & HA & _ & _ & _ & (now & sched' & HB) & _)];
    fold tr in Hl || fold tr in HAB.
  - assert (Hne : forall l t, ~ In (l, EEndTime t) tr).
    { intros l t H. pose proof (Hlane l t H) as E; subst l. exact (Hl _ H). }
    rewrite (finish_count_none tr Hne).
    split; [lia|]. split; [split; [discriminate|intro H; exfalso; exact (Hl _ H)]|].
    split; [intros l t H; exfalso; exact (Hne l t H)|]. intros _; reflexivity.
  - subst B.
    set (p := if js_truthy (main so) then Some now else None) in HAB.
    set (M := fst (prun L so sched' (POk p))) in HAB.
    assert (Hloc : forall e, In ([2], e) tr ->
                   In ([2], e) (start_main L so now) \/ In ([2], e) M).
    { intros e H. rewrite HAB in H. apply in_app_iff in H.
      destruct H as [H|H]; [exfalso; exact (HA e H)|]. apply in_app_iff in H; exact H. }
    assert (HinM : forall x, In x M -> In x tr).
    { intros x H; rewrite HAB; apply in_or_app; right; apply in_or_app; right; exact H. }
    assert (HA0 : finish_count A = 0).
    { apply finish_count_none. intros l t H.
      assert (E : l = [2]) by (apply (Hlane l t); rewrite HAB; apply in_or_app; left; exact H).
      subst l. exact (HA _ H). }
    assert (HS0 : finish_count (start_main L so now) = 0)
      by (apply finish_count_none; apply start_main_no_end).
    assert (Hcnt : finish_count tr = finish_count M)
      by (rewrite HAB, !finish_count_app, HA0, HS0; reflexivity).
    assert (Hfire : forall src b, In ([2], EFire src b) tr -> In ([2], EFire src b) M).
    { intros src b H. destruct (Hloc _ H) as [H'|H']; [|exact H'].
      exfalso; exact (start_main_no_fire L so now [2] src b H'). }
    assert (Hend : forall l t, In (l, EEndTime t) tr -> In ([2], EEndTime t) M).
    { intros l t H. pose proof (Hlane l t H); subst l.
      destruct (Hloc _ H) as [H'|H']; [|exact H'].
      exfalso; exact (start_main_no_end L so now [2] t H'). }
    rewrite Hcnt.
    destruct (prun_POk_form L so sched' p) as [HM|(t & o & Hp & HM)]; fold M in HM.
    + clearbody M; subst M.
      split; [cbn; lia|].
      split; [split; [cbn; discriminate|intro H; pose proof (Hfire _ _ H) as F; destruct F]|].
      split; [intros l t' H; pose proof (Hend _ _ H) as F; destruct F|].
      intros _; reflexivity.
    + assert (Ht : js_truthy (main so) = true)
        by (unfold p in Hp; destruct (js_truthy (main so)); [reflexivity|discriminate]).
      clearbody M; subst M. rewrite main_fire_count.
      split; [destruct (onload o); lia|].
      split.
      * split.
        -- intro H1. apply HinM, main_fire_ok.
           destruct (onload o); [reflexivity|discriminate].
        -- intro H. apply Hfire, main_fire_ok in H. rewrite H; reflexivity.
      * split; [|intro Hf; rewrite Hf in Ht; discriminate].
        intros l t' H. pose proof (Hlane _ _ H); subst l. apply Hend in H.
        destruct (main_fire_end L so t o [2] t' H) as (_ & -> & Ho).
        split; [reflexivity|]. split; [exact Ht|].
        split; [apply HinM, main_fire_ok; exact Ho|].
        intro Hlog; apply HinM; apply main_fire_finish_log; assumption.
Qed.

Lemma C5_finish_once_witness :
  let tr := trace_of 0 (pipeline demo_loader request_sdm) sched_ok in
  finish_count tr = 1 /\
  In ([2], ELog "finish" false
             (JNum (seconds_between
                      (match startTime demo_loader with Some s => s | None => 0%Z end) 6))) tr /\
  finish_count (trace_of 0 (pipeline demo_loader request_s1) [(0, ok_at 3)]) = 0.
Proof.
  intros tr.
  destruct (C5_finish_once demo_loader request_sdm 0 sched_ok) as (_ & Hc & He & _).
  assert (Hf : In ([2], EFire (script_src demo_loader (main request_sdm)) true) tr)
    by (vm_compute; repeat (first [left; reflexivity | right])).
  assert (HE : In ([2], EEndTime 6) tr)
    by (vm_compute; repeat (first [left; reflexivity | right])).
  split; [exact (proj2 Hc Hf)|]. split.
  - destruct (He [2] 6%Z HE) as (_ & _ & _ & Hlog). apply Hlog; reflexivity.
  - apply (proj2 (proj2 (proj2 (C5_finish_once demo_loader request_s1 0 [(0, ok_at 3)])))).
    reflexivity.
Defined.

(** C6: [reset()] empties the dynamic container and leaves every other
    field alone, the static container (which also holds the main script)
    included; any positive number of consecutive resets gives the state of
    one reset. *)
Theorem C6_reset_dynamic_only_idempotent : forall L n,
  dynamicContainer (reset L) = [] /\
  staticContainer (reset L) = staticContainer L /\
  useLogger (reset L) = useLogger L /\
  scriptDirectoryPath (reset L) = scriptDirectoryPath L /\
  startTime (reset L) = startTime L /\
  endTime (reset L) = endTime L /\
  Nat.iter (S n) reset L = reset L.
Proof.
  intros L n. repeat split.
  induction n as [|n IH]; [reflexivity|].
  change (Nat.iter (S (S n)) reset L) with (reset (Nat.iter (S n) reset L)).
  rewrite IH. destruct L; reflexivity.
Qed.

(** C7 (counterexample): group [["a"; "b"; "c"]] where ["b"] fails, on a
    loader whose [init] has run (no [this.log] of the run throws). The
    group is rejected with ["b"]'s own rejection object
    [{isSuccess: false, time, payload: err}], and with no GroupLoadError:
    nothing wraps the resource error. *)
Lemma C7_no_group_load_error :
  let p := loadScripts demo_loader true (js_strings ["a"; "b"; "c"]) in
  let sched := [(0, ok_at 5); (0, err_at 9 (net_error "./b.js"))] in
  logs_return_on_demo_page (trace_of 0 p sched) = true /\
  m_main (snd (exec 0 p sched))
    = Settle (Rejected (load_error 5 (err_at 9 (net_error "./b.js")))) /\
  ~ (exists e inner, m_main (snd (exec 0 p sched)) = Settle (Rejected e) /\
                     group_load_error_of e inner).
Proof.
  intros p sched. split; [|split].
  - vm_compute. reflexivity.
  - vm_compute. reflexivity.
  - intros (e & inner & H & Hg). vm_compute in H. injection H as <-.
    destruct Hg as [Hn _]. cbn in Hn. intuition discriminate.
Qed.

(** C7 (amended): when a script of a group fails, the error the group
    delivers is that script's own rejection value, unwrapped: the value its
    [onerror] handler rejects with, [{isSuccess: false, time, payload}] with
    the elapsed seconds and the error event it received. *)
Theorem C7_group_error_is_resource_error : forall L b names t0 sched tr m src,
  exec t0 (loadScripts L b (js_strings names)) sched = (tr, m) ->
  In (EFire src false) (map snd tr) ->
  exists k name st o e,
    nth_error names k = Some name /\ src = script_src L (JStr name) /\
    onload o = false /\
    script_handlers L (JStr name) st o
      = Emit (EConsole "error" (error_value o)) (Settle (Rejected e)) /\
    e = JObj [("isSuccess", JBool false); ("time", JNum (seconds_between st (at_time o)));
              ("payload", error_value o)] /\
    m_main m = Settle (Rejected e).
Proof.
  intros L b names t0 sched tr m src Hex Hin.
  destruct (loadScripts_fail L b names t0 sched tr m src Hex Hin)
    as (k & pre & st & o & Hk & _ & Ho & _ & Hm).
  unfold srcs_of in Hk; rewrite nth_error_map in Hk.
  destruct (nth_error names k) as [name|] eqn:Hn; [|discriminate].
  injection Hk as Hk.
  exists k, name, st, o, (load_error st o).
  repeat split; auto.
  unfold script_handlers; rewrite Ho; reflexivity.
Qed.

Lemma C7_group_error_is_resource_error_witness :
  let p := loadScripts demo_loader true (js_strings ["a"; "b"; "c"]) in
  let sched := [(0, ok_at 5); (0, err_at 9 (net_error "./b.js"))] in
  In (EFire "./b.js" false) (map snd (trace_of 0 p sched)) /\
  exists k name st o e,
    nth_error ["a"; "b"; "c"] k = Some name /\ "./b.js" = script_src demo_loader (JStr name) /\
    onload o = false /\
    script_handlers demo_loader (JStr name) st o
      = Emit (EConsole "error" (error_value o)) (Settle (Rejected e)) /\
    e = JObj [("isSuccess", JBool false); ("time", JNum (seconds_between st (at_time o)));
              ("payload", error_value o)] /\
    m_main (snd (exec 0 p sched)) = Settle (Rejected e).
Proof.
  intros p sched. split.
  - vm_compute. repeat (first [left; reflexivity | right]).
  - apply (C7_group_error_is_resource_error demo_loader true ["a"; "b"; "c"] 0 sched
             (trace_of 0 p sched) (snd (exec 0 p sched)) "./b.js").
    + apply surjective_pairing.
    + vm_compute. repeat (first [left; reflexivity | right]).
Defined.

(** C8 (code bug): [ScriptObject] defaults an absent [main] to the
    [String] function, which is truthy, so [load] inserts a script named
    after its source text. For [new ScriptObject({statics: ["s1"]})]
    passed to [load] of a loader whose [init] has run (no [this.log] of the
    run throws), with every load succeeding, the second insertion is
    ["./function String() { [native code] }.js"] and finish runs, while the
    same fields passed to [load] as a plain object insert ["./s1.js"] only.
    The absent [dynamics] (defaulted to [Array]) inserts nothing. *)
Theorem C8_ScriptObject_absent_main :
  let sched := [(0, ok_at 5); (0, ok_at 7)] in
  logs_return_on_demo_page (trace_of 0 (pipeline demo_loader (ScriptObject request_s1)) sched)
    = true /\
  appended (trace_of 0 (pipeline demo_loader (ScriptObject request_s1)) sched)
    = ["./s1.js"; "./function String() { [native code] }.js"] /\
  In ([2], EEndTime 7) (trace_of 0 (pipeline demo_loader (ScriptObject request_s1)) sched) /\
  appended (trace_of 0 (pipeline demo_loader request_s1) sched) = ["./s1.js"].
Proof.
  intros sched. split; [|split; [|split]].
  - vm_compute. reflexivity.
  - vm_compute. reflexivity.
  - vm_compute. repeat (first [left; reflexivity | right]).
  - vm_compute. reflexivity.
Qed.

(** C9: vacuous success. [loadScripts] on an empty array opens the
    console group and resolves in its first turn, for every loader (it
    makes no [this.log] call): whatever the schedule, nothing is inserted,
    no progress is logged and no handler is left waiting. And, for a loader
    whose [this.log] returns (the logger off, or [this.logWindow] created
    by [init]), [load] on empty [statics] and [dynamics] with a truthy
    [main] inserts exactly one script, main, into the static container,
    and its promise is fulfilled, never rejected. *)
Theorem C9_empty_vacuous :
  (forall L b t0 sched,
     exec t0 (loadScripts L b (JArr [])) sched
     = (log_if (useLogger L) [] (EConsole "groupCollapsed" (JStr "Load Progress")),
        {| m_main := resolved JUndef; m_pool := [] |})) /\
  (forall L so t0 sched, log_throws L = false ->
     statics so = JArr [] -> dynamics so = JArr [] -> js_truthy (main so) = true ->
     let tr := trace_of t0 (pipeline L so) sched in
     appends tr = [EAppend true (script_src L (main so))] /\
     In ([], ESettled (Fulfilled JUndef)) tr /\
     (forall e, ~ In ([], ESettled (Rejected e)) tr) /\
     m_main (snd (exec t0 (pipeline L so) sched)) = resolved JUndef).
Proof.
  split.
  - intros L b t0 sched. destruct (log_throws L) eqn:Hlw.
    + rewrite exec_loadScripts_throw by exact Hlw.
      unfold log_throws in Hlw; apply andb_prop in Hlw; destruct Hlw as [Hu _].
      unfold log_if; rewrite Hu. reflexivity.
    + rewrite exec_loadScripts by exact Hlw. cbn [genter js_index nth js_truthy].
      rewrite grun_settled by exact I. rewrite !app_nil_r. reflexivity.
  - intros L so t0 sched Hlw HS HD Ht tr.
    assert (HrS : reqS so = false) by (unfold reqS, group_requested; rewrite HS; reflexivity).
    assert (HrD : reqD so = false) by (unfold reqD, group_requested; rewrite HD; reflexivity).
    assert (Hp : pinit L so t0
                 = (log_if (useLogger L) [] start_log ++ start_main L so t0, POk (Some t0))).
    { unfold pinit; rewrite HrS, HrD; cbn [settle_state app]. rewrite Ht. reflexivity. }
    assert (Htr : tr = (log_if (useLogger L) [] start_log ++ start_main L so t0)
                       ++ fst (prun L so sched (POk (Some t0))))
      by (unfold tr, trace_of; rewrite exec_pipeline, Hp by exact Hlw; reflexivity).
    assert (Hlog : forall x, In x (log_if (useLogger L) [] start_log) -> x = ([], start_log))
      by (intros x H; unfold log_if in H; destruct (useLogger L); cbn in H; intuition).
    refine (conj _ (conj _ (conj _ _))).
    + rewrite Htr, !appends_app, appends_start_main by exact Ht.
      replace (appends (log_if (useLogger L) [] start_log)) with (@nil event)
        by (unfold log_if; destruct (useLogger L); reflexivity).
      destruct (prun_POk_form L so sched (Some t0)) as [HM|(t & o & _ & HM)]; rewrite HM;
        [reflexivity|rewrite appends_main_fire; reflexivity].
    + rewrite Htr. apply in_or_app; left. apply in_or_app; right. apply start_main_settled.
    + intros e H. rewrite Htr, !in_app_iff in H. destruct H as [[H|H]|H].
      * apply Hlog in H. unfold start_log in H; discriminate.
      * exact (start_main_no_reject L so t0 [] e H).
      * apply prun_POk_lanes in H; discriminate.
    + rewrite exec_pipeline, Hp by exact Hlw. cbn [snd].
      destruct (prun_POk_snd L so sched (Some t0)) as [p' Hp']. rewrite Hp'. reflexivity.
Qed.

Lemma C9_empty_vacuous_witness :
  log_throws demo_loader = false /\
  appends (trace_of 0 (pipeline demo_loader request_m) []) = [EAppend true "./m.js"] /\
  m_main (snd (exec 0 (pipeline demo_loader request_m) [(0, err_at 2 JUndef)]))
    = resolved JUndef.
Proof.
  split; [reflexivity|]. split.
  - destruct (proj2 C9_empty_vacuous demo_loader request_m 0%Z [])
      as (H & _ & _ & _); [reflexivity..|exact H].
  - destruct (proj2 C9_empty_vacuous demo_loader request_m 0%Z [(0, err_at 2 JUndef)])
      as (_ & _ & _ & H); [reflexivity..|exact H].
Defined.

(** C10: [load]'s promise does not wait for main. With a truthy [main],
    wherever the pipeline's promise is fulfilled in the trace, main has
    already been inserted and its handler has not fired: the promise
    resolves while main is still loading. If main's load fails, the
    rejection of the [loadScript] chain stays unhandled, finish never runs,
    and [load]'s promise is fulfilled and never rejected. *)
Theorem C10_resolves_before_main : forall L so t0 sched,
  js_truthy (main so) = true ->
  let tr := trace_of t0 (pipeline L so) sched in
  let src := script_src L (main so) in
  (forall pre v post, tr = pre ++ ([], ESettled (Fulfilled v)) :: post ->
     In ([2], EAppend true src) pre /\ (forall s b, ~ In ([2], EFire s b) pre)) /\
  (In ([2], EFire src false) tr ->
     (exists e, In ([2], EUnhandled e) tr) /\ finish_count tr = 0 /\
     In ([], ESettled (Fulfilled JUndef)) tr /\ (forall e, ~ In ([], ESettled (Rejected e)) tr)).
Proof.
  intros L so t0 sched Ht tr src.
  destruct (pipeline_gate L so t0 sched)
    as [[Hl Hset]|(A & B & HAB & HA & _ & _ & _ & (now & sched' & HB) & HA0)];
    fold tr in Hl, Hset || fold tr in HAB.
  - split.
    + intros pre v post H. exfalso; apply (Hset v); rewrite H; apply in_or_app; right; now left.
    + intro H; exfalso; exact (Hl _ H).
  - subst B.
    set (M := fst (prun L so sched' (POk (if js_truthy (main so) then Some now else None)))) in HAB.
    assert (HM2 : forall x, In x M -> fst x = [2]) by (intro x; apply prun_POk_lanes).
    split.
    + intros pre v post H.
      destruct (start_main_split L so now Ht) as (X & HX & HXa & HXl).
      assert (Heq : tr = (A ++ X) ++ ([], ESettled (Fulfilled JUndef)) :: M)
        by (rewrite HAB, HX, <- !app_assoc; reflexivity).
      assert (Hpre : pre = A ++ X).
      { apply (split_at_unique _ (fun z => exists v, z = ([], ESettled (Fulfilled v)))
                 (A ++ X) M pre post ([], ESettled (Fulfilled JUndef)) ([], ESettled (Fulfilled v))).
        - exact (eq_trans (eq_sym Heq) H).
        - exists v; reflexivity.
        - intros z Hz (v' & ->). apply in_app_iff in Hz. destruct Hz as [Hz|Hz].
          + apply HA0 in Hz. unfold start_log in Hz; discriminate.
          + apply HXl in Hz. cbn in Hz. destruct Hz as [Hz _]; discriminate.
        - intros z Hz (v' & ->). apply HM2 in Hz; discriminate. }
      subst pre. split.
      * apply in_or_app; right; exact HXa.
      * intros s b Hin. apply in_app_iff in Hin. destruct Hin as [Hin|Hin]; [exact (HA _ Hin)|].
        apply HXl in Hin. exact (proj2 Hin s b eq_refl).
    + intro Hf.
      assert (HfM : In ([2], EFire src false) M).
      { rewrite HAB, !in_app_iff in Hf. destruct Hf as [H|[H|H]]; [exfalso; exact (HA _ H)| |exact H].
        exfalso; exact (start_main_no_fire L so now [2] src false H). }
      destruct (prun_POk_form L so sched' (if js_truthy (main so) then Some now else None))
        as [HM|(t & o & _ & HM)]; fold M in HM; [rewrite HM in HfM; destruct HfM|].
      destruct (main_fire_failed L so t o src) as [Ho HMf]; [rewrite <- HM; exact HfM|].
      rewrite HMf in HM.
      assert (HA0' : finish_count A = 0).
      { apply finish_count_none. intros l t' H.
        assert (E : l = [2]).
        { apply (pipeline_end_lane L so t0 sched l t'). fold tr; rewrite HAB.
          apply in_or_app; left; exact H. }
        subst l. exact (HA _ H). }
      assert (HS0 : finish_count (start_main L so now) = 0)
        by (apply finish_count_none; apply start_main_no_end).
      refine (conj _ (conj _ (conj _ _))).
      * exists (load_error t o). rewrite HAB, HM.
        apply in_or_app; right; apply in_or_app; right. right; right; now left.
      * rewrite HAB, !finish_count_app, HA0', HS0, HM. reflexivity.
      * rewrite HAB. apply in_or_app; right; apply in_or_app; left. apply start_main_settled.
      * intros e H. rewrite HAB, !in_app_iff in H. destruct H as [H|[H|H]].
        -- apply HA0 in H. unfold start_log in H; discriminate.
        -- exact (start_main_no_reject L so now [] e H).
        -- apply HM2 in H; discriminate.
Qed.

Lemma C10_resolves_before_main_witness :
  let tr := trace_of 0 (pipeline demo_loader request_sdm) sched_ok in
  let tr' := trace_of 0 (pipeline demo_loader request_sdm)
               [(0, ok_at 3); (0, ok_at 4); (0, err_at 6 JUndef)] in
  In ([2], EAppend true "./m.js") (firstn 19 tr) /\
  (forall s b, ~ In ([2], EFire s b) (firstn 19 tr)) /\
  finish_count tr' = 0 /\ (forall e, ~ In ([], ESettled (Rejected e)) tr').
Proof.
  intros tr tr'.
  assert (Ht : js_truthy (main request_sdm) = true) by reflexivity.
  assert (Hsplit : tr = firstn 19 tr ++ ([], ESettled (Fulfilled JUndef)) :: skipn 20 tr)
    by (vm_compute; reflexivity).
  destruct (proj1 (C10_resolves_before_main demo_loader request_sdm 0 sched_ok Ht) _ _ _ Hsplit)
    as [H1 H2].
  assert (Hf : In ([2], EFire (script_src demo_loader (main request_sdm)) false) tr')
    by (vm_compute; repeat (first [left; reflexivity | right])).
  destruct (proj2 (C10_resolves_before_main demo_loader request_sdm 0 _ Ht) Hf)
    as (_ & H3 & _ & H4).
  split; [exact H1|]. split; [exact H2|]. split; [exact H3|exact H4].
Defined.

(* ------------------------------------------------------------------ *)
(** * Further properties of the code *)

(** X1: when its loading log throws (the logger on and no
    [this.logWindow]), one call of [loadScript] makes that log call and
    throws the [TypeError] before creating any element, so the promise its
    caller is building is rejected with it. Otherwise it inserts one script
    element into the static or the dynamic container (after the loading log
    when the logger is on); the first firing of that element settles the
    promise: on [onload] it logs the load time and resolves with
    [isSuccess: true], the time in seconds and the message; on [onerror] it
    calls [console.error] (whether or not the logger is on) and rejects with
    [isSuccess: false], the time and the error. Later turns do nothing. *)
Theorem X1_loadScript_outcome : forall L b name t0 o rest,
  let src := script_src L name in
  let totalTime := seconds_between t0 (at_time o) in
  exec t0 (loadScript L b name) ((0, o) :: rest)
  = if log_throws L then
      ([([], ELog (loading_message b name) true JUndef)],
       {| m_main := Settle (Rejected log_type_error); m_pool := [] |})
    else
    (log_if (useLogger L) [] (ELog (loading_message b name) true JUndef)
     ++ [([], EAppend b src); ([], EFire src (onload o))]
     ++ (if onload o
         then log_if (useLogger L) [] (ELog (loaded_message name totalTime) true JUndef)
         else [([], EConsole "error" (error_value o))]),
     {| m_main := Settle (if onload o
             then Fulfilled (JObj [("isSuccess", JBool true); ("time", JNum totalTime);
                   ("payload", JObj [("message", JStr (loaded_message name totalTime))])])
             else Rejected (JObj [("isSuccess", JBool false); ("time", JNum totalTime);
                   ("payload", error_value o)]));
        m_pool := [] |}).
Proof.
  intros L b name t0 o rest src totalTime.
  unfold exec, loadScript, script_handlers, when, log_if, log_throws.
  destruct (useLogger L), (logWindow L); cbn -[loading_message loaded_message script_src];
    try (rewrite run_idle by reflexivity; reflexivity);
    destruct (onload o); cbn -[loading_message loaded_message script_src];
    rewrite run_idle by reflexivity; reflexivity.
Qed.

(** X2: with the logger off, no run of [load] calls [this.log], and the only
    console method it calls is [console.error] (from a failed script). *)
Theorem X2_logger_off_console : forall L so t0 sched,
  useLogger L = false ->
  forall l e, In (l, e) (trace_of t0 (pipeline L so) sched) ->
  (forall m b p, e <> ELog m b p) /\ (forall m a, e = EConsole m a -> m = "error").
Proof.
  intros L so t0 sched Hoff l e Hin.
  refine (pipeline_inventory L so
            (fun e => (forall m b p, e <> ELog m b p) /\
                      (forall m a, e = EConsole m a -> m = "error"))
            _ _ _ _ _ _ _ _ _ _ _ _ _ _ _ _ t0 sched (l, e) Hin);
    intros; try (rewrite Hoff in *; discriminate);
    split; intros; try discriminate; congruence.
Qed.

Lemma X2_logger_off_console_witness :
  useLogger (new_ScriptLoader {| opt_useLogger := JUndef; opt_path := JUndef |}) = false /\
  forall l e, In (l, e) (trace_of 0 (pipeline (new_ScriptLoader
                 {| opt_useLogger := JUndef; opt_path := JUndef |}) request_sdm) sched_d1_fails) ->
  (forall m b p, e <> ELog m b p) /\ (forall m a, e = EConsole m a -> m = "error").
Proof.
  split; [reflexivity|].
  exact (X2_logger_off_console (new_ScriptLoader {| opt_useLogger := JUndef; opt_path := JUndef |})
           request_sdm 0 sched_d1_fails eq_refl).
Defined.

(** X3: every script element a run of [load] inserts is one the request
    names: an insertion into the static (dynamic) container has the [src]
    of an entry of [statics] ([dynamics]) that is in range and truthy, or
    it is the insertion of [main] into the static container. *)
Theorem X3_inserts_requested : forall L so t0 sched b src,
  In (EAppend b src) (map snd (trace_of t0 (pipeline L so) sched)) ->
  (exists i, i < js_length (group_of so b) /\ js_truthy (js_index (group_of so b) i) = true /\
             src = script_src L (js_index (group_of so b) i))
  \/ (b = true /\ js_truthy (main so) = true /\ src = script_src L (main so)).
Proof.
  intros L so t0 sched b src Hin.
  apply in_map_iff in Hin. destruct Hin as [[l e] [He Hin]]. cbn [snd] in He. subst e.
  refine (pipeline_inventory L so
            (fun e => match e with
                      | EAppend b src =>
                          (exists i, i < js_length (group_of so b) /\
                                     js_truthy (js_index (group_of so b) i) = true /\
                                     src = script_src L (js_index (group_of so b) i))
                          \/ (b = true /\ js_truthy (main so) = true /\
                              src = script_src L (main so))
                      | _ => True
                      end)
            _ _ _ _ _ _ _ _ _ _ _ _ _ _ _ _ t0 sched (l, EAppend b src) Hin);
    intros; try exact I.
  - left. exists i. split; [exact (truthy_index_lt _ i H)|split; [exact H|reflexivity]].
  - right. auto.
Qed.

Lemma X3_inserts_requested_witness :
  In (EAppend false "./d1.js") (map snd (trace_of 0 (pipeline demo_loader request_sdm) sched_ok))
  /\ ((exists i, i < js_length (group_of request_sdm false) /\
                 js_truthy (js_index (group_of request_sdm false) i) = true /\
                 "./d1.js" = script_src demo_loader (js_index (group_of request_sdm false) i))
      \/ (false = true /\ js_truthy (main request_sdm) = true /\
          "./d1.js" = script_src demo_loader (main request_sdm))).
Proof.
  assert (H : In (EAppend false "./d1.js")
                (map snd (trace_of 0 (pipeline demo_loader request_sdm) sched_ok)))
    by (vm_compute; repeat (first [left; reflexivity | right])).
  exact (conj H (X3_inserts_requested demo_loader request_sdm 0 sched_ok false "./d1.js" H)).
Defined.

(** X4: [loadScripts] opens the collapsed console group "Load Progress"
    exactly when the logger is on, and closes it exactly when it reports
    the last progress step ([value] = [total] = [scripts.length]): a group
    that fails, is cut short by a falsy entry, or is empty leaves the
    console group open. *)
Theorem X4_progress_group_balance : forall L b s t0 sched,
  let tr := map snd (trace_of t0 (loadScripts L b s) sched) in
  (In (EConsole "groupCollapsed" (JStr "Load Progress")) tr <-> useLogger L = true) /\
  (In (EConsole "groupEnd" (JStr "Load Progress")) tr <->
   useLogger L = true /\
   In (ELog "progress" false (progress_payload (js_length s) (js_length s))) tr).
Proof.
  intros L b s t0 sched tr. subst tr. unfold trace_of.
  destruct (log_throws L) eqn:Hlw.
  { rewrite exec_loadScripts_throw by exact Hlw.
    unfold log_throws in Hlw; apply andb_prop in Hlw; destruct Hlw as [-> _].
    destruct (_ && _); cbn [fst map snd In]; intuition discriminate. }
  rewrite exec_loadScripts by exact Hlw.
  pose proof (genter_ok L b s [] 0 (js_length s) t0) as Hok.
  pose proof (genter_quiet L b s [] 0 (js_length s) t0) as Hq.
  destruct (genter L b s [] 0 (js_length s) t0) as [es ph] eqn:Hg. cbn [fst snd] in *.
  pose proof (grun_balance L b s sched [] ph Hok) as Hb.
  pose proof (grun_no_collapsed L b s sched [] ph) as Hc.
  destruct (grun L b s [] ph sched) as [es' ph'] eqn:Hr. cbn [fst] in *.
  rewrite !map_app, !in_app_iff, snd_log_if.
  change (EConsole "groupEnd" (JStr "Load Progress")) with group_end_ev.
  change (ELog "progress" false (progress_payload (js_length s) (js_length s))) with (last_progress s).
  assert (N1 : ~ In (EConsole "groupCollapsed" (JStr "Load Progress")) (map snd es))
    by (intro H; exact (proj2 (proj2 (Hq _ H)) _ eq_refl)).
  assert (N2 : ~ In group_end_ev (map snd es)) by (intro H; exact (proj1 (Hq _ H) eq_refl)).
  assert (N3 : ~ In (last_progress s) (map snd es))
    by (intro H; exact (proj1 (proj2 (Hq _ H)) eq_refl)).
  assert (N4 : ~ In (EConsole "groupCollapsed" (JStr "Load Progress")) (map snd es'))
    by (intro H; exact (Hc _ _ H eq_refl)).
  assert (D1 : group_end_ev <> EConsole "groupCollapsed" (JStr "Load Progress")) by discriminate.
  assert (D2 : last_progress s <> EConsole "groupCollapsed" (JStr "Load Progress")) by discriminate.
  destruct (useLogger L); cbn [In]; intuition (try discriminate).
Qed.

(** X5: before an ["init"] log has created [this.logWindow], every other
    [this.log] call throws a [TypeError] (after its [console.log], for all
    but a ["progress"] call with an undefined payload); the log window stays
    undefined and [this.mainContainer] is untouched. *)
Theorem X5_log_needs_window : forall g pc pg m b p,
  log_windows pg = [] -> m <> "init" ->
  exists msg pg', log g pc pg m b p = Abrupt (TypeError msg) pg' /\
                  log_windows pg' = [] /\ main_children pg' = main_children pg.
Proof.
  intros g pc pg m b p Hw Hm. unfold log.
  destruct (String.eqb_spec m "init") as [E|_]; [congruence|].
  destruct (String.eqb_spec m "progress") as [_|_].
  - destruct (js_get p "value") as [v|], (js_get p "total") as [t|];
      unfold add_html; cbn [log_windows console_call]; rewrite ?Hw;
      do 2 eexists; (split; [reflexivity|]); split; solve [exact Hw|reflexivity].
  - destruct (String.eqb_spec m "finish") as [_|_];
      unfold add_html; cbn [log_windows console_call]; rewrite Hw; cbn [cbind];
      do 2 eexists; (split; [reflexivity|]); split; solve [exact Hw|reflexivity].
Qed.

Lemma X5_log_needs_window_witness :
  log_windows page0 = [] /\ "Start loading scripts..." <> "init" /\
  exists msg pg', log None pct page0 "Start loading scripts..." true JUndef
                  = Abrupt (TypeError msg) pg' /\
                  log_windows pg' = [] /\ main_children pg' = main_children page0.
Proof.
  assert (H : "Start loading scripts..." <> "init") by discriminate.
  exact (conj eq_refl (conj H (X5_log_needs_window None pct page0 _ true JUndef eq_refl H))).
Defined.

(** X6: calling [this.load] with the logger on but without [this.init]
    (so [this.logWindow] is undefined) throws a [TypeError] at its first
    statement, the log call "Start loading scripts...", right after that
    message reached the console. *)
Theorem X6_load_without_init : forall g pc L so t0 sched pg,
  useLogger L = true -> log_windows pg = [] ->
  replay g pc pg (map snd (trace_of t0 (pipeline L so) sched))
  = Abrupt (TypeError "Cannot read properties of undefined (reading 'innerHTML')")
           (console_call pg "log" (JStr "Start loading scripts...")).
Proof.
  intros g pc L so t0 sched pg Hl Hw.
  destruct (pipeline_head L so t0 sched Hl) as [rest ->].
  unfold start_log; cbn [replay]. unfold log; cbn [String.eqb Ascii.eqb Bool.eqb].
  unfold add_html; cbn [log_windows console_call]; rewrite Hw. reflexivity.
Qed.

Lemma X6_load_without_init_witness :
  useLogger demo_loader = true /\ log_windows page0 = [] /\
  replay None pct page0 (map snd (trace_of 0 (pipeline demo_loader request_sdm) sched_ok))
  = Abrupt (TypeError "Cannot read properties of undefined (reading 'innerHTML')")
           (console_call page0 "log" (JStr "Start loading scripts...")).
Proof.
  exact (conj eq_refl (conj eq_refl
    (X6_load_without_init None pct demo_loader request_sdm 0 sched_ok page0 eq_refl eq_refl))).
Defined.

(** X7: with the logger on, [this.init] first opens the console group
    "[SCRIPT-LOADER]" and prints the request with [console.table]; the new
    log window shows the JSON of the global [scriptObject], not of the
    request. Without such a global, [init] throws a [ReferenceError] with
    the window created but never attached, before the containers are set up
    and before anything is loaded. With one, the window is attached to
    [this.mainContainer], followed by the static and the dynamic container. *)
Theorem X7_init_log_window : forall pc L pg so now, useLogger L = true ->
  snd (init None pc L pg so now)
  = Abrupt (ReferenceError "scriptObject is not defined")
      (with_windows (console_call (console_call pg "group" (JStr log_name)) "table" (so_value so))
         ([(log_window_title ++ "<hr>")%string] :: log_windows pg)) /\
  forall v, exists pg', snd (init (Some v) pc L pg so now) = Normal pg' /\
    console_out pg' = console_out pg ++ [("group", JStr log_name); ("table", so_value so)] /\
    log_windows pg' = [(log_window_title ++ "<hr>")%string; script_object_html v] :: log_windows pg /\
    exists cs, main_children pg' = cs ++ [CWindow (length (log_windows pg)); CStatic; CDynamic].
Proof.
  intros pc L pg so now Hl. split.
  - unfold init; rewrite Hl. cbn [snd]. unfold log; cbn [String.eqb Ascii.eqb Bool.eqb].
    reflexivity.
  - intro v. rewrite (init_some_form v pc L pg so now Hl). eexists; split; [reflexivity|].
    split; [cbn; rewrite <- app_assoc; reflexivity|].
    split; [reflexivity|].
    exists (drop_child CDynamic (drop_child CStatic (drop_child (CWindow (length (log_windows pg)))
              (main_children pg)))).
    unfold setupScriptContainers, main_append, drop_child; cbn [main_children with_windows console_call].
    rewrite !filter_app. cbn. rewrite <- !app_assoc. reflexivity.
Qed.

Lemma X7_init_log_window_witness :
  useLogger demo_loader = true /\
  snd (init None pct demo_loader page0 request_sdm 0)
  = Abrupt (ReferenceError "scriptObject is not defined")
      (with_windows (console_call (console_call page0 "group" (JStr log_name)) "table"
                       (so_value request_sdm))
         ([(log_window_title ++ "<hr>")%string] :: log_windows page0)).
Proof.
  exact (conj eq_refl (proj1 (X7_init_log_window pct demo_loader page0 request_sdm 0 eq_refl))).
Defined.

(** X8: once [this.init] has run with the logger on (and a global
    [scriptObject]), no log call of the [load] that follows throws,
    whatever the schedule: the log and console calls only append to the
    console and to the newest log window; the older windows, the children
    of [this.mainContainer] and the body stay as [init] left them. *)
Theorem X8_init_then_load_logs : forall v pc L pg so now t0 sched,
  useLogger L = true ->
  exists pg1 w ws,
    snd (init (Some v) pc L pg so now) = Normal pg1 /\ log_windows pg1 = w :: ws /\
    exists w' extra,
      replay (Some v) pc pg1
        (map snd (trace_of t0 (pipeline (fst (init (Some v) pc L pg so now)) so) sched))
      = Normal {| console_out := console_out pg1 ++ extra; log_windows := (w ++ w') :: ws;
                  main_children := main_children pg1; body := body pg1 |}.
Proof.
  intros v pc L pg so now t0 sched Hl.
  rewrite (init_some_form v pc L pg so now Hl).
  do 3 eexists; split; [reflexivity|]. split; [reflexivity|].
  apply replay_safe; [reflexivity|]. apply pipeline_safe.
Qed.

Lemma X8_init_then_load_logs_witness :
  useLogger demo_loader = true /\
  exists pg1 w ws,
    snd (init (Some (so_value request_sdm)) pct demo_loader page0 request_sdm 0) = Normal pg1 /\
    log_windows pg1 = w :: ws /\
    exists w' extra,
      replay (Some (so_value request_sdm)) pct pg1
        (map snd (trace_of 0 (pipeline (fst (init (Some (so_value request_sdm)) pct demo_loader
                                                 page0 request_sdm 0)) request_sdm) sched_d1_fails))
      = Normal {| console_out := console_out pg1 ++ extra; log_windows := (w ++ w') :: ws;
                  main_children := main_children pg1; body := body pg1 |}.
Proof.
  exact (conj eq_refl (X8_init_then_load_logs (so_value request_sdm) pct demo_loader page0
                         request_sdm 0 0 sched_d1_fails eq_refl)).
Defined.

(** X9: [this.init], when it does not throw, rebuilds the page body through
    [document.body.innerHTML +=]: every node the body had is replaced by a
    re-parsed copy, the live [this.mainContainer] ends up as the one and
    only live container and the last child, and the container a previous
    [init] attached stays behind as a dead copy. *)
Theorem X9_init_reparses_body : forall g pc L pg so now pg',
  snd (init g pc L pg so now) = Normal pg' ->
  (forall k live, In (BPage k live) (body pg') -> live = false) /\
  (forall k live, In (BPage k live) (body pg) -> In (BPage k false) (body pg')) /\
  (exists pre, body pg' = pre ++ [BMain] /\ ~ In BMain pre) /\
  (In BMain (body pg) -> In BMainCopy (body pg')).
Proof.
  intros g pc L pg so now pg' H. unfold init in H; cbn [snd] in H.
  assert (E : exists pg1, body pg1 = body pg /\ pg' = setupScriptContainers pg1).
  { destruct (useLogger L).
    - destruct (log g pc pg "init" false (so_value so)) as [pg1|e pg1] eqn:Hlog;
        cbn [cbind] in H; [|discriminate].
      injection H as <-. exists pg1. split; [exact (log_body _ _ _ _ _ _ _ Hlog)|reflexivity].
    - cbn [cbind] in H. injection H as <-. exists pg. split; reflexivity. }
  destruct E as (pg1 & Hb & ->).
  unfold setupScriptContainers, main_append; cbn [body]. rewrite Hb.
  rewrite filter_app, reparse_not_main. cbn [filter].
  split; [|split; [|split]].
  - intros k live Hin. rewrite <- app_assoc, !in_app_iff in Hin.
    destruct Hin as [Hin|Hin]; [|cbn in Hin; intuition discriminate].
    apply in_map_iff in Hin. destruct Hin as [[] [Hr _]]; cbn in Hr; congruence.
  - intros k live Hin. rewrite <- app_assoc, in_app_iff; left.
    apply in_map_iff. exists (BPage k live). split; [reflexivity|exact Hin].
  - eexists; split; [reflexivity|].
    rewrite in_app_iff. intros [Hin|Hin]; [|cbn in Hin; intuition discriminate].
    apply in_map_iff in Hin. destruct Hin as [[] [Hr _]]; cbn in Hr; discriminate.
  - intro Hin. rewrite <- app_assoc, in_app_iff; left.
    apply in_map_iff. exists BMain. split; [reflexivity|exact Hin].
Qed.

Lemma X9_init_reparses_body_witness :
  let L := new_ScriptLoader {| opt_useLogger := JUndef; opt_path := JUndef |} in
  let pg1 := page_after (snd (init None pct L page0 request_sdm 0)) in
  let pg2 := page_after (snd (init None pct L pg1 request_sdm 5)) in
  snd (init None pct L pg1 request_sdm 5) = Normal pg2 /\ In BMain (body pg1) /\
  In BMainCopy (body pg2).
Proof.
  intros L pg1 pg2.
  assert (H : snd (init None pct L pg1 request_sdm 5) = Normal pg2) by reflexivity.
  assert (Hm : In BMain (body pg1)) by (vm_compute; auto).
  exact (conj H (conj Hm
    (proj2 (proj2 (proj2 (X9_init_reparses_body None pct L pg1 request_sdm 5 pg2 H))) Hm))).
Defined.

(** X10: for a request built by [ScriptObject] without [dynamics], no
    script is inserted into the dynamic container, while (with the logger
    on and [this.logWindow] created, as after [init]) a "Load Progress"
    console group is still opened for the dynamic group and "dynamic
    scripts loaded" is logged; without [statics], the only script inserted
    into the static container is [main]. *)
Theorem X10_ScriptObject_missing_groups : forall L so t0 sched,
  let tr := map snd (trace_of t0 (pipeline L (ScriptObject so)) sched) in
  (dynamics so = JUndef -> forall src, ~ In (EAppend false src) tr) /\
  (statics so = JUndef -> forall src, In (EAppend true src) tr ->
     src = script_src L (main (ScriptObject so))) /\
  (dynamics so = JUndef -> useLogger L = true -> logWindow L = true ->
     In (EConsole "groupCollapsed" (JStr "Load Progress")) tr /\
     In (ELog "dynamic scripts loaded" true JUndef) tr).
Proof.
  intros L so t0 sched tr.
  assert (Hinv : forall b src, In (EAppend b src) tr ->
            (dynamics so = JUndef -> b = true) /\
            (statics so = JUndef -> b = true -> src = script_src L (main (ScriptObject so)))).
  { intros b src Hin. apply in_map_iff in Hin. destruct Hin as [[l e] [He Hin]].
    cbn [snd] in He. subst e.
    refine (pipeline_inventory L (ScriptObject so)
              (fun e => match e with
                        | EAppend b src =>
                            (dynamics so = JUndef -> b = true) /\
                            (statics so = JUndef -> b = true ->
                             src = script_src L (main (ScriptObject so)))
                        | _ => True
                        end)
              _ _ _ _ _ _ _ _ _ _ _ _ _ _ _ _ t0 sched (l, EAppend b src) Hin);
      intros; try exact I.
    - destruct b0; cbn [group_of ScriptObject statics dynamics] in H.
      + split; [reflexivity|]. intro Hs. rewrite Hs in H. discriminate.
      + split; [|discriminate]. intro Hd. rewrite Hd in H. discriminate.
    - split; intros; reflexivity. }
  split; [|split].
  - intros Hd src Hin. destruct (Hinv false src Hin) as [H _]. discriminate (H Hd).
  - intros Hs src Hin. exact (proj2 (Hinv true src Hin) Hs eq_refl).
  - intros Hd Hl Hw. subst tr.
    assert (Hlw : log_throws L = false) by (unfold log_throws; rewrite Hl, Hw; reflexivity).
    unfold trace_of; rewrite exec_pipeline by exact Hlw; unfold pinit.
    assert (Er : reqD (ScriptObject so) = true)
      by (unfold reqD; cbn [ScriptObject dynamics]; rewrite Hd; reflexivity).
    assert (Eg : group_init L false (dynamics (ScriptObject so)) (dlane (ScriptObject so)) t0
                 = ([(dlane (ScriptObject so), EConsole "groupCollapsed" (JStr "Load Progress"));
                     (dlane (ScriptObject so), ELog "dynamic scripts loaded" true JUndef)], GDone)).
    { cbn [ScriptObject dynamics]. rewrite Hd. unfold group_init, genter, glog_events, log_if.
      rewrite Hl. reflexivity. }
    rewrite Er, Eg.
    destruct (if reqS (ScriptObject so) then group_init L true (statics (ScriptObject so)) [0] t0
              else ([], GDone)) as [eS ps].
    destruct (settle_state L (ScriptObject so) ps GDone t0) as [e3 st]. cbn [fst snd].
    rewrite !map_app, !in_app_iff. cbn [map snd In]. tauto.
Qed.

Lemma X10_ScriptObject_missing_groups_witness :
  let tr := map snd (trace_of 0 (pipeline demo_loader (ScriptObject request_s1)) sched_ok) in
  dynamics request_s1 = JUndef /\ useLogger demo_loader = true /\ logWindow demo_loader = true /\
  (forall src, ~ In (EAppend false src) tr) /\
  In (EConsole "groupCollapsed" (JStr "Load Progress")) tr /\
  In (ELog "dynamic scripts loaded" true JUndef) tr.
Proof.
  intro tr.
  destruct (X10_ScriptObject_missing_groups demo_loader request_s1 0 sched_ok) as (H1 & _ & H3).
  exact (conj eq_refl (conj eq_refl (conj eq_refl (conj (H1 eq_refl) (H3 eq_refl eq_refl eq_refl))))).
Defined.

(** X11: with the logger on and no [this.logWindow] (before [init]),
    [load] prints its first message to the console and throws the
    [TypeError] at once: it inserts nothing and returns no promise, whatever
    the schedule. [loadScripts] opens its console group and, when its first
    entry is truthy, attempts that entry's loading log and rejects with the
    [TypeError] before inserting anything; otherwise it resolves. *)
Theorem X11_logger_without_window : forall L so b s t0 sched,
  useLogger L = true -> logWindow L = false ->
  trace_of t0 (pipeline L so) sched = [([], start_log); ([], EThrow log_type_error)] /\
  exec t0 (loadScripts L b s) sched
  = if js_truthy (js_index s 0) && Nat.ltb 0 (js_length s) then
      ([([], EConsole "groupCollapsed" (JStr "Load Progress"));
        ([], ELog (loading_message b (js_index s 0)) true JUndef)],
       {| m_main := Settle (Rejected log_type_error); m_pool := [] |})
    else
      ([([], EConsole "groupCollapsed" (JStr "Load Progress"))],
       {| m_main := resolved JUndef; m_pool := [] |}).
Proof.
  intros L so b s t0 sched Hl Hw.
  assert (Hlw : log_throws L = true) by (unfold log_throws; rewrite Hl, Hw; reflexivity).
  split; [apply trace_pipeline_throw|apply exec_loadScripts_throw]; exact Hlw.
Qed.

Lemma X11_logger_without_window_witness :
  useLogger fresh_loader = true /\ logWindow fresh_loader = false /\
  trace_of 0 (pipeline fresh_loader request_sdm) sched_ok
    = [([], start_log); ([], EThrow log_type_error)] /\
  m_main (snd (exec 0 (loadScripts fresh_loader true (js_strings ["a"])) sched_ok))
    = Settle (Rejected log_type_error).
Proof.
  destruct (X11_logger_without_window fresh_loader request_sdm true (js_strings ["a"]) 0 sched_ok
              eq_refl eq_refl) as [H1 H2].
  split; [reflexivity|]. split; [reflexivity|]. split; [exact H1|].
  rewrite H2. reflexivity.
Defined.
